(** * Class-index to vocabulary-term mapping discovery and validation

    A shallow embedding of the mapping discovery / validation engine of
    the vocabulary analyzers:

    - [balanced_vocab_analyzer.py]   (class BalancedEnhanced21kVocabAnalyzer)
    - [scripts/hybrid_analyzer.py]   (class HybridVocabAnalyzer)
    - [scripts/python_efficientnet_classifier.py] (class VocabularyClassifier)

    Modelling conventions.

    - Python [dict]s keyed by the class index (a [str]) are [gmap string _];
      a [defaultdict(list)] is a [gmap] read with default [[]].
    - Python [float]s are modelled by exact rationals [Q]: comparisons and
      arithmetic are those of the rationals, rounding is not modelled.
    - Python [str] is [string], read as ASCII text: [str.lower],
      [str.split], [str.strip], [str.isdigit] and [int] are defined on
      ASCII. Where what Python does with text outside ASCII decides the
      outcome ([_load_vocabulary], [classify_image]), that part is a
      parameter standing for Python's Unicode tables, and statements that
      evaluate a comparison of lowercased terms say that the terms are
      ASCII. [int] of ASCII digits is the number they denote, whatever
      their length.
    - The analyzers' attributes ([class_mapping], [discovered_classes],
      [validation_stats]) are an explicit state record threaded through the
      methods. *)

From Stdlib Require Import QArith ZArith Lia Bool Ascii String List Sorted.
From stdpp Require Import gmap strings list fin_maps.

Local Open Scope Q_scope.

(* ===================================================================== *)
(** * Part I: definitions                                                *)
(* ===================================================================== *)

(** ** Numbers *)

(** [x < y] on floats, as a boolean. *)
Definition Qltb (x y : Q) : bool :=
  (Qnum x * QDen y <? Qnum y * QDen x)%Z.

(** [int / int] and [float / int]: true division by a count. *)
Definition of_int (n : nat) : Q := inject_Z (Z.of_nat n).

(** [x < y] on rationals is decidable, so observations can be counted with
    [filter]. *)
#[global] Instance Qlt_decision (x y : Q) : Decision (x < y) :=
  match Qlt_le_dec x y with
  | left H => left H
  | right H => right (Qle_not_lt _ _ H)
  end.

(** ** Text *)

Module Text.

Definition is_upper (c : ascii) : bool :=
  let n := nat_of_ascii c in (65 <=? n)%nat && (n <=? 90)%nat.

Definition lower_ascii (c : ascii) : ascii :=
  if is_upper c then ascii_of_nat (nat_of_ascii c + 32) else c.

(** [s.lower()] *)
Fixpoint lower (s : string) : string :=
  match s with
  | EmptyString => EmptyString
  | String c r => String (lower_ascii c) (lower r)
  end.

(** Python truthiness of an optional string: [None] and [''] are falsy. *)
Definition truthy (o : option string) : option string :=
  match o with
  | Some EmptyString => None
  | _ => o
  end.

(** [s.isascii()] *)
Fixpoint is_ascii (s : string) : bool :=
  match s with
  | EmptyString => true
  | String c r => (nat_of_ascii c <? 128)%nat && is_ascii r
  end.

End Text.


(** ** Predictions, as built by [get_top_predictions] *)

Record prediction := {
  rank : nat;
  class_idx : string;
  class_name : string;
  confidence : Q;
  confidence_percent : Q
}.

(** [enumerate(l)] *)
Definition enumerate {A} (l : list A) : list (nat * A) :=
  combine (seq 0 (length l)) l.

(** ** [collections.Counter] restricted to what the analyzers use *)

Module Counter.

(** Items in insertion order. *)
Definition t := list (string * nat).

(** [c[k] += 1] *)
Fixpoint incr (k : string) (c : t) : t :=
  match c with
  | [] => [(k, 1%nat)]
  | (k', n) :: r =>
      if String.eqb k k' then (k', S n) :: r else (k', n) :: incr k r
  end.

(** [max(items, key=count)]: the first item of maximal count. *)
Fixpoint max_from (best : string * nat) (c : t) : string * nat :=
  match c with
  | [] => best
  | x :: r => if (snd best <? snd x)%nat then max_from x r else max_from best r
  end.

(** [c[k]]: the count of a key, 0 when absent. *)
Fixpoint get (k : string) (c : t) : nat :=
  match c with
  | [] => 0%nat
  | (k', n) :: r => if String.eqb k k' then n else get k r
  end.

(** [c.most_common(1)], as an option in place of a list of length <= 1. *)
Definition most_common1 (c : t) : option (string * nat) :=
  match c with
  | [] => None
  | x :: r => Some (max_from x r)
  end.

End Counter.

(** ** The balanced analyzer ([balanced_vocab_analyzer.py]) *)

Module Balanced.

(** [discovery_info] *)
Record discovery := {
  expected_vocab : string;
  d_confidence : Q;
  d_rank : nat;
  confidence_gap : Q
}.

(** An entry of [validation_stats]. *)
Record stats := {
  vocab_term : string;
  evidence_count : nat;
  avg_confidence : Q;
  consistency_ratio : Q;
  rank_1_ratio : Q;
  high_confidence_ratio : Q;
  quality_score : Q
}.

Record state := {
  class_mapping : gmap string string;
  discovered_classes : gmap string (list discovery);
  validation_stats : gmap string stats
}.

(** State after [__init__]. *)
Definition init : state :=
  {| class_mapping := ∅; discovered_classes := ∅; validation_stats := ∅ |}.

(** [self.discovered_classes[class_idx].append(info)] on a defaultdict. *)
Definition append_discovery (class_idx : string) (info : discovery)
    (d : gmap string (list discovery)) : gmap string (list discovery) :=
  <[class_idx := default [] (d !! class_idx) ++ [info]]> d.

(** Body of the loop of [discover_class_mappings_balanced]. *)
Definition discover_step (predictions : list prediction) (expected : string)
    (st : state) (ip : nat * prediction) : state :=
  let '(i, pred) := ip in
  let confidence := confidence_percent pred in
  let class_idx := class_idx pred in
  if Qltb 20.0 confidence then
    match predictions !! 5%nat with        (* len(predictions) > 5 *)
    | Some sixth =>
        let sixth_confidence := confidence_percent sixth in
        let confidence_gap := confidence - sixth_confidence in
        if Qltb 5.0 confidence_gap then
          match class_mapping st !! class_idx with
          | None =>
              let discovery_info :=
                {| expected_vocab := expected;
                   d_confidence := confidence;
                   d_rank := i + 1;
                   confidence_gap := confidence_gap |} in
              {| class_mapping := class_mapping st;
                 discovered_classes :=
                   append_discovery class_idx discovery_info
                                    (discovered_classes st);
                 validation_stats := validation_stats st |}
          | Some _ => st
          end
        else st
    | None => st
    end
  else st.

Definition discover_class_mappings_balanced (st : state)
    (predictions : list prediction) (expected_vocab : option string) : state :=
  match Text.truthy expected_vocab with
  | None => st                              (* if not expected_vocab: return *)
  | Some expected =>
      let top_predictions := take 5 predictions in
      fold_left (discover_step predictions expected)
                (enumerate top_predictions) st
  end.

(** The quality analysis of one class: the inner loop and the metrics. *)
Definition vocab_counts (discoveries : list discovery) : Counter.t :=
  fold_left (fun c d => Counter.incr (expected_vocab d) c) discoveries [].

Definition total_confidence (discoveries : list discovery) : Q :=
  fold_left (fun s d => s + d_confidence d) discoveries 0.

Definition rank_1_count (discoveries : list discovery) : nat :=
  fold_left (fun n d => if (d_rank d =? 1)%nat then S n else n) discoveries 0%nat.

Definition high_confidence_count (discoveries : list discovery) : nat :=
  fold_left (fun n d => if Qltb 30.0 (d_confidence d) then S n else n)
            discoveries 0%nat.

(** The quality metrics, named as in the source. [most_common_vocab] and
    [occurrence_count] are the two components of
    [vocab_counts.most_common(1)[0]]; on an empty counter, where the source
    raises, they are [""] and [0]. *)
Definition most_common (discoveries : list discovery) : option (string * nat) :=
  Counter.most_common1 (vocab_counts discoveries).

Definition most_common_vocab (discoveries : list discovery) : string :=
  default EmptyString (fst <$> most_common discoveries).

Definition occurrence_count (discoveries : list discovery) : nat :=
  default 0%nat (snd <$> most_common discoveries).

Definition avg_confidence_of (discoveries : list discovery) : Q :=
  total_confidence discoveries / of_int (length discoveries).

Definition consistency_ratio_of (discoveries : list discovery) : Q :=
  of_int (occurrence_count discoveries) / of_int (length discoveries).

Definition rank_1_ratio_of (discoveries : list discovery) : Q :=
  of_int (rank_1_count discoveries) / of_int (length discoveries).

Definition high_confidence_ratio_of (discoveries : list discovery) : Q :=
  of_int (high_confidence_count discoveries) / of_int (length discoveries).

Definition validation_passed (discoveries : list discovery) : bool :=
  Qltb 25.0 (avg_confidence_of discoveries) &&
  Qltb 0.5 (consistency_ratio_of discoveries) &&
  (2 <=? occurrence_count discoveries)%nat &&
  (Qltb 0.2 (rank_1_ratio_of discoveries)
   || Qltb 0.3 (high_confidence_ratio_of discoveries)).

(** Outcome of the body of the loop of [build_class_mapping_balanced] for
    one class: [None] when the class is skipped or rejected, otherwise the
    value written to [new_mappings] and the entry of [validation_stats]. *)
Definition validate (discoveries : list discovery) : option (string * stats) :=
  if (length discoveries <? 2)%nat then None
  else
    match most_common discoveries with
    | None => None            (* [most_common(1)[0]] on an empty counter *)
    | Some _ =>
        if validation_passed discoveries then
          let quality_score :=
            avg_confidence_of discoveries * consistency_ratio_of discoveries
            * (rank_1_ratio_of discoveries
               + high_confidence_ratio_of discoveries) in
          Some (Text.lower (most_common_vocab discoveries),
                {| vocab_term := most_common_vocab discoveries;
                   evidence_count := length discoveries;
                   avg_confidence := avg_confidence_of discoveries;
                   consistency_ratio := consistency_ratio_of discoveries;
                   rank_1_ratio := rank_1_ratio_of discoveries;
                   high_confidence_ratio := high_confidence_ratio_of discoveries;
                   quality_score := quality_score |})
        else None
    end.

(** One iteration of [for class_idx, discoveries in
    self.discovered_classes.items()], on the pair
    ([new_mappings], [validation_stats]). *)
Definition build_step (class_idx : string) (discoveries : list discovery)
    (acc : gmap string string * gmap string stats)
    : gmap string string * gmap string stats :=
  match validate discoveries with
  | Some (term, entry) =>
      (<[class_idx := term]> (fst acc), <[class_idx := entry]> (snd acc))
  | None => acc
  end.

(** [build_class_mapping_balanced]: returns [new_mappings] and the state. *)
Definition build_class_mapping_balanced (st : state)
    : gmap string string * state :=
  let '(new_mappings, stats') :=
    map_fold build_step (∅, validation_stats st) (discovered_classes st) in
  (new_mappings,
   {| class_mapping := new_mappings ∪ class_mapping st;  (* dict.update *)
      discovered_classes := discovered_classes st;
      validation_stats := stats' |}).

(** The calls a run makes on the analyzer's mapping state. *)
Inductive op :=
| Discover (predictions : list prediction) (expected_vocab : option string)
| Build.

Definition step (st : state) (o : op) : state :=
  match o with
  | Discover predictions expected =>
      discover_class_mappings_balanced st predictions expected
  | Build => snd (build_class_mapping_balanced st)
  end.

Definition run (ops : list op) : state := fold_left step ops init.

(** Invariant of the runs: every entry of the mapping table is what
    validation yields on the observations of its class. *)
Definition validated_table (st : state) : Prop :=
  ∀ c t, class_mapping st !! c = Some t →
         fst <$> (discovered_classes st !! c ≫= validate) = Some t.

End Balanced.

(** ** The hybrid analyzer ([scripts/hybrid_analyzer.py]) *)

Module Hybrid.

Inductive mapping_type :=
| immediate_high_confidence
| single_evidence_validated
| multiple_evidence_required
| single_high_confidence
| multiple_evidence_validated.

(** [discovery_info] *)
Record discovery := {
  expected_vocab : string;
  d_confidence : Q;
  d_rank : nat;
  d_mapping_type : mapping_type
}.

(** An entry of [validation_stats]; the immediate path writes no
    ['high_confidence_ratio'] key. *)
Record stats := {
  vocab_term : string;
  evidence_count : nat;
  avg_confidence : Q;
  consistency_ratio : Q;
  high_confidence_ratio : option Q;
  quality_score : Q;
  s_mapping_type : mapping_type
}.

Record state := {
  class_mapping : gmap string string;
  discovered_classes : gmap string (list discovery);
  validation_stats : gmap string stats
}.

Definition init : state :=
  {| class_mapping := ∅; discovered_classes := ∅; validation_stats := ∅ |}.

Definition append_discovery (class_idx : string) (info : discovery)
    (d : gmap string (list discovery)) : gmap string (list discovery) :=
  <[class_idx := default [] (d !! class_idx) ++ [info]]> d.

(** Body of the loop of [discover_class_mappings_hybrid]. *)
Definition discover_step (expected : string)
    (st : state) (ip : nat * prediction) : state :=
  let '(i, pred) := ip in
  let confidence := confidence_percent pred in
  let class_idx := class_idx pred in
  match class_mapping st !! class_idx with
  | Some _ => st                                   (* already mapped *)
  | None =>
      if Qltb 70.0 confidence then
        {| class_mapping :=
             <[class_idx := Text.lower expected]> (class_mapping st);
           discovered_classes := discovered_classes st;
           validation_stats :=
             <[class_idx :=
                 {| vocab_term := expected;
                    evidence_count := 1;
                    avg_confidence := confidence;
                    consistency_ratio := 1.0;
                    high_confidence_ratio := None;
                    quality_score := confidence;
                    s_mapping_type := immediate_high_confidence |}]>
             (validation_stats st) |}
      else if Qltb 50.0 confidence then
        {| class_mapping := class_mapping st;
           discovered_classes :=
             append_discovery class_idx
               {| expected_vocab := expected;
                  d_confidence := confidence;
                  d_rank := i + 1;
                  d_mapping_type := single_evidence_validated |}
               (discovered_classes st);
           validation_stats := validation_stats st |}
      else if Qltb 30.0 confidence then
        {| class_mapping := class_mapping st;
           discovered_classes :=
             append_discovery class_idx
               {| expected_vocab := expected;
                  d_confidence := confidence;
                  d_rank := i + 1;
                  d_mapping_type := multiple_evidence_required |}
               (discovered_classes st);
           validation_stats := validation_stats st |}
      else st
  end.

Definition discover_class_mappings_hybrid (st : state)
    (predictions : list prediction) (expected_vocab : option string) : state :=
  match Text.truthy expected_vocab with
  | None => st
  | Some expected =>
      fold_left (discover_step expected) (enumerate (take 3 predictions)) st
  end.

Definition vocab_counts (discoveries : list discovery) : Counter.t :=
  fold_left (fun c d => Counter.incr (expected_vocab d) c) discoveries [].

Definition total_confidence (discoveries : list discovery) : Q :=
  fold_left (fun s d => s + d_confidence d) discoveries 0.

Definition high_confidence_count (discoveries : list discovery) : nat :=
  fold_left (fun n d => if Qltb 50.0 (d_confidence d) then S n else n)
            discoveries 0%nat.

(** The quality metrics, named as in the source; [most_common_vocab] and
    [occurrence_count] are the components of
    [vocab_counts.most_common(1)[0]]. *)
Definition most_common (discoveries : list discovery) : option (string * nat) :=
  Counter.most_common1 (vocab_counts discoveries).

Definition most_common_vocab (discoveries : list discovery) : string :=
  default EmptyString (fst <$> most_common discoveries).

Definition occurrence_count (discoveries : list discovery) : nat :=
  default 0%nat (snd <$> most_common discoveries).

Definition avg_confidence_of (discoveries : list discovery) : Q :=
  total_confidence discoveries / of_int (length discoveries).

Definition consistency_ratio_of (discoveries : list discovery) : Q :=
  of_int (occurrence_count discoveries) / of_int (length discoveries).

Definition high_confidence_ratio_of (discoveries : list discovery) : Q :=
  of_int (high_confidence_count discoveries) / of_int (length discoveries).

(** The rank-1 ratio of a list of observations: the fraction recorded at
    rank 1. The hybrid rebuild does not compute it; it is defined here to
    state the quality formula that uses it. *)
Definition rank_1_ratio_of (discoveries : list discovery) : Q :=
  of_int (length (filter (λ d, d_rank d = 1%nat) discoveries))
  / of_int (length discoveries).

(** The [if]/[elif]/[else] that sets [validation_passed] and
    [mapping_type]: [Some mapping_type] when validation passed. *)
Definition verdict (discoveries : list discovery) : option mapping_type :=
  if (length discoveries =? 1)%nat && Qltb 50.0 (avg_confidence_of discoveries)
  then Some single_high_confidence
  else if (2 <=? length discoveries)%nat then
    if Qltb 35.0 (avg_confidence_of discoveries) &&
       Qltb 0.6 (consistency_ratio_of discoveries) &&
       (2 <=? occurrence_count discoveries)%nat
    then Some multiple_evidence_validated
    else None
  else None.

(** Outcome of the loop body of [build_class_mapping_hybrid] for a class
    that is not yet in [class_mapping]: [None] when the class is skipped
    or rejected, otherwise the value written to [new_mappings] and the
    entry of [validation_stats]. *)
Definition validate (discoveries : list discovery) : option (string * stats) :=
  match discoveries with
  | [] => None                                       (* if not discoveries *)
  | _ :: _ =>
      match most_common discoveries with
      | None => None          (* [most_common(1)[0]] on an empty counter *)
      | Some _ =>
          match verdict discoveries with
          | Some mapping_type =>
              let quality_score :=
                avg_confidence_of discoveries * consistency_ratio_of discoveries
                * (1 + high_confidence_ratio_of discoveries) in
              Some (Text.lower (most_common_vocab discoveries),
                    {| vocab_term := most_common_vocab discoveries;
                       evidence_count := length discoveries;
                       avg_confidence := avg_confidence_of discoveries;
                       consistency_ratio := consistency_ratio_of discoveries;
                       high_confidence_ratio :=
                         Some (high_confidence_ratio_of discoveries);
                       quality_score := quality_score;
                       s_mapping_type := mapping_type |})
          | None => None
          end
      end
  end.

(** One iteration of the loop of [build_class_mapping_hybrid]; the mapping
    table read by the guard is the one at the start of the call. *)
Definition build_step (mapping : gmap string string)
    (class_idx : string) (discoveries : list discovery)
    (acc : gmap string string * gmap string stats)
    : gmap string string * gmap string stats :=
  match mapping !! class_idx with
  | Some _ => acc                                  (* already mapped *)
  | None =>
      match validate discoveries with
      | Some (term, entry) =>
          (<[class_idx := term]> (fst acc), <[class_idx := entry]> (snd acc))
      | None => acc
      end
  end.

(** [build_class_mapping_hybrid]: returns [new_mappings] and the state. *)
Definition build_class_mapping_hybrid (st : state)
    : gmap string string * state :=
  let '(new_mappings, stats') :=
    map_fold (build_step (class_mapping st))
             (∅, validation_stats st) (discovered_classes st) in
  (new_mappings,
   {| class_mapping := new_mappings ∪ class_mapping st;
      discovered_classes := discovered_classes st;
      validation_stats := stats' |}).

Inductive op :=
| Discover (predictions : list prediction) (expected_vocab : option string)
| Build.

Definition step (st : state) (o : op) : state :=
  match o with
  | Discover predictions expected =>
      discover_class_mappings_hybrid st predictions expected
  | Build => snd (build_class_mapping_hybrid st)
  end.

Definition run (ops : list op) : state := fold_left step ops init.

End Hybrid.

(** ** The 2x2 grid of an image *)

Module Grid.

(** A PIL crop box [(left, upper, right, lower)]. *)
Definition box := (Z * Z * Z * Z)%type.

(** The boxes passed to [image.crop], in the order of the [grid_cells]
    dict; [//] is floor division. *)
Definition grid_boxes (width height : Z) : list (string * box) :=
  [ ("top_left",     (0, 0, width / 2, height / 2));
    ("top_right",    (width / 2, 0, width, height / 2));
    ("bottom_left",  (0, height / 2, width / 2, height));
    ("bottom_right", (width / 2, height / 2, width, height)) ]%Z.

(** Pixel [(x, y)] lies in the crop box: left and upper edges included,
    right and lower edges excluded. *)
Definition in_box (b : box) (x y : Z) : bool :=
  let '(x0, y0, x1, y1) := b in
  ((x0 <=? x) && (x <? x1) && (y0 <=? y) && (y <? y1))%Z.

Definition in_image (width height x y : Z) : bool :=
  in_box (0, 0, width, height)%Z x y.

(** The cells of the grid that contain a pixel. *)
Definition cells_at (width height x y : Z) : list string :=
  map fst (filter (fun nb => in_box (snd nb) x y = true)
                  (grid_boxes width height)).

Definition box_width (b : box) : Z :=
  let '(x0, _, x1, _) := b in (x1 - x0)%Z.

Definition box_height (b : box) : Z :=
  let '(_, y0, _, y1) := b in (y1 - y0)%Z.

End Grid.

(** ** What the image loops of the two analyzers share *)

Module Batch.

(** [expected_vocab and vocab_term.lower() == expected_vocab.lower()], the
    test that sets [image_has_correct_detection] (the same expression in
    [analyze_image_hybrid] and in [run_balanced_test]). *)
Definition is_correct (expected_vocab : option string) (vocab_term : string)
    : bool :=
  match Text.truthy expected_vocab with
  | Some expected => String.eqb (Text.lower vocab_term) (Text.lower expected)
  | None => false
  end.

(** [self.vocab_terms[vocab_index] if vocab_index < len(self.vocab_terms)
    else None], with [vocab_index = i - 4]. The outer [None] is the
    [IndexError] of a negative index below [-len]; a negative index in
    range counts from the end of the list. *)
Definition expected_vocab_at (vocab_terms : list string) (i : Z)
    : option (option string) :=
  let vocab_index := (i - 4)%Z in
  let len := Z.of_nat (length vocab_terms) in
  if (vocab_index <? len)%Z then
    if (0 <=? vocab_index)%Z then Some (vocab_terms !! Z.to_nat vocab_index)
    else if (- len <=? vocab_index)%Z
         then Some (vocab_terms !! Z.to_nat (len + vocab_index))
         else None
  else Some None.

(** [range(start_id, end_id + 1)] *)
Definition id_range (start_id end_id : Z) : list Z :=
  map (fun k => (start_id + Z.of_nat k)%Z)
      (seq 0 (Z.to_nat (end_id + 1 - start_id))).

End Batch.

(** ** Matching and the image loop of the hybrid analyzer *)

Module HybridRun.
Import Hybrid Batch.

Record vocab_match := {
  m_vocab_term : string;
  m_prediction : prediction;
  m_similarity : Q;
  m_quality_score : Q;
  m_class_idx : string;
  m_mapping_type : option mapping_type      (* [None] is ['unknown'] *)
}.

(** [key(a) < key(b)] for the sort key [(-similarity, -quality_score)],
    compared as tuples. *)
Definition key_lt (a b : vocab_match) : bool :=
  if Qeq_bool (- m_similarity a) (- m_similarity b)
  then Qltb (- m_quality_score a) (- m_quality_score b)
  else Qltb (- m_similarity a) (- m_similarity b).

(** [list.sort(key=...)]: a stable sort, here by insertion. *)
Fixpoint insert_by (x : vocab_match) (l : list vocab_match) : list vocab_match :=
  match l with
  | [] => [x]
  | y :: r => if key_lt y x then y :: insert_by x r else x :: y :: r
  end.

Definition sort_matches (l : list vocab_match) : list vocab_match :=
  foldr insert_by [] l.

Definition match_of (st : state) (pred : prediction) : option vocab_match :=
  match class_mapping st !! class_idx pred with
  | Some vocab_term =>
      Some {| m_vocab_term := vocab_term;
              m_prediction := pred;
              m_similarity := confidence pred;
              m_quality_score :=
                default 0 (quality_score <$> validation_stats st !! class_idx pred);
              m_class_idx := class_idx pred;
              m_mapping_type :=
                s_mapping_type <$> validation_stats st !! class_idx pred |}
  | None => None
  end.

Definition match_vocabulary_terms_hybrid (st : state)
    (predictions : list prediction) : list vocab_match :=
  sort_matches (omap (match_of st) (take 10 predictions)).

Record cell_result := {
  c_predictions : list prediction;
  c_vocab_matches : list vocab_match;
  c_top_vocab_match : option vocab_match;
  c_expected_vocab : option string
}.

(** A result dict: the success shape and the failure shape. The
    ['screenshot_id'] is kept as the number [i] it is formatted from. *)
Inductive image_result :=
| Success (screenshot_id : Z) (expected_vocab : option string)
          (grid_results : list (string * cell_result))
          (has_correct_detection has_any_detection : bool)
| Failure (screenshot_id : Z) (error : string).

(** The analyzer object. *)
Record analyzer := {
  mapping : state;
  detection_frequency : Counter.t;
  total_cells_analyzed : nat;
  results : list image_result
}.

Section Run.

(** External collaborators: the image source and the classifier. *)
Variable image : Type.
(** [requests.get], [Image.open], [convert]: the image of a screenshot
    id, or [str(e)] of the exception raised. *)
Variable download : Z → string + image.
Variable size : image → Z * Z.
Variable crop : image → Grid.box → image.
(** [predict_image] followed by [get_top_predictions(top_k=20)]. The
    classifier is taken to be total: an exception raised while a cell is
    classified is not modelled. *)
Variable predict : image → list prediction.

(** Accumulator of the loop over the four cells. *)
Record cells_acc := {
  a_self : analyzer;
  a_grid_results : list (string * cell_result);
  a_correct : bool;
  a_any : bool
}.

Definition cell_step (expected_vocab : option string) (acc : cells_acc)
    (cell : string * image) : cells_acc :=
  let '(position, cell_image) := cell in
  let self := a_self acc in
  let predictions := predict cell_image in
  let st := discover_class_mappings_hybrid (mapping self) predictions
                                           expected_vocab in
  let vocab_matches := match_vocabulary_terms_hybrid st predictions in
  {| a_self :=
       {| mapping := st;
          detection_frequency :=
            fold_left (fun c m => Counter.incr (m_vocab_term m) c)
                      vocab_matches (detection_frequency self);
          total_cells_analyzed := total_cells_analyzed self + 1;
          results := results self |};
     a_grid_results :=
       a_grid_results acc ++
       [(position,
         {| c_predictions := take 5 predictions;
            c_vocab_matches := vocab_matches;
            c_top_vocab_match := head vocab_matches;
            c_expected_vocab := expected_vocab |})];
     a_correct :=
       a_correct acc
         || existsb (fun m => is_correct expected_vocab (m_vocab_term m))
                    vocab_matches;
     a_any :=
       a_any acc || negb (bool_decide (vocab_matches = [])) |}.

(** [analyze_image_hybrid]: the result dict and the analyzer after it. *)
Definition analyze_image_hybrid (self : analyzer) (screenshot_id : Z)
    (expected_vocab : option string) : image_result * analyzer :=
  match download screenshot_id with
  | inl error => (Failure screenshot_id error, self)
  | inr full_image =>
      let '(width, height) := size full_image in
      let grid_cells :=
        map (fun nb => (fst nb, crop full_image (snd nb)))
            (Grid.grid_boxes width height) in
      let acc :=
        fold_left (cell_step expected_vocab) grid_cells
                  {| a_self := self; a_grid_results := [];
                     a_correct := false; a_any := false |} in
      (Success screenshot_id expected_vocab (a_grid_results acc)
               (a_correct acc) (a_any acc),
       a_self acc)
  end.

(** Body of the loop of [run_hybrid_analysis]; [None] is the uncaught
    [IndexError]. *)
Definition run_step (vocab_terms : list string) (self : option analyzer)
    (i : Z) : option analyzer :=
  match self with
  | None => None
  | Some self =>
      match expected_vocab_at vocab_terms i with
      | None => None
      | Some expected_vocab =>
          let '(result, self1) :=
            analyze_image_hybrid self i expected_vocab in
          let self2 :=
            {| mapping := mapping self1;
               detection_frequency := detection_frequency self1;
               total_cells_analyzed := total_cells_analyzed self1;
               results := results self1 ++ [result] |} in
          Some {| mapping := snd (build_class_mapping_hybrid (mapping self2));
                  detection_frequency := detection_frequency self2;
                  total_cells_analyzed := total_cells_analyzed self2;
                  results := results self2 |}
      end
  end.

Definition new_analyzer : analyzer :=
  {| mapping := init; detection_frequency := [];
     total_cells_analyzed := 0; results := [] |}.

(** [run_hybrid_analysis], up to the final rebuild; the value returned
    is [results] of the analyzer. *)
Definition run_hybrid_analysis (vocab_terms : list string)
    (self : analyzer) (start_id end_id : Z) : option analyzer :=
  match fold_left (run_step vocab_terms) (id_range start_id end_id)
                  (Some self) with
  | None => None
  | Some self' =>
      Some {| mapping := snd (build_class_mapping_hybrid (mapping self'));
              detection_frequency := detection_frequency self';
              total_cells_analyzed := total_cells_analyzed self';
              results := results self' |}
  end.

End Run.

End HybridRun.


(** ** Matching and the image loop of the balanced analyzer *)

Module BalancedRun.
Import Balanced Batch.

Record vocab_match := {
  m_vocab_term : string;
  m_prediction : prediction;
  m_similarity : Q;
  m_quality_score : Q;
  m_class_idx : string
}.

(** [key(a) < key(b)] for the sort key [(-similarity, -quality_score)]. *)
Definition key_lt (a b : vocab_match) : bool :=
  if Qeq_bool (- m_similarity a) (- m_similarity b)
  then Qltb (- m_quality_score a) (- m_quality_score b)
  else Qltb (- m_similarity a) (- m_similarity b).

Fixpoint insert_by (x : vocab_match) (l : list vocab_match) : list vocab_match :=
  match l with
  | [] => [x]
  | y :: r => if key_lt y x then y :: insert_by x r else x :: y :: r
  end.

Definition sort_matches (l : list vocab_match) : list vocab_match :=
  foldr insert_by [] l.

Definition match_of (st : state) (pred : prediction) : option vocab_match :=
  match class_mapping st !! class_idx pred with
  | Some vocab_term =>
      Some {| m_vocab_term := vocab_term;
              m_prediction := pred;
              m_similarity := confidence pred;
              m_quality_score :=
                default 0 (quality_score <$> validation_stats st !! class_idx pred);
              m_class_idx := class_idx pred |}
  | None => None
  end.

Definition match_vocabulary_terms_balanced (st : state)
    (predictions : list prediction) : list vocab_match :=
  sort_matches (omap (match_of st) (take 15 predictions)).

Record cell_result := {
  c_position : string;
  c_predictions : list prediction;
  c_vocab_matches : list vocab_match;
  c_top_vocab_match : option vocab_match;
  c_expected_vocab : option string
}.

Inductive image_result :=
| Success (screenshot_id : Z) (expected_vocab : option string)
          (grid_results : list (string * cell_result))
          (has_correct_detection has_any_detection : bool)
| Failure (screenshot_id : Z) (error : string).

(** The analyzer and the local variables of [run_balanced_test]. *)
Record run_state := {
  self : state;
  results : list image_result;
  vocab_frequency : Counter.t;
  correct_detections : nat;
  total_expected : nat;
  images_with_detections : nat
}.

Section Run.

(** External collaborators, as for the hybrid analyzer. *)
Variable image : Type.
Variable download : Z → string + image.
Variable size : image → Z * Z.
Variable crop : image → Grid.box → image.
Variable predict : image → list prediction.

(** [analyze_grid_cell_balanced], when the classifier does not raise. *)
Definition analyze_grid_cell_balanced (st : state) (cell_image : image)
    (position : string) (expected_vocab : option string) : cell_result * state :=
  let predictions := predict cell_image in
  let st' := discover_class_mappings_balanced st predictions expected_vocab in
  let vocab_matches := match_vocabulary_terms_balanced st' predictions in
  ({| c_position := position;
      c_predictions := take 5 predictions;
      c_vocab_matches := vocab_matches;
      c_top_vocab_match := head vocab_matches;
      c_expected_vocab := expected_vocab |},
   st').

(** Accumulator of the loop over the four cells. *)
Record cells_acc := {
  a_self : state;
  a_vocab_frequency : Counter.t;
  a_grid_results : list (string * cell_result);
  a_correct : bool;
  a_any : bool
}.

Definition cell_step (expected_vocab : option string) (acc : cells_acc)
    (cell : string * image) : cells_acc :=
  let '(position, cell_image) := cell in
  let '(cell_result, st) :=
    analyze_grid_cell_balanced (a_self acc) cell_image position expected_vocab in
  let vocab_matches := c_vocab_matches cell_result in
  {| a_self := st;
     a_vocab_frequency :=
       fold_left (fun c m => Counter.incr (m_vocab_term m) c)
                 vocab_matches (a_vocab_frequency acc);
     a_grid_results := a_grid_results acc ++ [(position, cell_result)];
     a_correct :=
       a_correct acc
       || existsb (fun m => is_correct expected_vocab (m_vocab_term m))
                  vocab_matches;
     a_any := a_any acc || negb (bool_decide (vocab_matches = [])) |}.

(** Body of the loop of [run_balanced_test]; [None] is the uncaught
    [IndexError] of the vocabulary lookup. *)
Definition run_step (vocab_terms : list string) (rs : option run_state)
    (i : Z) : option run_state :=
  match rs with
  | None => None
  | Some rs =>
      match expected_vocab_at vocab_terms i with
      | None => None
      | Some expected_vocab =>
          let rs1 :=
            match download i with
            | inl error =>
                {| self := self rs;
                   results := results rs ++ [Failure i error];
                   vocab_frequency := vocab_frequency rs;
                   correct_detections := correct_detections rs;
                   total_expected := total_expected rs;
                   images_with_detections := images_with_detections rs |}
            | inr full_image =>
                let '(width, height) := size full_image in
                let grid_cells :=
                  map (fun nb => (fst nb, crop full_image (snd nb)))
                      (Grid.grid_boxes width height) in
                let acc :=
                  fold_left (cell_step expected_vocab) grid_cells
                            {| a_self := self rs;
                               a_vocab_frequency := vocab_frequency rs;
                               a_grid_results := [];
                               a_correct := false; a_any := false |} in
                {| self := a_self acc;
                   results :=
                     results rs ++
                     [Success i expected_vocab (a_grid_results acc)
                              (a_correct acc) (a_any acc)];
                   vocab_frequency := a_vocab_frequency acc;
                   correct_detections :=
                     if a_correct acc then correct_detections rs + 1
                     else correct_detections rs;
                   total_expected :=
                     match Text.truthy expected_vocab with
                     | Some _ => total_expected rs + 1
                     | None => total_expected rs
                     end;
                   images_with_detections :=
                     if a_any acc then images_with_detections rs + 1
                     else images_with_detections rs |}
            end in
          (* build mappings every 4 images *)
          Some (if (i mod 4 =? 0)%Z
                then {| self := snd (build_class_mapping_balanced (self rs1));
                        results := results rs1;
                        vocab_frequency := vocab_frequency rs1;
                        correct_detections := correct_detections rs1;
                        total_expected := total_expected rs1;
                        images_with_detections := images_with_detections rs1 |}
                else rs1)
      end
  end.

Definition new_run : run_state :=
  {| self := init; results := []; vocab_frequency := [];
     correct_detections := 0; total_expected := 0;
     images_with_detections := 0 |}.

(** [run_balanced_test], up to the final rebuild. *)
Definition run_balanced_test (vocab_terms : list string) (rs : run_state)
    (start_id end_id : Z) : option run_state :=
  match fold_left (run_step vocab_terms)
                  (id_range start_id end_id) (Some rs) with
  | None => None
  | Some rs' =>
      Some {| self := snd (build_class_mapping_balanced (self rs'));
              results := results rs';
              vocab_frequency := vocab_frequency rs';
              correct_detections := correct_detections rs';
              total_expected := total_expected rs';
              images_with_detections := images_with_detections rs' |}
  end.

End Run.

End BalancedRun.

(** ** The string-label matcher ([scripts/python_efficientnet_classifier.py]) *)

Module StringMatch.

(** [needle in hay] on strings. *)
Fixpoint contains (needle hay : string) : bool :=
  String.prefix needle hay ||
  match hay with
  | EmptyString => false
  | String _ r => contains needle r
  end.

(** ASCII white space, as [str.split()] sees it. *)
Definition is_space (c : ascii) : bool :=
  let n := nat_of_ascii c in
  ((9 <=? n) && (n <=? 13) || (28 <=? n) && (n <=? 32))%nat.

(** [s.split()]: maximal runs of non-space characters; [cur] is the word
    being read. *)
Fixpoint split_from (cur : string) (s : string) : list string :=
  match s with
  | EmptyString => if String.eqb cur "" then [] else [cur]
  | String c r =>
      if is_space c then
        if String.eqb cur "" then split_from "" r else cur :: split_from "" r
      else split_from (cur ++ String c "") r
  end.

Definition split (s : string) : list string := split_from "" s.

(** [word in words] on a list of strings. *)
Definition mem (word : string) (words : list string) : bool :=
  existsb (String.eqb word) words.

(** The prediction dicts of [_classify_image]. *)
Record prediction := {
  class_name : string;
  confidence : Q;
  rank : nat
}.

Inductive match_type := exact | partial | similarity.

Record vocab_match := {
  m_prediction : prediction;
  vocab_term : string;
  match_score : Q;
  m_match_type : match_type
}.

Section Matcher.

(** [difflib.SequenceMatcher(None, a, b).ratio()], from the Python
    standard library. *)
Variable sequence_matcher_ratio : string → string → Q.

Variable vocab_list : list string.

Definition _similarity_score (text1 text2 : string) : Q :=
  sequence_matcher_ratio (Text.lower text1) (Text.lower text2).

(** The score of one vocabulary term against a lowercased class name: the
    [if]/[elif] cascade of [_find_vocab_matches]. *)
Definition term_score (class_name vocab_term : string) : Q :=
  let vocab_lower := Text.lower vocab_term in
  if String.eqb vocab_lower class_name then 1.0
  else if contains vocab_lower class_name || contains class_name vocab_lower
  then 0.8
  else if existsb (fun word => mem word (split class_name)) (split vocab_lower)
          || existsb (fun word => mem word (split vocab_lower)) (split class_name)
  then 0.6
  else _similarity_score class_name vocab_lower.

(** One iteration of the loop over [self.vocab_list], on the pair
    ([best_match], [best_score]). *)
Definition best_step (class_name : string) (threshold : Q)
    (best : option string * Q) (vocab_term : string) : option string * Q :=
  let score := term_score class_name vocab_term in
  if Qltb (snd best) score && Qle_bool threshold score
  then (Some vocab_term, score)
  else best.

Definition best_of (class_name : string) (threshold : Q) : option string * Q :=
  fold_left (best_step class_name threshold) vocab_list (None, 0).

(** Invariant of that loop after the terms [seen]: [best_match] is the
    first term of maximal score among those whose score is positive and
    meets the threshold, if there is one. *)
Definition best_so_far (class_name : string) (threshold : Q)
    (seen : list string) (best : option string * Q) : Prop :=
  (fst best = None →
     snd best = 0 ∧
     ∀ v, v ∈ seen →
          ¬ (0 < term_score class_name v ∧ threshold <= term_score class_name v)) ∧
  (∀ b, fst best = Some b →
     b ∈ seen ∧ snd best = term_score class_name b ∧
     0 < snd best ∧ threshold <= snd best ∧
     (∀ v, v ∈ seen → threshold <= term_score class_name v →
           term_score class_name v <= snd best) ∧
     ∃ before after,
       seen = before ++ b :: after ∧
       ∀ v, v ∈ before → threshold <= term_score class_name v →
            term_score class_name v < snd best).

Definition match_type_of (best_score : Q) : match_type :=
  if Qeq_bool best_score 1.0 then exact
  else if Qle_bool 0.8 best_score then partial
  else similarity.

(** Body of the loop over [predictions]: the match appended, if any. *)
Definition match_of (threshold : Q) (pred : prediction) : option vocab_match :=
  let class_name := Text.lower (class_name pred) in
  match best_of class_name threshold with
  | (Some best_match, best_score) =>
      if String.eqb best_match "" then None            (* if best_match: *)
      else Some {| m_prediction := pred;
                   vocab_term := best_match;
                   match_score := best_score;
                   m_match_type := match_type_of best_score |}
  | (None, _) => None
  end.

Definition _find_vocab_matches (predictions : list prediction) (threshold : Q)
    : list vocab_match :=
  fold_left (fun matches pred =>
               match match_of threshold pred with
               | Some m => matches ++ [m]
               | None => matches
               end)
            predictions [].

End Matcher.

(** A list of scores in descending order. *)
Fixpoint descending (l : list Q) : bool :=
  match l with
  | x :: ((y :: _) as r) => Qle_bool y x && descending r
  | _ => true
  end.

End StringMatch.

(** ** Loading the vocabulary *)

Module Vocabulary.
Import StringMatch.

(** [s.lstrip()], [s.rstrip()] and [s.strip()] for an ASCII string [s]:
    the white space of ASCII is removed. *)
Fixpoint lstrip (s : string) : string :=
  match s with
  | EmptyString => EmptyString
  | String c r => if is_space c then lstrip r else s
  end.

Fixpoint rstrip (s : string) : string :=
  match s with
  | EmptyString => EmptyString
  | String c r =>
      let r' := rstrip r in
      if is_space c && String.eqb r' "" then EmptyString else String c r'
  end.

Definition strip (s : string) : string := rstrip (lstrip s).

Section Load.

(** What [str.strip] returns for a line that has a character outside
    ASCII, where the white space it removes is that of Python's Unicode
    tables (a no-break space, for one). *)
Variable strip_unicode : string → string.

(** [line.strip()] *)
Definition str_strip (line : string) : string :=
  if Text.is_ascii line then strip line else strip_unicode line.

(** [[line.strip() for line in f if line.strip()]], as in
    [_load_vocabulary] and in the constructors of the two analyzers. The
    file is given by its lines as decoded; [None] is the
    [FileNotFoundError], which leaves an empty vocabulary (any other error
    of opening or reading the file is not caught by the source and is not
    modelled). *)
Definition _load_vocabulary (vocab_file : option (list string)) : list string :=
  match vocab_file with
  | Some lines =>
      omap (fun line =>
              if String.eqb (str_strip line) "" then None
              else Some (str_strip line))
           lines
  | None => []
  end.

End Load.

End Vocabulary.

(** ** Performance figures of the string-label classifier *)

Module Performance.
Import StringMatch.

(** An entry of [results['grid_cells']]. *)
Record cell_entry := {
  position : string;
  predictions : list prediction;
  vocab_matches : list vocab_match
}.

(** The [results] dict of [classify_image]: [full_image] is given by its
    two keys, [grid_cells] and [best_match] are [None] without grid
    analysis, and [expected_vocab] is [None] when the key was not set. *)
Record result_dict := {
  image_path : string;
  image_size : Z * Z;
  full_image_predictions : list prediction;
  full_image_vocab_matches : list vocab_match;
  grid_cells : option (list cell_entry);
  best_match : option (string * vocab_match);
  expected_vocab : option string
}.

(** The dicts that [classify_image] returns: the result shape and the
    error shape. *)
Inductive classify_result :=
| Classified (d : result_dict)
| Errored (image_path : string) (error : string).

Record term_performance := {
  total : nat;
  found : nat;
  t_accuracy : Q
}.

Record stats := {
  total_images : nat;
  images_with_expected_vocab : nat;
  correct_matches : nat;
  partial_matches : nat;
  no_matches : nat;
  accuracy : Q;
  vocab_term_performance : gmap string term_performance
}.

(** [max(best_score, match_score)] of two numbers: the first unless the
    second is larger. *)
Definition max2 (a b : Q) : Q := if Qltb a b then b else a.

(** One loop over a list of matches, on the pair ([found_match],
    [best_score]). *)
Definition scan (expected_vocab : string) (acc : bool * Q)
    (matches : list vocab_match) : bool * Q :=
  fold_left (fun acc m =>
               if String.eqb (Text.lower (vocab_term m)) (Text.lower expected_vocab)
               then (true, max2 (snd acc) (match_score m))
               else acc)
            matches acc.

(** [found_match] and [best_score] of one result. *)
Definition found_and_best (expected_vocab : string)
    (full_image_vocab_matches : list vocab_match)
    (grid_cells : option (list cell_entry)) : bool * Q :=
  let acc :=
    match full_image_vocab_matches with
    | [] => (false, 0)
    | _ :: _ => scan expected_vocab (false, 0) full_image_vocab_matches
    end in
  match grid_cells with
  | Some ((_ :: _) as cells) =>
      fold_left (fun acc cell => scan expected_vocab acc (vocab_matches cell))
                cells acc
  | _ => acc
  end.

(** Body of the loop over [results]. *)
Definition result_step (st : stats) (result : classify_result) : stats :=
  match result with
  | Errored _ _ => st
  | Classified d =>
      match Text.truthy (expected_vocab d) with
      | None => st
      | Some expected_vocab =>
          let '(found_match, best_score) :=
            found_and_best expected_vocab (full_image_vocab_matches d)
                           (grid_cells d) in
          let performance :=
            match vocab_term_performance st !! expected_vocab with
            | Some _ => vocab_term_performance st
            | None =>
                <[expected_vocab := {| total := 0; found := 0; t_accuracy := 0.0 |}]>
                  (vocab_term_performance st)
            end in
          let performance :=
            alter (fun t => {| total := total t + 1; found := found t;
                               t_accuracy := t_accuracy t |})
                  expected_vocab performance in
          let performance :=
            if found_match
            then alter (fun t => {| total := total t; found := found t + 1;
                                    t_accuracy := t_accuracy t |})
                       expected_vocab performance
            else performance in
          {| total_images := total_images st;
             images_with_expected_vocab := images_with_expected_vocab st + 1;
             correct_matches :=
               if found_match && Qeq_bool best_score 1.0
               then correct_matches st + 1 else correct_matches st;
             partial_matches :=
               if found_match && negb (Qeq_bool best_score 1.0)
               then partial_matches st + 1 else partial_matches st;
             no_matches :=
               if found_match then no_matches st else no_matches st + 1;
             accuracy := accuracy st;
             vocab_term_performance := performance |}
      end
  end.

Definition new_stats (results : list classify_result) : stats :=
  {| total_images := length results;
     images_with_expected_vocab := 0;
     correct_matches := 0;
     partial_matches := 0;
     no_matches := 0;
     accuracy := 0.0;
     vocab_term_performance := ∅ |}.

Definition analyze_vocab_performance (results : list classify_result) : stats :=
  let st := fold_left result_step results (new_stats results) in
  {| total_images := total_images st;
     images_with_expected_vocab := images_with_expected_vocab st;
     correct_matches := correct_matches st;
     partial_matches := partial_matches st;
     no_matches := no_matches st;
     accuracy :=
       if (0 <? images_with_expected_vocab st)%nat
       then of_int (correct_matches st + partial_matches st)
            / of_int (images_with_expected_vocab st)
       else accuracy st;
     vocab_term_performance :=
       (fun t => if (0 <? total t)%nat
                 then {| total := total t; found := found t;
                         t_accuracy := of_int (found t) / of_int (total t) |}
                 else t) <$> vocab_term_performance st |}.

(** The result carries a truthy expected term. *)
Definition has_expected (result : classify_result) : bool :=
  match result with
  | Classified d =>
      match Text.truthy (expected_vocab d) with
      | Some _ => true
      | None => false
      end
  | Errored _ _ => false
  end.

(** All the matches of a result: those of the full image, then those of
    the grid cells. *)
Definition all_matches (result : classify_result) : list vocab_match :=
  match result with
  | Classified d =>
      full_image_vocab_matches d
      ++ concat (map vocab_matches (default [] (grid_cells d)))
  | Errored _ _ => []
  end.

(** Invariant of the loop of [analyze_vocab_performance]. *)
Definition figures_ok (st : stats) : Prop :=
  (correct_matches st + partial_matches st + no_matches st
   = images_with_expected_vocab st)%nat ∧
  ∀ term t, vocab_term_performance st !! term = Some t →
            term ≠ EmptyString ∧
            (1 ≤ total t ≤ images_with_expected_vocab st)%nat ∧
            (found t ≤ total t)%nat.

End Performance.

(** ** [classify_image] of the string-label classifier *)

Module Classifier.
Import StringMatch Performance.

(** [c.isdigit()] for an ASCII character: the digits 0 to 9. *)
Definition is_digit (c : ascii) : bool :=
  let n := nat_of_ascii c in ((48 <=? n) && (n <=? 57))%nat.

(** [s.isdigit()] for an ASCII string: not empty, digits only. *)
Definition isdigit (s : string) : bool :=
  negb (String.eqb s "") && forallb is_digit (list_ascii_of_string s).

(** [int(s)] for a string of ASCII digits: the number they denote. The
    interpreter's limit on the length of a digit string
    ([sys.set_int_max_str_digits]) is not modelled. *)
Definition int (s : string) : nat :=
  fold_left (fun n c => (10 * n + (nat_of_ascii c - 48))%nat)
            (list_ascii_of_string s) 0%nat.

(** [s[n:]] *)
Fixpoint slice_from (n : nat) (s : string) : string :=
  match n, s with
  | O, _ => s
  | S n', String _ r => slice_from n' r
  | S _, EmptyString => EmptyString
  end.

(** [max(all_matches, key=lambda x: x['match']['match_score'])] on a
    non-empty list: the first item of maximal score. *)
Definition max_by_score (first : string * vocab_match)
    (rest : list (string * vocab_match)) : string * vocab_match :=
  fold_left (fun best x =>
               if Qltb (match_score (snd best)) (match_score (snd x))
               then x else best)
            rest first.

Definition position_names : list string :=
  ["top-left"; "top-right"; "bottom-left"; "bottom-right"]%string.

Section Classify.

Variable sequence_matcher_ratio : string → string → Q.
Variable vocab_list : list string.

(** External collaborators: [Image.open(...).convert('RGB')] on a path or
    URL (or [str(e)] of the exception raised), the image operations, the
    model behind [_classify_image] (taken to be total) and
    [Path(image_path).stem]. *)
Variable image : Type.
Variable open_image : string → string + image.
Variable size : image → Z * Z.
Variable crop : image → Grid.box → image.
Variable _classify_image : image → nat → list prediction.
Variable stem : string → string.

(** What [str.isdigit] answers and what [int] does for a string that has a
    character outside ASCII, by Python's Unicode tables: [isdigit] also
    accepts superscript digits and the digits of other scripts, and [int]
    raises [ValueError] on some of them ([inl] is [str(e)]). *)
Variable isdigit_unicode : string → bool.
Variable int_unicode : string → string + nat.

(** [s.isdigit()] *)
Definition str_isdigit (s : string) : bool :=
  if Text.is_ascii s then isdigit s else isdigit_unicode s.

(** [int(s)], for a string [s] that passed [s.isdigit()]. *)
Definition str_int (s : string) : string + nat :=
  if Text.is_ascii s then inr (int s) else int_unicode s.

Definition _extract_grid_cells (im : image) : list image :=
  let '(width, height) := size im in
  let cell_width := (width / 2)%Z in
  let cell_height := (height / 2)%Z in
  let positions :=
    [ (0, 0, cell_width, cell_height);
      (cell_width, 0, width, cell_height);
      (0, cell_height, cell_width, height);
      (cell_width, cell_height, width, height) ]%Z in
  map (fun pos => crop im pos) positions.

(** The entry of [cell_results] for cell [i]. *)
Definition cell_result (top_k : nat) (ic : nat * image) : cell_entry :=
  let '(i, cell) := ic in
  let cell_predictions := _classify_image cell top_k in
  let cell_vocab_matches :=
    _find_vocab_matches sequence_matcher_ratio vocab_list cell_predictions 0.3 in
  {| position := default EmptyString (position_names !! i);
     predictions := cell_predictions;
     vocab_matches := cell_vocab_matches |}.

(** The expected term read off the file name [vocab-<digits>]: [inr None]
    when the key ['expected_vocab'] is not set, [inl] with [str(e)] when
    [int] raises. *)
Definition expected_vocab_of (image_path : string) : string + option string :=
  let filename := stem image_path in
  if String.prefix "vocab-" filename && str_isdigit (slice_from 6 filename) then
    match str_int (slice_from 6 filename) with
    | inl error => inl error
    | inr number =>
        let vocab_index := (Z.of_nat number - 1)%Z in
        if ((0 <=? vocab_index)
            && (vocab_index <? Z.of_nat (length vocab_list)))%Z
        then inr (vocab_list !! Z.to_nat vocab_index)
        else inr None
    end
  else inr None.

(** [classify_image]: the whole body is in a [try], and every exception
    gives the error dict; the two that are modelled are the ones of opening
    the image and of [int]. *)
Definition classify_image (image_path : string) (analyze_grid : bool)
    (top_k : nat) : classify_result :=
  match open_image image_path with
  | inl error => Errored image_path error
  | inr im =>
      let predictions := _classify_image im top_k in
      let vocab_matches :=
        _find_vocab_matches sequence_matcher_ratio vocab_list predictions 0.3 in
      let '(grid_cells, best_match) :=
        if analyze_grid then
          let cells := _extract_grid_cells im in
          let cell_results := map (cell_result top_k) (enumerate cells) in
          let all_matches :=
            flat_map (fun cell_result =>
                        map (fun m => (position cell_result, m))
                            (Performance.vocab_matches cell_result))
                     cell_results in
          (Some cell_results,
           match all_matches with
           | [] => None
           | first :: rest => Some (max_by_score first rest)
           end)
        else (None, None) in
      match expected_vocab_of image_path with
      | inl error => Errored image_path error
      | inr expected_vocab =>
          Classified {| image_path := image_path;
                        image_size := size im;
                        full_image_predictions := predictions;
                        full_image_vocab_matches := vocab_matches;
                        grid_cells := grid_cells;
                        best_match := best_match;
                        expected_vocab := expected_vocab |}
      end
  end.

End Classify.

End Classifier.


(** ** Concrete inputs used in examples *)

Module Scenario.

(** [get_top_predictions] on the top of a classifier output given as
    [(idx, probability)] pairs in descending order. *)
Definition predictions_of (top : list (string * Q)) : list prediction :=
  map (fun ip =>
         let '(i, (idx, p)) := ip in
         {| rank := i + 1;
            class_idx := idx;
            class_name := "class_" ++ idx;
            confidence := p;
            confidence_percent := p * 100 |})
      (enumerate top).

(** A cell where class 42 stands out at 82%. *)
Definition acorn_cell : list prediction :=
  predictions_of [("42", 0.82); ("7", 0.10); ("8", 0.02);
                  ("9", 0.02); ("10", 0.02); ("11", 0.01)]%string.

(** A cell where class 42 is seen at 40%, in second place. *)
Definition moderate_cell : list prediction :=
  predictions_of [("5", 0.45); ("42", 0.40); ("8", 0.02);
                  ("9", 0.02); ("10", 0.02); ("11", 0.01)]%string.

(** A cell with low-confidence noise only. *)
Definition noise_cell : list prediction :=
  predictions_of [("42", 0.05); ("7", 0.04); ("8", 0.03);
                  ("9", 0.02); ("10", 0.02); ("11", 0.01)]%string.

(** A cell whose best class sits exactly at [percent]%, with a sixth
    prediction at 1%. *)
Definition cell_at (percent : Q) : list prediction :=
  predictions_of [("42", percent / 100); ("7", 0.01); ("8", 0.01);
                  ("9", 0.01); ("10", 0.01); ("11", 0.01)]%string.

(** The balanced analyzer after two cells that show class 42 at 82% while
    the expected term is "Acorn". *)
Definition balanced_two_acorns : Balanced.state :=
  Balanced.run [Balanced.Discover acorn_cell (Some "Acorn"%string);
                Balanced.Discover acorn_cell (Some "Acorn"%string)].

(** The hybrid analyzer after two cells that show class 42 at 40%, in
    second place, while the expected term is "Aloe". *)
Definition hybrid_two_moderate : Hybrid.state :=
  Hybrid.run [Hybrid.Discover moderate_cell (Some "Aloe"%string);
              Hybrid.Discover moderate_cell (Some "Aloe"%string)].

(** A cell where class 42 is seen at 28%, in second place. *)
Definition second_place_cell : list prediction :=
  predictions_of [("5", 0.45); ("42", 0.28); ("8", 0.02);
                  ("9", 0.02); ("10", 0.02); ("11", 0.01)]%string.

(** Balanced, two observations of class 42 at 22% for "Acorn": only the
    average confidence is too low. *)
Definition balanced_low_average : Balanced.state :=
  Balanced.run [Balanced.Discover (cell_at 22) (Some "Acorn"%string);
                Balanced.Discover (cell_at 22) (Some "Acorn"%string)].

(** Balanced, four observations of class 42 at 82%, two for "Acorn" and two
    for "Aloe": only the consistency is too low. *)
Definition balanced_split_terms : Balanced.state :=
  Balanced.run [Balanced.Discover acorn_cell (Some "Acorn"%string);
                Balanced.Discover acorn_cell (Some "Acorn"%string);
                Balanced.Discover acorn_cell (Some "Aloe"%string);
                Balanced.Discover acorn_cell (Some "Aloe"%string)].

(** Balanced, two observations of class 42 at 28% and rank 2 for "Acorn":
    only the rank-1 / high-confidence test fails. *)
Definition balanced_second_place : Balanced.state :=
  Balanced.run [Balanced.Discover second_place_cell (Some "Acorn"%string);
                Balanced.Discover second_place_cell (Some "Acorn"%string)].



(** Hybrid, two observations of class 42 at 32% for "Aloe": the average
    confidence is too low. *)
Definition hybrid_low_average : Hybrid.state :=
  Hybrid.run [Hybrid.Discover (cell_at 32) (Some "Aloe"%string);
              Hybrid.Discover (cell_at 32) (Some "Aloe"%string)].

(** Hybrid, four observations of class 42 at 40%, two for "Aloe" and two
    for "Acorn": the consistency is too low. *)
Definition hybrid_split_terms : Hybrid.state :=
  Hybrid.run [Hybrid.Discover moderate_cell (Some "Aloe"%string);
              Hybrid.Discover moderate_cell (Some "Aloe"%string);
              Hybrid.Discover moderate_cell (Some "Acorn"%string);
              Hybrid.Discover moderate_cell (Some "Acorn"%string)].

End Scenario.

(** ** Invariants of the runs, used in Part III *)

Module Invariant.

(** Balanced: every mapped class has observations on which validation
    yields its term and its entry of [validation_stats]. *)
Definition balanced_entries (st : Balanced.state) : Prop :=
  ∀ c t, Balanced.class_mapping st !! c = Some t →
    ∃ ds e,
      Balanced.discovered_classes st !! c = Some ds ∧
      Balanced.validate ds = Some (t, e) ∧
      Balanced.validation_stats st !! c = Some e.

(** Hybrid: every mapped class has an entry of [validation_stats], whose
    term lowercased is the mapped term. *)
Definition hybrid_entries (st : Hybrid.state) : Prop :=
  ∀ c t, Hybrid.class_mapping st !! c = Some t →
    ∃ e, Hybrid.validation_stats st !! c = Some e ∧
         t = Text.lower (Hybrid.vocab_term e).

(** Balanced: what every recorded observation satisfies. *)
Definition balanced_observation_ok (d : Balanced.discovery) : Prop :=
  20.0 < Balanced.d_confidence d ∧ 5.0 < Balanced.confidence_gap d ∧
  (1 ≤ Balanced.d_rank d ≤ 5)%nat ∧ Balanced.expected_vocab d ≠ EmptyString.

(** Hybrid: what every recorded observation satisfies. *)
Definition hybrid_observation_ok (d : Hybrid.discovery) : Prop :=
  30.0 < Hybrid.d_confidence d ∧ Hybrid.d_confidence d <= 70.0 ∧
  (1 ≤ Hybrid.d_rank d ≤ 3)%nat ∧ Hybrid.expected_vocab d ≠ EmptyString ∧
  (50.0 < Hybrid.d_confidence d ↔
   Hybrid.d_mapping_type d = Hybrid.single_evidence_validated) ∧
  (Hybrid.d_confidence d <= 50.0 ↔
   Hybrid.d_mapping_type d = Hybrid.multiple_evidence_required).

End Invariant.

(** ** The statistics computed at the end of the two loops *)

Module Report.

(** [r.get('success')], [r.get('has_correct_detection')] and
    [r.get('has_any_detection')] on a result dict of the hybrid loop; a
    failure dict has no detection keys. *)
Definition h_success (r : HybridRun.image_result) : bool :=
  match r with
  | HybridRun.Success _ _ _ _ _ => true
  | HybridRun.Failure _ _ => false
  end.

Definition h_has_correct (r : HybridRun.image_result) : bool :=
  match r with
  | HybridRun.Success _ _ _ correct _ => correct
  | HybridRun.Failure _ _ => false
  end.

Definition h_has_any (r : HybridRun.image_result) : bool :=
  match r with
  | HybridRun.Success _ _ _ _ any => any
  | HybridRun.Failure _ _ => false
  end.

(** The accuracy and the detection rate printed by [run_hybrid_analysis]:
    [correct_detections/len(successful_results)*100] and
    [images_with_detections/len(successful_results)*100]. [None] is the
    [ZeroDivisionError] of an empty [successful_results]. *)
Definition hybrid_statistics (results : list HybridRun.image_result)
    : option (Q * Q) :=
  let successful_results := filter (λ r, h_success r) results in
  let correct_detections :=
    length (filter (λ r, h_has_correct r) successful_results) in
  let images_with_detections :=
    length (filter (λ r, h_has_any r) successful_results) in
  if (length successful_results =? 0)%nat then None
  else Some (of_int correct_detections / of_int (length successful_results) * 100,
             of_int images_with_detections / of_int (length successful_results)
             * 100).

(** The same keys on a result dict of the balanced loop, and whether the
    image had an expected term. *)
Definition b_success (r : BalancedRun.image_result) : bool :=
  match r with
  | BalancedRun.Success _ _ _ _ _ => true
  | BalancedRun.Failure _ _ => false
  end.

Definition b_has_correct (r : BalancedRun.image_result) : bool :=
  match r with
  | BalancedRun.Success _ _ _ correct _ => correct
  | BalancedRun.Failure _ _ => false
  end.

Definition b_has_any (r : BalancedRun.image_result) : bool :=
  match r with
  | BalancedRun.Success _ _ _ _ any => any
  | BalancedRun.Failure _ _ => false
  end.

Definition b_has_expected (r : BalancedRun.image_result) : bool :=
  match r with
  | BalancedRun.Success _ expected_vocab _ _ _ =>
      match Text.truthy expected_vocab with Some _ => true | None => false end
  | BalancedRun.Failure _ _ => false
  end.

(** [accuracy] and [detection_rate] of [run_balanced_test]. *)
Definition balanced_accuracy (rs : BalancedRun.run_state) : Q :=
  if (0 <? BalancedRun.total_expected rs)%nat
  then of_int (BalancedRun.correct_detections rs)
       / of_int (BalancedRun.total_expected rs) * 100
  else 0.

Definition balanced_detection_rate (rs : BalancedRun.run_state) : Q :=
  let successful_results := filter (λ r, b_success r) (BalancedRun.results rs) in
  match successful_results with
  | [] => 0
  | _ :: _ =>
      of_int (BalancedRun.images_with_detections rs)
      / of_int (length successful_results) * 100
  end.

(** The counters of [run_balanced_test] count the results. *)
Definition counters_count_results (rs : BalancedRun.run_state) : Prop :=
  BalancedRun.correct_detections rs
    = length (filter (λ r, b_has_correct r) (BalancedRun.results rs)) ∧
  BalancedRun.total_expected rs
    = length (filter (λ r, b_has_expected r) (BalancedRun.results rs)) ∧
  BalancedRun.images_with_detections rs
    = length (filter (λ r, b_has_any r) (BalancedRun.results rs)) ∧
  Forall (λ r, b_has_correct r = true →
               b_has_any r = true ∧ b_has_expected r = true)
         (BalancedRun.results rs).

End Report.

(* ===================================================================== *)
(** * Part II: properties                                                *)
(* ===================================================================== *)

(** ** Numbers *)

Lemma Qltb_lt (x y : Q) : Qltb x y = true ↔ x < y.
Proof. unfold Qltb, Qlt. apply Z.ltb_lt. Qed.

Lemma Qltb_nlt (x y : Q) : Qltb x y = false ↔ ¬ x < y.
Proof.
  rewrite <- Qltb_lt. destruct (Qltb x y); split; congruence.
Qed.

Lemma Qltb_irrefl_eq (x y : Q) : x == y → Qltb x y = false.
Proof.
  intros E. apply Qltb_nlt. rewrite E. apply Qlt_irrefl.
Qed.

Lemma ratio_gt_half (n m : nat) :
  0.5 < of_int n / of_int m → (m < 2 * n)%nat.
Proof.
  intros H. destruct m as [|m].
  - exfalso. revert H. unfold of_int, Qdiv, Qinv. simpl.
    rewrite Qmult_0_r. discriminate.
  - assert (0 < of_int (S m)) as Hpos by (unfold of_int, Qlt; simpl; lia).
    apply (Qmult_lt_r _ _ _ Hpos) in H.
    unfold Qdiv in H. rewrite <- Qmult_assoc, (Qmult_comm (/ _)) in H.
    rewrite Qmult_inv_r, Qmult_1_r in H
      by (intros E; rewrite E in Hpos; by apply Qlt_irrefl in Hpos).
    revert H. unfold of_int, Qlt. simpl. lia.
Qed.

Lemma filter_two_terms_le {A} (f : A → string) (t t' : string) (l : list A) :
  t ≠ t' →
  (length (filter (λ d, f d = t) l) + length (filter (λ d, f d = t') l)
   ≤ length l)%nat.
Proof.
  intros Hne. induction l as [|x l IH]; [done|].
  rewrite !filter_cons.
  destruct (decide (f x = t)), (decide (f x = t')); simpl; try lia. congruence.
Qed.

Lemma majority_term_unique {A} (f : A → string) (l : list A) (u v : string) :
  (length l < 2 * length (filter (λ d, f d = u) l))%nat →
  (length (filter (λ d, f d = u) l) ≤ length (filter (λ d, f d = v) l))%nat →
  u = v.
Proof.
  intros H1 H2. destruct (decide (u = v)) as [|Hne]; [done|].
  pose proof (filter_two_terms_le f u v l Hne). lia.
Qed.

Lemma fold_left_Qplus_fmap {A} (f : A → Q) (l : list A) :
  ∀ a, fold_left (λ s d, s + f d) l a = fold_left Qplus (f <$> l) a.
Proof. induction l as [|x l IH]; intros a; [done|]. simpl. apply IH. Qed.

Lemma filter_Qltb_length {A} (f : A → Q) (q : Q) (l : list A) :
  length (filter (λ d, Qltb q (f d) = true) l)
  = length (filter (λ d, q < f d) l).
Proof. f_equal. apply list_filter_iff. intros x. apply Qltb_lt. Qed.

(** ** Enumerate *)

Lemma elem_of_combine_seq {A} (l : list A) (n i : nat) (x : A) :
  (i, x) ∈ combine (seq n (length l)) l ↔
  (n ≤ i)%nat ∧ l !! (i - n)%nat = Some x.
Proof.
  revert n. induction l as [|a l IH]; intros n; simpl.
  - split; [intros H; inversion H | intros [_ H]; discriminate].
  - rewrite elem_of_cons, IH. split.
    + intros [E | [Hle Hl]].
      * inversion E; subst. split; [lia|]. by rewrite Nat.sub_diag.
      * split; [lia|]. replace (i - n)%nat with (S (i - S n)) by lia. done.
    + intros [Hle Hl]. destruct (decide (i = n)) as [->|Hne].
      * rewrite Nat.sub_diag in Hl. simpl in Hl. left. congruence.
      * right. split; [lia|].
        replace (i - n)%nat with (S (i - S n)) in Hl by lia. done.
Qed.

Lemma elem_of_enumerate {A} (l : list A) (i : nat) (x : A) :
  (i, x) ∈ enumerate l ↔ l !! i = Some x.
Proof.
  unfold enumerate. rewrite elem_of_combine_seq, Nat.sub_0_r.
  split; [tauto | intros; split; [lia | done]].
Qed.

(** ** Balanced analyzer: evidence recording *)

Section BalancedDiscovery.
Import Balanced.

Lemma append_discovery_lookup c c' info (d : gmap string (list discovery)) :
  default [] (append_discovery c' info d !! c) =
  default [] (d !! c) ++ (if decide (c' = c) then [info] else []).
Proof.
  unfold append_discovery. destruct (decide (c' = c)) as [->|Hne].
  - by rewrite lookup_insert_eq.
  - rewrite lookup_insert_ne by done. by rewrite app_nil_r.
Qed.

(** The loop of [discover_class_mappings_balanced] over any list of indexed
    predictions: the mapping table and the statistics are untouched, and the
    observations of class [c] grow by exactly the observations of the
    predictions that pass the thresholds. *)
Lemma discover_fold_spec predictions expected c (l : list (nat * prediction)) :
  ∀ st,
    let st' := fold_left (discover_step predictions expected) l st in
    class_mapping st' = class_mapping st ∧
    validation_stats st' = validation_stats st ∧
    ∃ added,
      default [] (discovered_classes st' !! c) =
        default [] (discovered_classes st !! c) ++ added ∧
      ∀ d, d ∈ added ↔
        ∃ i p sixth,
          (i, p) ∈ l ∧ class_idx p = c ∧
          predictions !! 5%nat = Some sixth ∧
          class_mapping st !! c = None ∧
          20.0 < confidence_percent p ∧
          5.0 < confidence_percent p - confidence_percent sixth ∧
          d = {| expected_vocab := expected;
                 d_confidence := confidence_percent p;
                 d_rank := i + 1;
                 confidence_gap :=
                   confidence_percent p - confidence_percent sixth |}.
Proof.
  induction l as [|[i p] l IH]; intros st; cbn [fold_left]; cbv zeta.
  - repeat split; try done. exists []. split; [by rewrite app_nil_r|].
    intros d. split; [intros H; inversion H|].
    intros (? & ? & ? & H & _). inversion H.
  - set (st1 := discover_step predictions expected st (i, p)).
    specialize (IH st1). cbv zeta in IH.
    destruct IH as (Hm & Hs & added' & Hd & Hiff).
    (* what one step does *)
    assert (Hstep :
      class_mapping st1 = class_mapping st ∧
      validation_stats st1 = validation_stats st ∧
      ∃ one,
        default [] (discovered_classes st1 !! c) =
          default [] (discovered_classes st !! c) ++ one ∧
        ∀ d, d ∈ one ↔
          ∃ sixth, class_idx p = c ∧ predictions !! 5%nat = Some sixth ∧
            class_mapping st !! c = None ∧
            20.0 < confidence_percent p ∧
            5.0 < confidence_percent p - confidence_percent sixth ∧
            d = {| expected_vocab := expected;
                   d_confidence := confidence_percent p;
                   d_rank := i + 1;
                   confidence_gap :=
                     confidence_percent p - confidence_percent sixth |}).
    { subst st1. unfold discover_step.
      assert (Hnone : ∀ P : discovery → Prop,
                 (∀ d, P d → False) → ∀ d, d ∈ @nil discovery ↔ P d).
      { intros P HP d. split; [intros H; inversion H | intros H; destruct (HP d H)]. }
      destruct (Qltb 20.0 (confidence_percent p)) eqn:E20.
      2:{ repeat split; try done. exists []. split; [by rewrite app_nil_r|].
          apply Hnone. intros d (s & _ & _ & _ & H & _).
          apply Qltb_lt in H. congruence. }
      destruct (predictions !! 5%nat) as [sixth|] eqn:E6.
      2:{ repeat split; try done. exists []. split; [by rewrite app_nil_r|].
          apply Hnone. intros d (s & _ & H & _). discriminate. }
      destruct (Qltb 5.0 (confidence_percent p - confidence_percent sixth)) eqn:E5.
      2:{ repeat split; try done. exists []. split; [by rewrite app_nil_r|].
          apply Hnone. intros d (s & _ & H & _ & _ & H5 & _).
          inversion H; subst s. apply Qltb_lt in H5. congruence. }
      destruct (class_mapping st !! class_idx p) as [t|] eqn:Em.
      { repeat split; try done. exists []. split; [by rewrite app_nil_r|].
        apply Hnone. intros d (s & Hc & _ & H & _). subst c. congruence. }
      simpl. repeat split; try done.
      eexists. split; [apply append_discovery_lookup|].
      intros d. destruct (decide (class_idx p = c)) as [Hc|Hc].
      - rewrite list_elem_of_singleton. split.
        + intros ->. exists sixth. subst c.
          repeat split; try done; by apply Qltb_lt.
        + intros (s & _ & H & _ & _ & _ & ->). by inversion H; subst s.
      - revert d. apply Hnone. intros d' (s & H & _). done. }
    destruct Hstep as (Hm1 & Hs1 & one & Hd1 & Hiff1).
    split; [congruence|]. split; [congruence|].
    exists (one ++ added'). split.
    { rewrite Hd, Hd1. by rewrite app_assoc. }
    intros d. rewrite elem_of_app, Hiff1, Hiff. rewrite Hm1. split.
    + intros [(s & H)|(j & q & s & Hin & H)].
      * exists i, p, s. split; [left|]; done.
      * exists j, q, s. split; [by right|done].
    + intros (j & q & s & Hin & H). apply elem_of_cons in Hin as [Heq|Hin].
      * inversion Heq; subst j q. left. by exists s.
      * right. by exists j, q, s.
Qed.

End BalancedDiscovery.

Section BalancedDiscoveryGate.
Import Balanced.

(** C6. Evidence recording in the balanced policy is gated by strict
    inequalities. A call of [discover_class_mappings_balanced] leaves the
    mapping table alone and appends to the observations of a class [c]
    exactly one observation for every prediction of class [c] among the top
    five such that: an expected term is given, [c] is not a finalized
    mapping, the confidence is strictly above 20.0 and the gap to the sixth
    prediction is strictly above 5.0. In particular no recorded observation
    has a confidence equal to the threshold 20.0. *)
Theorem balanced_discovery_gate (st : state) (predictions : list prediction)
    (expected_vocab : option string) (c : string) :
  class_mapping (discover_class_mappings_balanced st predictions expected_vocab)
    = class_mapping st ∧
  ∃ added,
    default [] (discovered_classes
                  (discover_class_mappings_balanced st predictions expected_vocab)
                !! c)
      = default [] (discovered_classes st !! c) ++ added ∧
    (∀ d, d ∈ added ↔
       ∃ i p sixth expected,
         expected_vocab = Some expected ∧ expected ≠ EmptyString ∧
         take 5 predictions !! i = Some p ∧ class_idx p = c ∧
         predictions !! 5%nat = Some sixth ∧
         class_mapping st !! c = None ∧
         20.0 < confidence_percent p ∧
         5.0 < confidence_percent p - confidence_percent sixth ∧
         d = {| expected_vocab := expected;
                d_confidence := confidence_percent p;
                d_rank := i + 1;
                confidence_gap :=
                  confidence_percent p - confidence_percent sixth |}) ∧
    (∀ d, d ∈ added → ¬ d_confidence d == 20.0).
Proof.
  unfold discover_class_mappings_balanced.
  destruct (Text.truthy expected_vocab) as [expected|] eqn:Et.
  - assert (expected_vocab = Some expected ∧ expected ≠ EmptyString) as [-> Hne].
    { destruct expected_vocab as [[|a s]|]; simpl in Et; try discriminate.
      inversion Et; subst. split; [done | discriminate]. }
    destruct (discover_fold_spec predictions expected c
                (enumerate (take 5 predictions)) st)
      as (Hm & _ & added & Hd & Hiff).
    split; [exact Hm|]. exists added. split; [exact Hd|]. split.
    + intros d. rewrite Hiff. split.
      * intros (i & p & s & Hin & H). apply elem_of_enumerate in Hin.
        exists i, p, s, expected. done.
      * intros (i & p & s & e & He & _ & Hin & H). inversion He; subst e.
        apply elem_of_enumerate in Hin. by exists i, p, s.
    + intros d Hd' Heq. apply Hiff in Hd' as (i & p & s & _ & _ & _ & _ & H & _ & ->).
      simpl in Heq. rewrite Heq in H. by apply Qlt_irrefl in H.
  - split; [done|]. exists []. split; [by rewrite app_nil_r|]. split.
    + intros d. split; [intros H; inversion H|].
      intros (i & p & s & e & -> & Hne & _). destruct e; simpl in Et; [done | discriminate].
    + intros d H. inversion H.
Qed.

End BalancedDiscoveryGate.

(** ** Counters *)

Section CounterFacts.
Import Counter.

Lemma get_incr (k k' : string) (c : t) :
  get k' (incr k c) = if decide (k = k') then S (get k' c) else get k' c.
Proof.
  induction c as [|[k0 n] c IH]; simpl.
  - destruct (String.eqb_spec k' k); case_decide; congruence.
  - destruct (String.eqb_spec k k0) as [->|Hne]; simpl.
    + destruct (String.eqb_spec k' k0); case_decide; congruence.
    + destruct (String.eqb_spec k' k0) as [->|Hne'].
      * case_decide; congruence.
      * exact IH.
Qed.

Lemma incr_keys (k : string) (c : t) :
  (incr k c).*1 = if decide (k ∈ c.*1) then c.*1 else c.*1 ++ [k].
Proof.
  induction c as [|[k0 n] c IH]; [done|].
  cbn [incr]. destruct (String.eqb_spec k k0) as [->|Hne]; rewrite !fmap_cons; cbn [fst].
  - rewrite decide_True by left. done.
  - rewrite IH. destruct (decide (k ∈ c.*1)) as [Hin|Hin].
    + rewrite decide_True by (by right). done.
    + rewrite decide_False; [done|]. intros [?|?]%elem_of_cons; done.
Qed.

Lemma incr_NoDup (k : string) (c : t) : NoDup c.*1 → NoDup (incr k c).*1.
Proof.
  intros H. rewrite incr_keys. destruct (decide _) as [Hin|Hin]; [done|].
  apply NoDup_app. split; [done|]. split; [|apply NoDup_singleton].
  intros x Hx ->%list_elem_of_singleton. done.
Qed.

Lemma get_elem_of (k : string) (n : nat) (c : t) :
  NoDup c.*1 → (k, n) ∈ c → get k c = n.
Proof.
  induction c as [|[k0 n0] c IH]; simpl; intros Hnd Hin; [inversion Hin|].
  apply NoDup_cons in Hnd as [Hk0 Hnd].
  apply elem_of_cons in Hin as [Heq|Hin].
  - inversion Heq; subst. by rewrite String.eqb_refl.
  - destruct (String.eqb_spec k k0) as [->|Hne]; [|by apply IH].
    exfalso. apply Hk0. apply list_elem_of_fmap. by exists (k0, n).
Qed.

Lemma get_le_of_bound (k : string) (m : nat) (c : t) :
  (∀ x, x ∈ c → (snd x ≤ m)%nat) → (get k c ≤ m)%nat.
Proof.
  induction c as [|[k0 n0] c IH]; simpl; intros H; [lia|].
  destruct (String.eqb k k0).
  - apply (H (k0, n0)). left.
  - apply IH. intros x Hx. apply H. by right.
Qed.

Lemma max_from_spec (best : string * nat) (c : t) :
  max_from best c ∈ best :: c ∧
  ∀ x, x ∈ best :: c → (snd x ≤ snd (max_from best c))%nat.
Proof.
  revert best. induction c as [|y c IH]; intros best; simpl.
  - split; [left|]. intros x ->%list_elem_of_singleton. done.
  - destruct (Nat.ltb_spec (snd best) (snd y)) as [Hlt|Hge].
    + destruct (IH y) as [Hin Hmax]. split; [by right|].
      intros x [->|Hx]%elem_of_cons.
      * specialize (Hmax y (list_elem_of_here _ _)). lia.
      * by apply Hmax.
    + destruct (IH best) as [Hin Hmax]. split.
      * apply elem_of_cons in Hin as [->|Hin]; [left | right; by right].
      * intros x [->|[->|Hx]%elem_of_cons]%elem_of_cons.
        -- apply Hmax. left.
        -- specialize (Hmax best (list_elem_of_here _ _)). lia.
        -- apply Hmax. by right.
Qed.

(** The item returned by [most_common(1)] carries the count of its key, and
    no key has a larger count. *)
Lemma most_common1_spec (c : t) (k : string) (n : nat) :
  NoDup c.*1 → most_common1 c = Some (k, n) →
  get k c = n ∧ ∀ k', (get k' c ≤ n)%nat.
Proof.
  intros Hnd H. destruct c as [|x c]; simpl in H; [discriminate|].
  inversion H as [Hmax]. destruct (max_from_spec x c) as [Hin Hle].
  rewrite Hmax in Hin, Hle. split.
  - by apply get_elem_of.
  - intros k'. apply get_le_of_bound. exact Hle.
Qed.

Lemma incr_not_nil (k : string) (c : t) : incr k c ≠ [].
Proof. destruct c as [|[k0 n] c]; simpl; [done|]. by destruct (String.eqb k k0). Qed.

(** Counting the terms of a list of records with a counter. *)
Lemma fold_incr_spec {A} (f : A → string) (l : list A) :
  ∀ c, NoDup c.*1 →
    NoDup (fold_left (fun c d => incr (f d) c) l c).*1 ∧
    (l ≠ [] → fold_left (fun c d => incr (f d) c) l c ≠ []) ∧
    ∀ k, get k (fold_left (fun c d => incr (f d) c) l c)
         = (get k c + length (filter (λ d, f d = k) l))%nat.
Proof.
  induction l as [|a l IH]; intros c Hnd; simpl.
  - split; [done|]. split; [done|]. intros k. by rewrite Nat.add_0_r.
  - destruct (IH (incr (f a) c) (incr_NoDup _ _ Hnd)) as (H1 & H2 & H3).
    split; [done|]. split.
    + intros _. destruct l as [|b l]; [apply incr_not_nil | by apply H2].
    + intros k. rewrite H3, get_incr, filter_cons.
      destruct (decide (f a = k)); simpl; lia.
Qed.

End CounterFacts.

(** ** Balanced analyzer: rebuild *)

Section BalancedBuild.
Import Balanced.

(** The loop of [build_class_mapping_balanced], key by key. *)
Lemma build_fold_lookup (stats0 : gmap string stats)
    (m : gmap string (list discovery)) (c : string) :
  fst (map_fold build_step (∅, stats0) m) !! c
    = fst <$> (m !! c ≫= validate) ∧
  snd (map_fold build_step (∅, stats0) m) !! c
    = match m !! c ≫= validate with
      | Some te => Some (snd te)
      | None => stats0 !! c
      end.
Proof.
  revert c.
  apply (map_fold_weak_ind
           (λ r m, ∀ c, fst r !! c = fst <$> (m !! c ≫= validate) ∧
                        snd r !! c = match m !! c ≫= validate with
                                     | Some te => Some (snd te)
                                     | None => stats0 !! c
                                     end)).
  - intros c. by rewrite !lookup_empty.
  - intros i ds m' r Hi IH c. destruct (IH c) as [IH1 IH2].
    unfold build_step. destruct (decide (i = c)) as [->|Hne].
    + rewrite lookup_insert_eq. simpl. rewrite Hi in IH1, IH2. simpl in *.
      destruct (validate ds) as [[term entry]|]; simpl.
      * by rewrite !lookup_insert_eq.
      * done.
    + rewrite (lookup_insert_ne m') by done.
      destruct (validate ds) as [[term entry]|]; simpl; [|done].
      by rewrite !lookup_insert_ne.
Qed.

Lemma build_new_mappings_lookup (st : state) (c : string) :
  fst (build_class_mapping_balanced st) !! c
    = fst <$> (discovered_classes st !! c ≫= validate).
Proof.
  unfold build_class_mapping_balanced.
  destruct (build_fold_lookup (validation_stats st) (discovered_classes st) c)
    as [H _].
  destruct (map_fold _ _ _) as [new stats']. exact H.
Qed.

Lemma build_state (st : state) :
  class_mapping (snd (build_class_mapping_balanced st))
    = fst (build_class_mapping_balanced st) ∪ class_mapping st ∧
  discovered_classes (snd (build_class_mapping_balanced st))
    = discovered_classes st.
Proof.
  unfold build_class_mapping_balanced.
  destruct (map_fold _ _ _) as [new stats']. done.
Qed.

Lemma build_stats_lookup (st : state) (c : string) :
  validation_stats (snd (build_class_mapping_balanced st)) !! c
    = match discovered_classes st !! c ≫= validate with
      | Some te => Some (snd te)
      | None => validation_stats st !! c
      end.
Proof.
  unfold build_class_mapping_balanced.
  destruct (build_fold_lookup (validation_stats st) (discovered_classes st) c)
    as [_ H].
  destruct (map_fold _ _ _) as [new stats']. exact H.
Qed.

(** The majority term and its count, declaratively. *)
Lemma most_common_spec (ds : list discovery) :
  ds ≠ [] →
  is_Some (most_common ds) ∧
  occurrence_count ds
    = length (filter (λ d, expected_vocab d = most_common_vocab ds) ds) ∧
  ∀ t, (length (filter (λ d, expected_vocab d = t) ds) ≤ occurrence_count ds)%nat.
Proof.
  intros Hne. unfold occurrence_count, most_common_vocab, most_common, vocab_counts.
  destruct (fold_incr_spec expected_vocab ds [] (NoDup_nil_2)) as (Hnd & Hnn & Hget).
  specialize (Hnn Hne).
  destruct (Counter.most_common1 _) as [[k n]|] eqn:E.
  - destruct (most_common1_spec _ _ _ Hnd E) as [Hk Hmax]. simpl.
    split; [by eexists|]. split.
    + rewrite <- Hk, Hget. done.
    + intros t. specialize (Hmax t). rewrite Hget in Hmax. simpl in Hmax. lia.
  - exfalso. destruct (fold_left _ _ _); [done | discriminate].
Qed.

Lemma occurrence_count_le_length (ds : list discovery) :
  (occurrence_count ds ≤ length ds)%nat.
Proof.
  destruct ds as [|d ds]; [done|].
  destruct (most_common_spec (d :: ds)) as (_ & -> & _); [done|].
  apply length_filter.
Qed.

Lemma validate_Some_iff (ds : list discovery) :
  is_Some (validate ds) ↔ validation_passed ds = true.
Proof.
  unfold validate. destruct (Nat.ltb_spec (length ds) 2) as [Hlt|Hge].
  - split; [intros [? ?]; discriminate|]. intros H. exfalso.
    unfold validation_passed in H.
    apply andb_prop in H as [H _]. apply andb_prop in H as [_ H].
    apply Nat.leb_le in H. pose proof (occurrence_count_le_length ds). lia.
  - destruct (most_common_spec ds) as ([x Hx] & _).
    { intros ->. simpl in Hge. lia. }
    rewrite Hx. destruct (validation_passed ds); split; intros H; try done.
Qed.

Lemma validate_term (ds : list discovery) (t : string) (e : stats) :
  validate ds = Some (t, e) →
  t = Text.lower (most_common_vocab ds) ∧
  quality_score e
    = avg_confidence_of ds * consistency_ratio_of ds
      * (rank_1_ratio_of ds + high_confidence_ratio_of ds) ∧
  vocab_term e = most_common_vocab ds ∧
  evidence_count e = length ds.
Proof.
  unfold validate. destruct (length ds <? 2)%nat; [discriminate|].
  destruct (most_common ds); [|discriminate].
  destruct (validation_passed ds); [|discriminate].
  intros H. inversion H; subst. done.
Qed.

End BalancedBuild.


(** ** Hybrid analyzer: rebuild *)

Section HybridBuild.
Import Hybrid.

(** The loop of [build_class_mapping_hybrid], key by key. *)
Lemma hybrid_build_fold_lookup (mapping : gmap string string)
    (stats0 : gmap string stats) (m : gmap string (list discovery)) (c : string) :
  fst (map_fold (build_step mapping) (∅, stats0) m) !! c
    = match mapping !! c with
      | Some _ => None
      | None => fst <$> (m !! c ≫= validate)
      end ∧
  snd (map_fold (build_step mapping) (∅, stats0) m) !! c
    = match mapping !! c with
      | Some _ => stats0 !! c
      | None => match m !! c ≫= validate with
                | Some te => Some (snd te)
                | None => stats0 !! c
                end
      end.
Proof.
  revert c.
  apply (map_fold_weak_ind
           (λ r m, ∀ c,
              fst r !! c = match mapping !! c with
                           | Some _ => None
                           | None => fst <$> (m !! c ≫= validate)
                           end ∧
              snd r !! c = match mapping !! c with
                           | Some _ => stats0 !! c
                           | None => match m !! c ≫= validate with
                                     | Some te => Some (snd te)
                                     | None => stats0 !! c
                                     end
                           end)).
  - intros c. rewrite !lookup_empty. simpl. by destruct (mapping !! c).
  - intros i ds m' r Hi IH c. destruct (IH c) as [IH1 IH2].
    unfold build_step. destruct (decide (i = c)) as [->|Hne].
    + rewrite lookup_insert_eq. simpl. rewrite Hi in IH1, IH2. simpl in *.
      destruct (mapping !! c); [done|].
      destruct (validate ds) as [[term entry]|]; simpl; [|done].
      by rewrite !lookup_insert_eq.
    + rewrite (lookup_insert_ne m') by done.
      destruct (mapping !! i); [done|].
      destruct (validate ds) as [[term entry]|]; simpl; [|done].
      by rewrite !lookup_insert_ne.
Qed.

Lemma hybrid_new_mappings_lookup (st : state) (c : string) :
  fst (build_class_mapping_hybrid st) !! c
    = match class_mapping st !! c with
      | Some _ => None
      | None => fst <$> (discovered_classes st !! c ≫= validate)
      end.
Proof.
  unfold build_class_mapping_hybrid.
  destruct (hybrid_build_fold_lookup (class_mapping st) (validation_stats st)
              (discovered_classes st) c) as [H _].
  destruct (map_fold _ _ _) as [new stats']. exact H.
Qed.

Lemma hybrid_build_stats_lookup (st : state) (c : string) :
  validation_stats (snd (build_class_mapping_hybrid st)) !! c
    = match class_mapping st !! c with
      | Some _ => validation_stats st !! c
      | None => match discovered_classes st !! c ≫= validate with
                | Some te => Some (snd te)
                | None => validation_stats st !! c
                end
      end.
Proof.
  unfold build_class_mapping_hybrid.
  destruct (hybrid_build_fold_lookup (class_mapping st) (validation_stats st)
              (discovered_classes st) c) as [_ H].
  destruct (map_fold _ _ _) as [new stats']. exact H.
Qed.

Lemma hybrid_build_state (st : state) :
  class_mapping (snd (build_class_mapping_hybrid st))
    = fst (build_class_mapping_hybrid st) ∪ class_mapping st ∧
  discovered_classes (snd (build_class_mapping_hybrid st))
    = discovered_classes st.
Proof.
  unfold build_class_mapping_hybrid.
  destruct (map_fold _ _ _) as [new stats']. done.
Qed.

(** After a rebuild the table holds the new mappings and, for every other
    class, what it held before. *)
Lemma hybrid_build_mapping_lookup (st : state) (c : string) :
  class_mapping (snd (build_class_mapping_hybrid st)) !! c
    = match class_mapping st !! c with
      | Some t => Some t
      | None => fst <$> (discovered_classes st !! c ≫= validate)
      end.
Proof.
  destruct (hybrid_build_state st) as [-> _].
  rewrite lookup_union, hybrid_new_mappings_lookup.
  destruct (class_mapping st !! c) as [t|]; [done|].
  by destruct (fst <$> _).
Qed.

End HybridBuild.

(** ** The mapping table only grows *)

Section BalancedMonotone.
Import Balanced.

Lemma balanced_discover_fold_frame predictions expected c
    (l : list (nat * prediction)) :
  ∀ st,
    class_mapping (fold_left (discover_step predictions expected) l st)
      = class_mapping st ∧
    (is_Some (class_mapping st !! c) →
     discovered_classes (fold_left (discover_step predictions expected) l st) !! c
       = discovered_classes st !! c).
Proof.
  induction l as [|[i p] l IH]; intros st; cbn [fold_left]; [done|].
  destruct (IH (discover_step predictions expected st (i, p))) as [Hm Hd].
  assert (class_mapping (discover_step predictions expected st (i, p))
            = class_mapping st ∧
          (is_Some (class_mapping st !! c) →
           discovered_classes (discover_step predictions expected st (i, p)) !! c
             = discovered_classes st !! c)) as [Hm1 Hd1].
  { unfold discover_step.
    destruct (Qltb 20.0 _); [|done].
    destruct (predictions !! 5%nat); [|done].
    destruct (Qltb 5.0 _); [|done].
    destruct (class_mapping st !! class_idx p) eqn:E; [done|].
    simpl. split; [done|]. intros [t Ht]. unfold append_discovery.
    rewrite lookup_insert_ne; [done|]. intros <-. congruence. }
  split; [congruence|]. intros Hc. rewrite Hd, Hd1; [done..|]. by rewrite Hm1.
Qed.

Lemma balanced_discover_frame st predictions expected_vocab c :
  class_mapping (discover_class_mappings_balanced st predictions expected_vocab)
    = class_mapping st ∧
  (is_Some (class_mapping st !! c) →
   discovered_classes
     (discover_class_mappings_balanced st predictions expected_vocab) !! c
     = discovered_classes st !! c).
Proof.
  unfold discover_class_mappings_balanced.
  destruct (Text.truthy expected_vocab); [|done].
  apply balanced_discover_fold_frame.
Qed.

Lemma balanced_step_invariant st o :
  validated_table st → validated_table (step st o).
Proof.
  intros Inv c t. destruct o as [predictions expected|]; simpl.
  - destruct (balanced_discover_frame st predictions expected c) as [-> Hd].
    intros Hc. rewrite Hd by (by eexists). by apply Inv.
  - destruct (build_state st) as [-> ->].
    intros [H|[H1 H2]]%lookup_union_Some_raw.
    + by rewrite build_new_mappings_lookup in H.
    + apply Inv in H2. rewrite build_new_mappings_lookup in H1. congruence.
Qed.

Lemma balanced_step_monotone st o c t :
  validated_table st →
  class_mapping st !! c = Some t → class_mapping (step st o) !! c = Some t.
Proof.
  intros Inv Hc. destruct o as [predictions expected|]; simpl.
  - by destruct (balanced_discover_frame st predictions expected c) as [-> _].
  - destruct (build_state st) as [-> _].
    apply lookup_union_Some_raw. left.
    rewrite build_new_mappings_lookup. by apply Inv.
Qed.

Lemma balanced_run_invariant ops : validated_table (run ops).
Proof.
  unfold run. induction ops as [|o ops IH] using rev_ind.
  - intros c t H. simpl in H. by rewrite lookup_empty in H.
  - rewrite fold_left_app. simpl. by apply balanced_step_invariant.
Qed.

Lemma balanced_fold_monotone ops st c t :
  validated_table st →
  class_mapping st !! c = Some t →
  class_mapping (fold_left step ops st) !! c = Some t.
Proof.
  revert st. induction ops as [|o ops IH]; intros st Inv Hc; [done|].
  simpl. apply IH.
  - by apply balanced_step_invariant.
  - by apply balanced_step_monotone.
Qed.

End BalancedMonotone.

Section HybridMonotone.
Import Hybrid.

Lemma hybrid_discover_step_monotone expected st ip c t :
  class_mapping st !! c = Some t →
  class_mapping (discover_step expected st ip) !! c = Some t.
Proof.
  intros Hc. destruct ip as [i p]. unfold discover_step.
  destruct (class_mapping st !! class_idx p) eqn:E; [done|].
  destruct (Qltb 70.0 _).
  { simpl. rewrite lookup_insert_ne; [done|]. intros <-. congruence. }
  destruct (Qltb 50.0 _); [done|]. by destruct (Qltb 30.0 _).
Qed.

Lemma hybrid_step_monotone st o c t :
  class_mapping st !! c = Some t → class_mapping (step st o) !! c = Some t.
Proof.
  intros Hc. destruct o as [predictions expected|]; simpl.
  - unfold discover_class_mappings_hybrid.
    destruct (Text.truthy expected) as [e|]; [|done].
    generalize (enumerate (take 3 predictions)). intros l.
    revert st Hc. induction l as [|ip l IH]; intros st Hc; [done|].
    simpl. apply IH. by apply hybrid_discover_step_monotone.
  - rewrite hybrid_build_mapping_lookup. by rewrite Hc.
Qed.

Lemma hybrid_fold_monotone ops st c t :
  class_mapping st !! c = Some t →
  class_mapping (fold_left step ops st) !! c = Some t.
Proof.
  revert st. induction ops as [|o ops IH]; intros st Hc; [done|].
  simpl. apply IH. by apply hybrid_step_monotone.
Qed.

End HybridMonotone.

(** C3. Monotonic mapping table. In a run of the balanced analyzer and in a
    run of the hybrid analyzer (any sequence of discovery and rebuild calls
    from the initial state), once a class is in the mapping table with some
    term, it is still there with the same term after any further calls. *)
Theorem mapping_table_monotone :
  (∀ (ops1 ops2 : list Balanced.op) (c t : string),
     Balanced.class_mapping (Balanced.run ops1) !! c = Some t →
     Balanced.class_mapping (Balanced.run (ops1 ++ ops2)) !! c = Some t) ∧
  (∀ (ops1 ops2 : list Hybrid.op) (c t : string),
     Hybrid.class_mapping (Hybrid.run ops1) !! c = Some t →
     Hybrid.class_mapping (Hybrid.run (ops1 ++ ops2)) !! c = Some t).
Proof.
  split; intros ops1 ops2 c t H.
  - unfold Balanced.run. rewrite fold_left_app.
    apply balanced_fold_monotone; [apply balanced_run_invariant | exact H].
  - unfold Hybrid.run. rewrite fold_left_app.
    by apply hybrid_fold_monotone.
Qed.

Lemma mapping_table_monotone_witness :
  Balanced.class_mapping
    (Balanced.run
       ([Balanced.Discover Scenario.acorn_cell (Some "Acorn"%string);
         Balanced.Discover Scenario.acorn_cell (Some "Acorn"%string);
         Balanced.Build]
        ++ [Balanced.Discover Scenario.acorn_cell (Some "Aloe"%string);
            Balanced.Discover Scenario.moderate_cell (Some "Aloe"%string);
            Balanced.Build]))
    !! "42"%string = Some "acorn"%string ∧
  Hybrid.class_mapping
    (Hybrid.run
       ([Hybrid.Discover Scenario.acorn_cell (Some "Acorn"%string)]
        ++ [Hybrid.Discover Scenario.acorn_cell (Some "Aloe"%string);
            Hybrid.Build]))
    !! "42"%string = Some "acorn"%string.
Proof.
  split.
  - apply (proj1 mapping_table_monotone). vm_compute. reflexivity.
  - apply (proj2 mapping_table_monotone). vm_compute. reflexivity.
Defined.

(** ** Hybrid analyzer: the immediate mapping *)

Section HybridFastPath.
Import Hybrid.

(** A step on a prediction of another class leaves class [c] alone. *)
Lemma hybrid_discover_step_other expected st j q c :
  class_idx q ≠ c →
  class_mapping (discover_step expected st (j, q)) !! c = class_mapping st !! c ∧
  validation_stats (discover_step expected st (j, q)) !! c
    = validation_stats st !! c ∧
  discovered_classes (discover_step expected st (j, q)) !! c
    = discovered_classes st !! c.
Proof.
  intros Hne. unfold discover_step.
  destruct (class_mapping st !! class_idx q); [done|].
  destruct (Qltb 70.0 _); simpl.
  { by rewrite !lookup_insert_ne. }
  unfold append_discovery.
  destruct (Qltb 50.0 _); simpl; [by rewrite lookup_insert_ne|].
  destruct (Qltb 30.0 _); simpl; [by rewrite lookup_insert_ne|done].
Qed.

Lemma hybrid_discover_fold_other expected c (l : list prediction) :
  ∀ n st,
    c ∉ class_idx <$> l →
    class_mapping
      (fold_left (discover_step expected) (combine (seq n (length l)) l) st) !! c
      = class_mapping st !! c ∧
    validation_stats
      (fold_left (discover_step expected) (combine (seq n (length l)) l) st) !! c
      = validation_stats st !! c ∧
    discovered_classes
      (fold_left (discover_step expected) (combine (seq n (length l)) l) st) !! c
      = discovered_classes st !! c.
Proof.
  induction l as [|q l IH]; intros n st Hc; [done|].
  rewrite fmap_cons, not_elem_of_cons in Hc. destruct Hc as [Hq Hl].
  cbn [length seq combine fold_left].
  destruct (IH (S n) (discover_step expected st (n, q)) Hl) as (-> & -> & ->).
  by apply hybrid_discover_step_other.
Qed.

Lemma combine_seq_middle {A} (l1 l2 : list A) (x : A) (n : nat) :
  combine (seq n (length (l1 ++ x :: l2))) (l1 ++ x :: l2)
  = combine (seq n (length l1)) l1
    ++ (n + length l1, x)%nat
       :: combine (seq (S (n + length l1)) (length l2)) l2.
Proof.
  revert n. induction l1 as [|a l1 IH]; intros n; simpl.
  - by rewrite Nat.add_0_r.
  - rewrite IH. by rewrite Nat.add_succ_r.
Qed.

(** C2. Hybrid fast path. A single top-3 prediction of a class that is not
    yet mapped, with confidence strictly above 70, is mapped at once by
    [discover_class_mappings_hybrid] itself: the table maps the class to the
    (lowercased) expected term, the entry has [quality_score] equal to that
    confidence, [evidence_count] 1 and [consistency_ratio] 1.0, no
    observation is added for the class, and the next rebuild neither
    re-validates the class nor changes its entry. *)
Theorem hybrid_fast_path (st : state) (predictions : list prediction)
    (expected : string) (i : nat) (p : prediction) :
  expected ≠ EmptyString →
  take 3 predictions !! i = Some p →
  NoDup (class_idx <$> take 3 predictions) →
  class_mapping st !! class_idx p = None →
  70.0 < confidence_percent p →
  class_mapping (discover_class_mappings_hybrid st predictions (Some expected))
    !! class_idx p = Some (Text.lower expected) ∧
  validation_stats (discover_class_mappings_hybrid st predictions (Some expected))
    !! class_idx p
    = Some {| vocab_term := expected;
              evidence_count := 1;
              avg_confidence := confidence_percent p;
              consistency_ratio := 1.0;
              high_confidence_ratio := None;
              quality_score := confidence_percent p;
              s_mapping_type := immediate_high_confidence |} ∧
  discovered_classes (discover_class_mappings_hybrid st predictions (Some expected))
    !! class_idx p = discovered_classes st !! class_idx p ∧
  fst (build_class_mapping_hybrid
         (discover_class_mappings_hybrid st predictions (Some expected)))
    !! class_idx p = None ∧
  validation_stats
    (snd (build_class_mapping_hybrid
            (discover_class_mappings_hybrid st predictions (Some expected))))
    !! class_idx p
    = validation_stats (discover_class_mappings_hybrid st predictions (Some expected))
      !! class_idx p.
Proof.
  intros Hne Hi Hnd Hc H70.
  assert (Text.truthy (Some expected) = Some expected) as Ht.
  { destruct expected; [done | reflexivity]. }
  set (st' := discover_class_mappings_hybrid st predictions (Some expected)).
  assert (class_mapping st' !! class_idx p = Some (Text.lower expected) ∧
          validation_stats st' !! class_idx p
            = Some {| vocab_term := expected;
                      evidence_count := 1;
                      avg_confidence := confidence_percent p;
                      consistency_ratio := 1.0;
                      high_confidence_ratio := None;
                      quality_score := confidence_percent p;
                      s_mapping_type := immediate_high_confidence |} ∧
          discovered_classes st' !! class_idx p
            = discovered_classes st !! class_idx p) as (Hm & Hs & Hd).
  { subst st'. unfold discover_class_mappings_hybrid. rewrite Ht.
    unfold enumerate.
    rewrite <- (take_drop_middle _ _ _ Hi) in Hnd |- *.
    rewrite fmap_app, fmap_cons in Hnd.
    apply NoDup_app in Hnd as (_ & Hl1 & Hnd).
    apply NoDup_cons in Hnd as [Hl2 _].
    assert (class_idx p ∉ class_idx <$> take i (take 3 predictions)) as Hl1'.
    { intros H. apply (Hl1 _ H). left. }
    rewrite combine_seq_middle, fold_left_app. cbn [fold_left].
    set (st1 := fold_left _ (combine _ (take i _)) st).
    destruct (hybrid_discover_fold_other expected (class_idx p) _ 0%nat st Hl1')
      as (Hm1 & Hs1 & Hd1). fold st1 in Hm1, Hs1, Hd1.
    set (st2 := discover_step expected st1 _).
    destruct (hybrid_discover_fold_other expected (class_idx p) _
                (S (0 + length (take i (take 3 predictions)))) st2 Hl2)
      as (-> & -> & ->).
    subst st2. unfold discover_step. rewrite Hm1, Hc.
    apply Qltb_lt in H70. rewrite H70. simpl.
    rewrite !lookup_insert_eq. done. }
  split; [done|]. split; [done|]. split; [done|].
  rewrite hybrid_new_mappings_lookup, hybrid_build_stats_lookup, Hm. done.
Qed.

Lemma hybrid_fast_path_witness :
  class_mapping
    (discover_class_mappings_hybrid init (Scenario.cell_at 71) (Some "Acorn"%string))
    !! "42"%string = Some "acorn"%string ∧
  quality_score <$>
    validation_stats
      (discover_class_mappings_hybrid init (Scenario.cell_at 71) (Some "Acorn"%string))
      !! "42"%string
    = Some (71 / 100 * 100).
Proof.
  assert (Hp : take 3 (Scenario.cell_at 71) !! 0%nat
               = Some {| rank := 1; class_idx := "42";
                         class_name := "class_42";
                         confidence := 71 / 100;
                         confidence_percent := 71 / 100 * 100 |})
    by reflexivity.
  destruct (hybrid_fast_path init (Scenario.cell_at 71) "Acorn"%string 0 _
              ltac:(discriminate) Hp ltac:(apply (bool_decide_unpack _); vm_compute; exact I)
              ltac:(reflexivity) ltac:(reflexivity))
    as (H1 & H2 & _).
  split; [exact H1|]. simpl in H2. rewrite H2. reflexivity.
Defined.

End HybridFastPath.

(** ** Rebuilding twice *)

Lemma hybrid_rebuild_idempotent (st : Hybrid.state) :
  fst (Hybrid.build_class_mapping_hybrid
         (snd (Hybrid.build_class_mapping_hybrid st))) = ∅.
Proof.
  apply map_eq. intros c. rewrite lookup_empty.
  rewrite hybrid_new_mappings_lookup, hybrid_build_mapping_lookup.
  destruct (hybrid_build_state st) as [_ ->].
  destruct (Hybrid.class_mapping st !! c); [done|].
  by destruct (fst <$> _).
Qed.

Lemma balanced_rebuild_repeats (st : Balanced.state) :
  fst (Balanced.build_class_mapping_balanced
         (snd (Balanced.build_class_mapping_balanced st)))
  = fst (Balanced.build_class_mapping_balanced st).
Proof.
  apply map_eq. intros c. rewrite !build_new_mappings_lookup.
  by destruct (build_state st) as [_ ->].
Qed.

(** C4. Rebuilding twice with no observation in between. The hybrid rebuild
    returns an empty [new_mappings] the second time, from every state. The
    balanced rebuild returns the second time what it returned the first
    time: after two observations of class 42 at 82% for "Acorn", both calls
    of [build_class_mapping_balanced] return [{'42': 'acorn'}], so the
    second result is not empty. *)
Theorem rebuild_twice_new_mappings :
  (∀ st : Hybrid.state,
     fst (Hybrid.build_class_mapping_hybrid
            (snd (Hybrid.build_class_mapping_hybrid st))) = ∅) ∧
  (∀ st : Balanced.state,
     fst (Balanced.build_class_mapping_balanced
            (snd (Balanced.build_class_mapping_balanced st)))
     = fst (Balanced.build_class_mapping_balanced st)) ∧
  fst (Balanced.build_class_mapping_balanced Scenario.balanced_two_acorns)
    = {[ "42"%string := "acorn"%string ]} ∧
  fst (Balanced.build_class_mapping_balanced
         (snd (Balanced.build_class_mapping_balanced Scenario.balanced_two_acorns)))
    = {[ "42"%string := "acorn"%string ]} ∧
  fst (Balanced.build_class_mapping_balanced
         (snd (Balanced.build_class_mapping_balanced Scenario.balanced_two_acorns)))
    ≠ ∅.
Proof.
  split; [exact hybrid_rebuild_idempotent|].
  split; [exact balanced_rebuild_repeats|].
  assert (H1 : fst (Balanced.build_class_mapping_balanced
                      Scenario.balanced_two_acorns)
               = {[ "42"%string := "acorn"%string ]}).
  { apply map_eq. intros c. rewrite build_new_mappings_lookup.
    destruct (decide (c = "42"%string)) as [->|Hne].
    - rewrite lookup_singleton_eq. vm_compute. reflexivity.
    - rewrite lookup_singleton_ne by done.
      assert (Balanced.discovered_classes Scenario.balanced_two_acorns !! c = None)
        as ->; [|done].
      destruct (Balanced.discovered_classes Scenario.balanced_two_acorns !! c)
        as [ds|] eqn:E; [|done].
      exfalso. apply Hne.
      assert (c ∈ dom (Balanced.discovered_classes Scenario.balanced_two_acorns))
        as Hd by (apply elem_of_dom; by eexists).
      assert (dom (Balanced.discovered_classes Scenario.balanced_two_acorns)
              = {[ "42"%string ]}) as Hdom.
      { apply (bool_decide_unpack _). vm_compute. exact I. }
      rewrite Hdom in Hd. by apply elem_of_singleton in Hd. }
  split; [exact H1|].
  rewrite balanced_rebuild_repeats, H1. split; [done|].
  intros H. apply (f_equal (λ m : gmap string string, m !! "42"%string)) in H.
  rewrite lookup_singleton_eq, lookup_empty in H. discriminate.
Qed.

(** ** The quality score of a validated class *)

Lemma balanced_rank_1_count_spec (ds : list Balanced.discovery) :
  Balanced.rank_1_count ds
  = length (filter (λ d, Balanced.d_rank d = 1%nat) ds).
Proof.
  unfold Balanced.rank_1_count.
  enough (∀ n, fold_left (λ n d, if (Balanced.d_rank d =? 1)%nat then S n else n) ds n
               = (n + length (filter (λ d, Balanced.d_rank d = 1%nat) ds))%nat) as H
    by apply (H 0%nat).
  induction ds as [|d ds IH]; intros n; simpl; [lia|].
  rewrite IH, filter_cons.
  destruct (Nat.eqb_spec (Balanced.d_rank d) 1); case_decide; simpl; lia.
Qed.

Lemma balanced_high_confidence_count_spec (ds : list Balanced.discovery) :
  Balanced.high_confidence_count ds
  = length (filter (λ d, Qltb 30.0 (Balanced.d_confidence d) = true) ds).
Proof.
  unfold Balanced.high_confidence_count.
  enough (∀ n, fold_left (λ n d, if Qltb 30.0 (Balanced.d_confidence d)
                                 then S n else n) ds n
               = (n + length (filter (λ d, Qltb 30.0 (Balanced.d_confidence d) = true)
                                     ds))%nat) as H
    by apply (H 0%nat).
  induction ds as [|d ds IH]; intros n; simpl; [lia|].
  rewrite IH, filter_cons.
  destruct (Qltb 30.0 (Balanced.d_confidence d)); case_decide; simpl; try done; lia.
Qed.

Lemma hybrid_validate_entry (ds : list Hybrid.discovery) (t : string)
    (e : Hybrid.stats) :
  Hybrid.validate ds = Some (t, e) →
  t = Text.lower (Hybrid.most_common_vocab ds) ∧
  Hybrid.quality_score e
    = Hybrid.avg_confidence_of ds * Hybrid.consistency_ratio_of ds
      * (1 + Hybrid.high_confidence_ratio_of ds) ∧
  Hybrid.vocab_term e = Hybrid.most_common_vocab ds ∧
  Hybrid.evidence_count e = length ds.
Proof.
  unfold Hybrid.validate. destruct ds as [|d ds]; [discriminate|].
  destruct (Hybrid.most_common _); [|discriminate].
  destruct (Hybrid.verdict _); [|discriminate].
  intros H. inversion H; subst. done.
Qed.

(** ** Acceptance by the balanced rebuild, in terms of the observations *)

Section BalancedAcceptance.
Import Balanced.

(** The metrics of [build_class_mapping_balanced], computed from the
    observations. *)
Lemma balanced_metrics_explicit (ds : list discovery) :
  avg_confidence_of ds
  = fold_left Qplus (d_confidence <$> ds) 0 / of_int (length ds) ∧
  consistency_ratio_of ds = of_int (occurrence_count ds) / of_int (length ds) ∧
  rank_1_ratio_of ds
  = of_int (length (filter (λ d, d_rank d = 1%nat) ds)) / of_int (length ds) ∧
  high_confidence_ratio_of ds
  = of_int (length (filter (λ d, 30.0 < d_confidence d) ds))
    / of_int (length ds).
Proof.
  unfold avg_confidence_of, consistency_ratio_of, rank_1_ratio_of,
    high_confidence_ratio_of, total_confidence.
  rewrite fold_left_Qplus_fmap, balanced_rank_1_count_spec,
    balanced_high_confidence_count_spec, filter_Qltb_length. done.
Qed.

(** C1. Balanced validation policy. Let [ds] be the observations recorded
    for a class [c] and [n] their number. [build_class_mapping_balanced]
    returns [c -> t] in [new_mappings] if and only if [t] is the lowercase
    of an expected term [u] that is named by the most observations and for
    which: the sum of the confidences divided by [n] is above 25.0
    ([avg_confidence]), the number of observations naming [u] divided by
    [n] is above 0.5 ([consistency_ratio]), at least 2 observations name
    [u] ([occurrence_count]), and the share of observations at rank 1 is
    above 0.2 or the share of observations with confidence above 30.0 is
    above 0.3. The call installs what it returns: afterwards the table
    maps [c] to the returned term, and holds what it held before for a
    class that is not returned. *)
Theorem balanced_rebuild_accepts_iff (st : state) (c t : string) :
  let ds := default [] (discovered_classes st !! c) in
  let n := of_int (length ds) in
  let named (u : string) := length (filter (λ d, expected_vocab d = u) ds) in
  let avg_confidence := fold_left Qplus (d_confidence <$> ds) 0 / n in
  let rank_1_ratio :=
    of_int (length (filter (λ d, d_rank d = 1%nat) ds)) / n in
  let high_confidence_ratio :=
    of_int (length (filter (λ d, 30.0 < d_confidence d) ds)) / n in
  (fst (build_class_mapping_balanced st) !! c = Some t ↔
   ∃ u, t = Text.lower u ∧
        (∀ u', (named u' ≤ named u)%nat) ∧
        25.0 < avg_confidence ∧
        0.5 < of_int (named u) / n ∧
        (2 ≤ named u)%nat ∧
        (0.2 < rank_1_ratio ∨ 0.3 < high_confidence_ratio)) ∧
  class_mapping (snd (build_class_mapping_balanced st)) !! c
  = match fst (build_class_mapping_balanced st) !! c with
    | Some t' => Some t'
    | None => class_mapping st !! c
    end.
Proof.
  cbv zeta. split.
  - rewrite build_new_mappings_lookup.
    destruct (discovered_classes st !! c) as [ds|] eqn:E; simpl.
    + destruct (balanced_metrics_explicit ds) as (Ha & Hc & Hr & Hh).
      split.
      * intros Ht.
        destruct (validate ds) as [[t0 e]|] eqn:Ev; [|discriminate].
        simpl in Ht. inversion Ht; subst t0.
        destruct (validate_term _ _ _ Ev) as (-> & _).
        assert (validation_passed ds = true) as Hp
          by (apply validate_Some_iff; by eexists).
        unfold validation_passed in Hp.
        rewrite !andb_true_iff, orb_true_iff, !Qltb_lt, Nat.leb_le in Hp.
        destruct Hp as (((H1 & H2) & H3) & H4).
        assert (ds ≠ []) as Hne by (intros ->; discriminate).
        destruct (most_common_spec ds Hne) as (_ & Ho & Hmax).
        exists (most_common_vocab ds). split; [done|].
        rewrite <- Ho, <- Ha, <- Hc, <- Hr, <- Hh. done.
      * intros (u & -> & Hmax & H1 & H2 & H3 & H4).
        assert (ds ≠ []) as Hne by (intros ->; simpl in H3; lia).
        destruct (most_common_spec ds Hne) as (_ & Ho & Hmax').
        assert (u = most_common_vocab ds) as ->.
        { apply (majority_term_unique expected_vocab ds).
          - by apply ratio_gt_half.
          - rewrite <- Ho. apply Hmax'. }
        rewrite <- Ho, <- Ha, <- Hc, <- Hr, <- Hh in *.
        assert (validation_passed ds = true) as Hp.
        { unfold validation_passed.
          rewrite !andb_true_iff, orb_true_iff, !Qltb_lt, Nat.leb_le. done. }
        apply validate_Some_iff in Hp as [[t0 e] Ev]. rewrite Ev. simpl.
        by destruct (validate_term _ _ _ Ev) as (-> & _).
    + split; [discriminate|].
      intros (u & _ & _ & _ & _ & H & _). simpl in H. lia.
  - destruct (build_state st) as [-> _]. rewrite lookup_union.
    by destruct (fst (build_class_mapping_balanced st) !! c),
                (class_mapping st !! c).
Qed.

End BalancedAcceptance.

Section HybridMetrics.
Import Hybrid.

Lemma hybrid_most_common_spec (ds : list discovery) :
  ds ≠ [] →
  is_Some (most_common ds) ∧
  occurrence_count ds
    = length (filter (λ d, expected_vocab d = most_common_vocab ds) ds) ∧
  ∀ t, (length (filter (λ d, expected_vocab d = t) ds) ≤ occurrence_count ds)%nat.
Proof.
  intros Hne. unfold occurrence_count, most_common_vocab, most_common, vocab_counts.
  destruct (fold_incr_spec expected_vocab ds [] (NoDup_nil_2)) as (Hnd & Hnn & Hget).
  specialize (Hnn Hne).
  destruct (Counter.most_common1 _) as [[k n]|] eqn:E.
  - destruct (most_common1_spec _ _ _ Hnd E) as [Hk Hmax]. simpl.
    split; [by eexists|]. split.
    + rewrite <- Hk, Hget. done.
    + intros t. specialize (Hmax t). rewrite Hget in Hmax. simpl in Hmax. lia.
  - exfalso. destruct (fold_left _ _ _); [done | discriminate].
Qed.

Lemma hybrid_high_confidence_count_spec (ds : list discovery) :
  high_confidence_count ds
  = length (filter (λ d, Qltb 50.0 (d_confidence d) = true) ds).
Proof.
  unfold high_confidence_count.
  enough (∀ n, fold_left (λ n d, if Qltb 50.0 (d_confidence d) then S n else n)
                         ds n
               = (n + length (filter (λ d, Qltb 50.0 (d_confidence d) = true)
                                     ds))%nat) as H
    by apply (H 0%nat).
  induction ds as [|d ds IH]; intros n; simpl; [lia|].
  rewrite IH, filter_cons.
  destruct (Qltb 50.0 (d_confidence d)); case_decide; simpl; try done; lia.
Qed.

(** The metrics of [build_class_mapping_hybrid], computed from the
    observations. *)
Lemma hybrid_metrics_explicit (ds : list discovery) :
  avg_confidence_of ds
  = fold_left Qplus (d_confidence <$> ds) 0 / of_int (length ds) ∧
  consistency_ratio_of ds = of_int (occurrence_count ds) / of_int (length ds) ∧
  high_confidence_ratio_of ds
  = of_int (length (filter (λ d, 50.0 < d_confidence d) ds))
    / of_int (length ds).
Proof.
  unfold avg_confidence_of, consistency_ratio_of, high_confidence_ratio_of,
    total_confidence.
  rewrite fold_left_Qplus_fmap, hybrid_high_confidence_count_spec,
    filter_Qltb_length. done.
Qed.

End HybridMetrics.

(** Once a class is mapped, the hybrid analyzer touches neither its
    statistics nor its observations. *)
Lemma hybrid_step_stats_frozen st o c :
  is_Some (Hybrid.class_mapping st !! c) →
  Hybrid.validation_stats (Hybrid.step st o) !! c
  = Hybrid.validation_stats st !! c.
Proof.
  intros [t Hc]. destruct o as [predictions expected|]; simpl.
  - unfold Hybrid.discover_class_mappings_hybrid.
    destruct (Text.truthy expected) as [e|]; [|done].
    generalize (enumerate (take 3 predictions)). intros l.
    revert st Hc. induction l as [|[i p] l IH]; intros st Hc; [done|].
    cbn [fold_left]. rewrite IH by (by apply hybrid_discover_step_monotone).
    destruct (decide (class_idx p = c)) as [<-|Hne].
    + unfold Hybrid.discover_step. by rewrite Hc.
    + by destruct (hybrid_discover_step_other e st i p c Hne) as (_ & -> & _).
  - rewrite hybrid_build_stats_lookup. by rewrite Hc.
Qed.

Lemma hybrid_step_ledger_frozen st o c :
  is_Some (Hybrid.class_mapping st !! c) →
  Hybrid.discovered_classes (Hybrid.step st o) !! c
  = Hybrid.discovered_classes st !! c.
Proof.
  intros [t Hc]. destruct o as [predictions expected|]; simpl.
  - unfold Hybrid.discover_class_mappings_hybrid.
    destruct (Text.truthy expected) as [e|]; [|done].
    generalize (enumerate (take 3 predictions)). intros l.
    revert st Hc. induction l as [|[i p] l IH]; intros st Hc; [done|].
    cbn [fold_left]. rewrite IH by (by apply hybrid_discover_step_monotone).
    destruct (decide (class_idx p = c)) as [<-|Hne].
    + unfold Hybrid.discover_step. by rewrite Hc.
    + by destruct (hybrid_discover_step_other e st i p c Hne) as (_ & _ & ->).
  - by destruct (hybrid_build_state st) as [_ ->].
Qed.

Lemma hybrid_fold_frozen ops :
  ∀ st c t,
    Hybrid.class_mapping st !! c = Some t →
    Hybrid.class_mapping (fold_left Hybrid.step ops st) !! c = Some t ∧
    Hybrid.validation_stats (fold_left Hybrid.step ops st) !! c
    = Hybrid.validation_stats st !! c ∧
    Hybrid.discovered_classes (fold_left Hybrid.step ops st) !! c
    = Hybrid.discovered_classes st !! c.
Proof.
  induction ops as [|o ops IH]; intros st c t Hc; [done|].
  cbn [fold_left].
  destruct (IH (Hybrid.step st o) c t (hybrid_step_monotone st o c t Hc))
    as (-> & -> & ->).
  split; [done|].
  rewrite hybrid_step_stats_frozen, hybrid_step_ledger_frozen by (by eexists).
  done.
Qed.

(** C5, as the code has it. For a class accepted by a rebuild, with [ds] its
    observations, [n] their number and [u] the term of the entry written to
    [validation_stats] (the returned term is its lowercase): the entry's
    [quality_score] is the product of the sum of the confidences divided by
    [n], of the number of observations naming [u] divided by [n], and of a
    last factor. In the balanced policy the last factor is the share of
    observations at rank 1 plus the share of observations with confidence
    above 30.0. In the hybrid policy it is 1 plus the share of observations
    with confidence above 50.0; and there, whatever discovery and rebuild
    calls follow the accepting rebuild, no observation is added for the
    class, and every later rebuild leaves the class out of [new_mappings]
    and keeps its entry and its term. *)
Theorem quality_score_of_validated :
  (∀ (st : Balanced.state) (c t : string),
     fst (Balanced.build_class_mapping_balanced st) !! c = Some t →
     let ds := default [] (Balanced.discovered_classes st !! c) in
     let n := of_int (length ds) in
     let avg_confidence :=
       fold_left Qplus (Balanced.d_confidence <$> ds) 0 / n in
     let rank_1_ratio :=
       of_int (length (filter (λ d, Balanced.d_rank d = 1%nat) ds)) / n in
     let high_confidence_ratio :=
       of_int (length (filter (λ d, 30.0 < Balanced.d_confidence d) ds)) / n in
     ∃ e,
       Balanced.validation_stats (snd (Balanced.build_class_mapping_balanced st))
         !! c = Some e ∧
       t = Text.lower (Balanced.vocab_term e) ∧
       Balanced.quality_score e
       = avg_confidence
         * (of_int (length (filter (λ d, Balanced.expected_vocab d
                                         = Balanced.vocab_term e) ds)) / n)
         * (rank_1_ratio + high_confidence_ratio)) ∧
  (∀ (st : Hybrid.state) (c t : string),
     fst (Hybrid.build_class_mapping_hybrid st) !! c = Some t →
     let ds := default [] (Hybrid.discovered_classes st !! c) in
     let n := of_int (length ds) in
     let avg_confidence :=
       fold_left Qplus (Hybrid.d_confidence <$> ds) 0 / n in
     let high_confidence_ratio :=
       of_int (length (filter (λ d, 50.0 < Hybrid.d_confidence d) ds)) / n in
     ∃ e,
       Hybrid.validation_stats (snd (Hybrid.build_class_mapping_hybrid st))
         !! c = Some e ∧
       t = Text.lower (Hybrid.vocab_term e) ∧
       Hybrid.quality_score e
       = avg_confidence
         * (of_int (length (filter (λ d, Hybrid.expected_vocab d
                                         = Hybrid.vocab_term e) ds)) / n)
         * (1 + high_confidence_ratio) ∧
       ∀ ops,
         let st' :=
           fold_left Hybrid.step ops (snd (Hybrid.build_class_mapping_hybrid st)) in
         Hybrid.discovered_classes st' !! c = Hybrid.discovered_classes st !! c ∧
         fst (Hybrid.build_class_mapping_hybrid st') !! c = None ∧
         Hybrid.validation_stats (snd (Hybrid.build_class_mapping_hybrid st'))
           !! c = Some e ∧
         Hybrid.class_mapping (snd (Hybrid.build_class_mapping_hybrid st'))
           !! c = Some t).
Proof.
  split; intros st c t H; cbv zeta.
  - rewrite build_new_mappings_lookup in H. rewrite build_stats_lookup.
    destruct (Balanced.discovered_classes st !! c) as [ds|]; [|discriminate].
    simpl in *.
    destruct (Balanced.validate ds) as [[t0 e]|] eqn:Ev; [|discriminate].
    simpl in H. inversion H; subst t0. exists e. split; [done|].
    destruct (validate_term _ _ _ Ev) as (Ht & Hq & Hv & _).
    assert (ds ≠ []) as Hne by (intros ->; discriminate).
    destruct (most_common_spec ds Hne) as (_ & Ho & _).
    destruct (balanced_metrics_explicit ds) as (Ha & Hc & Hr & Hh).
    rewrite Hv. split; [done|].
    by rewrite Hq, Hc, Ho, Ha, Hr, Hh.
  - rewrite hybrid_new_mappings_lookup in H.
    assert (Hybrid.class_mapping (snd (Hybrid.build_class_mapping_hybrid st)) !! c
            = Some t) as Hmapped.
    { rewrite hybrid_build_mapping_lookup.
      by destruct (Hybrid.class_mapping st !! c). }
    rewrite hybrid_build_stats_lookup.
    destruct (Hybrid.class_mapping st !! c) as [t1|] eqn:Em; [discriminate|].
    destruct (Hybrid.discovered_classes st !! c) as [ds|] eqn:Ed; [|discriminate].
    simpl in *.
    destruct (Hybrid.validate ds) as [[t0 e]|] eqn:Ev; [|discriminate].
    simpl in H. inversion H; subst t0. simpl. exists e. split; [done|].
    destruct (hybrid_validate_entry _ _ _ Ev) as (Ht & Hq & Hv & _).
    assert (ds ≠ []) as Hne by (intros ->; discriminate).
    destruct (hybrid_most_common_spec ds Hne) as (_ & Ho & _).
    destruct (hybrid_metrics_explicit ds) as (Ha & Hc & Hh).
    rewrite Hv. split; [done|]. split; [by rewrite Hq, Hc, Ho, Ha, Hh|].
    intros ops.
    destruct (hybrid_fold_frozen ops _ c t Hmapped) as (Hm' & Hs' & Hd').
    rewrite hybrid_new_mappings_lookup, hybrid_build_stats_lookup,
      hybrid_build_mapping_lookup, Hm', Hs', Hd'.
    destruct (hybrid_build_state st) as [_ ->]. rewrite Ed.
    split; [done|]. split; [done|]. split; [|done].
    rewrite hybrid_build_stats_lookup, Em, Ed. simpl. by rewrite Ev.
Qed.

Lemma quality_score_of_validated_witness :
  (∃ e,
     Balanced.validation_stats
       (snd (Balanced.build_class_mapping_balanced Scenario.balanced_two_acorns))
       !! "42"%string = Some e ∧
     Balanced.quality_score e == 164) ∧
  (∃ e,
     Hybrid.validation_stats
       (snd (Hybrid.build_class_mapping_hybrid Scenario.hybrid_two_moderate))
       !! "42"%string = Some e ∧
     Hybrid.quality_score e == 40 ∧
     fst (Hybrid.build_class_mapping_hybrid
            (fold_left Hybrid.step
               [Hybrid.Discover Scenario.acorn_cell (Some "Aloe"%string);
                Hybrid.Build;
                Hybrid.Discover Scenario.moderate_cell (Some "Acorn"%string)]
               (snd (Hybrid.build_class_mapping_hybrid
                       Scenario.hybrid_two_moderate))))
       !! "42"%string = None).
Proof.
  split.
  - destruct (proj1 quality_score_of_validated Scenario.balanced_two_acorns
                "42"%string "acorn"%string ltac:(vm_compute; reflexivity))
      as (e & He & _ & Hq).
    exists e. split; [exact He|].
    vm_compute in He. inversion He as [He']. subst e.
    rewrite Hq. vm_compute. reflexivity.
  - destruct (proj2 quality_score_of_validated Scenario.hybrid_two_moderate
                "42"%string "aloe"%string ltac:(vm_compute; reflexivity))
      as (e & He & _ & Hq & Hlater).
    exists e. split; [exact He|]. split.
    + vm_compute in He. inversion He as [He']. subst e.
      rewrite Hq. vm_compute. reflexivity.
    + apply (Hlater [Hybrid.Discover Scenario.acorn_cell (Some "Aloe"%string);
                     Hybrid.Build;
                     Hybrid.Discover Scenario.moderate_cell
                       (Some "Acorn"%string)]).
Defined.

(** The formula with [rank_1_ratio] in place of 1 fails in the hybrid
    policy: after two observations of class 42 at 40% and rank 2 for "Aloe",
    the rebuild accepts the class with [quality_score] 40, where the formula
    gives 0. *)
Lemma hybrid_quality_score_counterexample :
  ∃ ds e,
    Hybrid.discovered_classes Scenario.hybrid_two_moderate !! "42"%string = Some ds ∧
    fst (Hybrid.build_class_mapping_hybrid Scenario.hybrid_two_moderate)
      !! "42"%string = Some "aloe"%string ∧
    Hybrid.validation_stats
      (snd (Hybrid.build_class_mapping_hybrid Scenario.hybrid_two_moderate))
      !! "42"%string = Some e ∧
    Hybrid.quality_score e == 40 ∧
    Hybrid.avg_confidence_of ds * Hybrid.consistency_ratio_of ds
      * (Hybrid.rank_1_ratio_of ds + Hybrid.high_confidence_ratio_of ds) == 0 ∧
    ¬ Hybrid.quality_score e
      == Hybrid.avg_confidence_of ds * Hybrid.consistency_ratio_of ds
         * (Hybrid.rank_1_ratio_of ds + Hybrid.high_confidence_ratio_of ds).
Proof.
  eexists _, _.
  split; [vm_compute; reflexivity|].
  split; [vm_compute; reflexivity|].
  split; [vm_compute; reflexivity|].
  split; [vm_compute; reflexivity|].
  split; [vm_compute; reflexivity|].
  vm_compute. discriminate.
Qed.

(** ** The quadrants tile the image *)

Section GridFacts.
Import Grid.
Local Open Scope Z_scope.

Lemma half_bounds (n : Z) : 0 ≤ n → 0 ≤ n / 2 ∧ n / 2 ≤ n ∧ n = 2 * (n / 2) + n mod 2.
Proof.
  intros Hn. pose proof (Z.div_mod n 2 ltac:(lia)).
  pose proof (Z.mod_pos_bound n 2 ltac:(lia)). lia.
Qed.

Lemma half_neg (n : Z) : n < 0 → n / 2 < 0 ∧ n ≤ n / 2.
Proof.
  intros Hn. pose proof (Z.div_mod n 2 ltac:(lia)).
  pose proof (Z.mod_pos_bound n 2 ltac:(lia)). lia.
Qed.

(** Along one axis: a coordinate of [[0, n)] lies in exactly one of the two
    halves [[0, n/2)] and [[n/2, n)], and a coordinate outside lies in
    neither. *)
Lemma halves_split (n x : Z) :
  ((0 <=? x) && (x <? n / 2) = true ∧ (n / 2 <=? x) && (x <? n) = false ∧
      (0 <=? x) && (x <? n) = true) ∨
  ((0 <=? x) && (x <? n / 2) = false ∧ (n / 2 <=? x) && (x <? n) = true ∧
      (0 <=? x) && (x <? n) = true) ∨
  ((0 <=? x) && (x <? n / 2) = false ∧ (n / 2 <=? x) && (x <? n) = false ∧
      (0 <=? x) && (x <? n) = false).
Proof.
  destruct (Z.lt_ge_cases n 0) as [Hn|Hn].
  - destruct (half_neg n Hn). right. right.
    repeat split; apply andb_false_iff; lia.
  - destruct (half_bounds n Hn) as (H0 & H1 & _).
    destruct (Z.lt_ge_cases x 0); [right; right|].
    { repeat split; apply andb_false_iff; lia. }
    destruct (Z.lt_ge_cases x (n / 2)); [left|].
    { repeat split; try (apply andb_true_iff; lia). apply andb_false_iff; lia. }
    destruct (Z.lt_ge_cases x n); [right; left | right; right].
    + repeat split; try (apply andb_true_iff; lia). apply andb_false_iff; lia.
    + repeat split; apply andb_false_iff; lia.
Qed.

(** C7. For every width and height and every pixel [(x, y)]: a pixel of the
    image [[0,W) x [0,H)] lies in exactly one of the four crop boxes, a pixel
    outside lies in none (no gap, no overlap, nothing outside the image);
    and the left and top cells have size [W // 2] and [H // 2], the odd
    pixel of an odd dimension going to the right and bottom cells. *)
Theorem quadrants_tile (width height : Z) :
  (∀ x y, length (cells_at width height x y)
          = if in_image width height x y then 1%nat else 0%nat) ∧
  map (λ nb, (fst nb, box_width (snd nb), box_height (snd nb)))
      (grid_boxes width height)
  = [ ("top_left"%string,     width / 2,             height / 2);
      ("top_right"%string,    width / 2 + width mod 2, height / 2);
      ("bottom_left"%string,  width / 2,             height / 2 + height mod 2);
      ("bottom_right"%string, width / 2 + width mod 2,
                              height / 2 + height mod 2) ] ∧
  0 ≤ width mod 2 ≤ 1 ∧ 0 ≤ height mod 2 ≤ 1.
Proof.
  split; [|split].
  - intros x y. unfold cells_at, in_image, grid_boxes, in_box.
    rewrite !filter_cons, filter_nil. cbn [snd fst].
    destruct (halves_split width x) as [(E1 & E2 & E3)|[(E1 & E2 & E3)|(E1 & E2 & E3)]];
    destruct (halves_split height y) as [(F1 & F2 & F3)|[(F1 & F2 & F3)|(F1 & F2 & F3)]];
      rewrite <- !andb_assoc;
      rewrite ?(andb_assoc (0 <=? x)), ?(andb_assoc (width / 2 <=? x));
      rewrite ?E1, ?E2, ?E3; cbn [andb];
      rewrite ?F1, ?F2, ?F3; repeat case_decide; try discriminate; try done.
  - unfold grid_boxes, box_width, box_height. cbn [map fst snd].
    pose proof (Z.div_mod width 2 ltac:(lia)).
    pose proof (Z.div_mod height 2 ltac:(lia)).
    repeat f_equal; lia.
  - pose proof (Z.mod_pos_bound width 2 ltac:(lia)).
    pose proof (Z.mod_pos_bound height 2 ltac:(lia)). lia.
Qed.

End GridFacts.

(** ** Lowercase terms *)

Lemma lower_ascii_idempotent (c : ascii) :
  Text.lower_ascii (Text.lower_ascii c) = Text.lower_ascii c.
Proof.
  destruct c as [[] [] [] [] [] [] [] []]; reflexivity.
Qed.

Lemma lower_idempotent (s : string) : Text.lower (Text.lower s) = Text.lower s.
Proof.
  induction s as [|c s IH]; simpl; [done|].
  by rewrite lower_ascii_idempotent, IH.
Qed.

Lemma lower_empty_iff (s : string) : Text.lower s = EmptyString ↔ s = EmptyString.
Proof. destruct s; simpl; split; congruence. Qed.

Section LowercaseTable.




End LowercaseTable.

Section CorrectDetection.
Import Batch HybridRun.



Lemma is_correct_true_iff expected_vocab vocab_term :
  is_correct expected_vocab vocab_term = true ↔
  ∃ e, expected_vocab = Some e ∧ e ≠ EmptyString ∧
       Text.lower vocab_term = Text.lower e.
Proof.
  unfold is_correct. destruct expected_vocab as [[|a e]|]; simpl.
  - split; [discriminate|]. intros (e & H & Hne & _). congruence.
  - rewrite String.eqb_eq. split.
    + intros H. by exists (String a e).
    + intros (e' & H & _ & H'). by inversion H; subst.
  - split; [discriminate|]. intros (e & H & _). discriminate.
Qed.


End CorrectDetection.

(** ** Images whose vocabulary index is out of range *)

Section OutOfRange.
Import Batch HybridRun.

Variable image : Type.
Variable download : Z → string + image.
Variable size : image → Z * Z.
Variable crop : image → Grid.box → image.
Variable predict : image → list prediction.

Lemma expected_vocab_at_ge (vocab_terms : list string) (i : Z) :
  (Z.of_nat (length vocab_terms) ≤ i - 4)%Z →
  expected_vocab_at vocab_terms i = Some None.
Proof.
  intros H. unfold expected_vocab_at.
  destruct (Z.ltb_spec (i - 4) (Z.of_nat (length vocab_terms))); [lia|done].
Qed.

(** Without an expected term the loop over the cells records nothing and
    never sets the correct-detection flag. *)
Lemma cells_without_expected (cells : list (string * image)) :
  ∀ acc,
    Hybrid.class_mapping
      (mapping (a_self (fold_left (cell_step image predict None) cells acc)))
      = Hybrid.class_mapping (mapping (a_self acc)) ∧
    Hybrid.discovered_classes
      (mapping (a_self (fold_left (cell_step image predict None) cells acc)))
      = Hybrid.discovered_classes (mapping (a_self acc)) ∧
    Hybrid.validation_stats
      (mapping (a_self (fold_left (cell_step image predict None) cells acc)))
      = Hybrid.validation_stats (mapping (a_self acc)) ∧
    results (a_self (fold_left (cell_step image predict None) cells acc))
      = results (a_self acc) ∧
    a_correct (fold_left (cell_step image predict None) cells acc)
      = a_correct acc.
Proof.
  induction cells as [|[position cell_image] cells IH]; intros acc; [done|].
  cbn [fold_left]. destruct (IH (cell_step image predict None acc
                                   (position, cell_image)))
    as (-> & -> & -> & -> & ->).
  unfold cell_step. cbn.
  repeat split; try done.
  assert (∀ l, existsb (λ m, is_correct None (m_vocab_term m)) l = false) as ->.
  { induction l; simpl; done. }
  apply orb_false_r.
Qed.

(** The same for the loop of [run_balanced_test]. *)
Lemma balanced_cells_without_expected (cells : list (string * image)) :
  ∀ acc,
    BalancedRun.a_self
      (fold_left (BalancedRun.cell_step image predict None) cells acc)
      = BalancedRun.a_self acc ∧
    BalancedRun.a_correct
      (fold_left (BalancedRun.cell_step image predict None) cells acc)
      = BalancedRun.a_correct acc.
Proof.
  induction cells as [|[position cell_image] cells IH]; intros acc; [done|].
  cbn [fold_left].
  destruct (IH (BalancedRun.cell_step image predict None acc
                  (position, cell_image))) as (-> & ->).
  unfold BalancedRun.cell_step, BalancedRun.analyze_grid_cell_balanced. cbn.
  split; [done|].
  assert (∀ l, existsb (λ m, is_correct None (BalancedRun.m_vocab_term m)) l
               = false) as ->.
  { induction l; simpl; done. }
  apply orb_false_r.
Qed.

End OutOfRange.

Section OutOfRangeIndex.
Import Batch HybridRun.

(** C9, as the code has it. When the vocabulary index [i - 4] of image [i]
    is at or beyond the end of the vocabulary list, the expected term is
    [None] and the image is analysed like any other, in the hybrid and in
    the balanced loop: the loop goes on, the result of the image is
    appended, it is a failure only if the download fails, and otherwise a
    success result with no expected term and [has_correct_detection] false;
    the analysis records no observation and no mapping, and the rebuild that
    follows (after every image in the hybrid loop, after every fourth in the
    balanced one) runs on the mapping state as it was before the image. In
    the balanced loop the image does not count in [total_expected] nor in
    [correct_detections]. *)
Theorem out_of_range_defaults_to_none
    (image : Type) (download : Z → string + image) (size : image → Z * Z)
    (crop : image → Grid.box → image) (predict : image → list prediction)
    (vocab_terms : list string) (i : Z) :
  (Z.of_nat (length vocab_terms) ≤ i - 4)%Z →
  expected_vocab_at vocab_terms i = Some None ∧
  (∀ self : analyzer,
   ∃ self' r,
    run_step image download size crop predict vocab_terms (Some self) i
      = Some self' ∧
    results self' = results self ++ [r] ∧
    mapping self' = snd (Hybrid.build_class_mapping_hybrid (mapping self)) ∧
    match download i with
    | inl error => r = Failure i error
    | inr _ => ∃ grid_results any, r = Success i None grid_results false any
    end) ∧
  (∀ rs : BalancedRun.run_state,
   ∃ rs' r,
    BalancedRun.run_step image download size crop predict vocab_terms
                         (Some rs) i = Some rs' ∧
    BalancedRun.results rs' = BalancedRun.results rs ++ [r] ∧
    BalancedRun.self rs'
      = (if (i mod 4 =? 0)%Z
         then snd (Balanced.build_class_mapping_balanced (BalancedRun.self rs))
         else BalancedRun.self rs) ∧
    BalancedRun.total_expected rs' = BalancedRun.total_expected rs ∧
    BalancedRun.correct_detections rs' = BalancedRun.correct_detections rs ∧
    match download i with
    | inl error => r = BalancedRun.Failure i error
    | inr _ =>
        ∃ grid_results any,
          r = BalancedRun.Success i None grid_results false any
    end).
Proof.
  intros Hi. pose proof (expected_vocab_at_ge vocab_terms i Hi) as He.
  split; [exact He|]. split.
  - intros self. unfold run_step. rewrite He. unfold analyze_image_hybrid.
    destruct (download i) as [error|full_image].
    + eexists _, _. split; [reflexivity|]. cbn. done.
    + destruct (size full_image) as [width height].
      set (cells := map _ (Grid.grid_boxes width height)).
      set (acc0 := {| a_self := self; a_grid_results := [];
                      a_correct := false; a_any := false |}).
      destruct (cells_without_expected image predict cells acc0)
        as (Hm & Hd & Hs & Hr & Hc).
      set (acc := fold_left _ cells acc0) in *. clearbody acc cells.
      subst acc0. cbn [a_self a_correct] in *.
      eexists _, _. split; [reflexivity|]. cbn.
      split; [by rewrite Hr|]. split.
      * f_equal. destruct (mapping (a_self acc)) as [m d v].
        destruct (mapping self) as [m0 d0 v0]. simpl in *. congruence.
      * eexists _, _. by rewrite Hc.
  - intros rs. unfold BalancedRun.run_step. rewrite He.
    destruct (download i) as [error|full_image].
    + eexists _, _. split; [reflexivity|].
      destruct (i mod 4 =? 0)%Z; cbn; done.
    + destruct (size full_image) as [width height].
      set (cells := map _ (Grid.grid_boxes width height)).
      set (acc0 := BalancedRun.Build_cells_acc _ _ _ _ _).
      destruct (balanced_cells_without_expected image predict cells acc0)
        as (Hs & Hc).
      set (acc := fold_left _ cells acc0) in *. clearbody acc cells.
      subst acc0. cbn [BalancedRun.a_self BalancedRun.a_correct] in *.
      eexists _, _. split; [reflexivity|].
      rewrite Hs, Hc.
      destruct (i mod 4 =? 0)%Z; cbn; repeat split; try done; by eexists _, _.
Qed.

Lemma out_of_range_defaults_to_none_witness :
  expected_vocab_at ["Acorn"%string] 5 = Some None ∧
  (∃ self' r,
     run_step unit (λ _, inr tt) (λ _, (2, 2)%Z) (λ im _, im)
              (λ _, Scenario.acorn_cell) ["Acorn"%string] (Some new_analyzer) 5
       = Some self' ∧
     results self' = [r] ∧
     ∃ grid_results any, r = Success 5 None grid_results false any) ∧
  (∃ rs' r,
     BalancedRun.run_step unit (λ _, inr tt) (λ _, (2, 2)%Z) (λ im _, im)
              (λ _, Scenario.acorn_cell) ["Acorn"%string]
              (Some BalancedRun.new_run) 5
       = Some rs' ∧
     BalancedRun.results rs' = [r] ∧
     BalancedRun.total_expected rs' = 0%nat ∧
     ∃ grid_results any, r = BalancedRun.Success 5 None grid_results false any).
Proof.
  destruct (out_of_range_defaults_to_none unit (λ _, inr tt) (λ _, (2, 2)%Z)
              (λ im _, im) (λ _, Scenario.acorn_cell) ["Acorn"%string]
              5 ltac:(simpl; lia))
    as (He & HH & HB).
  split; [exact He|]. split.
  - destruct (HH new_analyzer) as (self' & r & H1 & H2 & _ & H3).
    exists self', r. split; [exact H1|]. split; [exact H2|]. exact H3.
  - destruct (HB BalancedRun.new_run) as (rs' & r & H1 & H2 & _ & H3 & _ & H4).
    exists rs', r. split; [exact H1|]. split; [exact H2|].
    split; [exact H3|]. exact H4.
Defined.

(** With the one-term vocabulary ["Acorn"] and a classifier that reports
    class 42 at 82% in every cell, the runs over images 4 and 5 do not skip
    image 5, whose index 1 is out of range: its result is a success with no
    expected term, it has detections (class 42 was mapped on image 4), and
    no failure is recorded for it. *)
Lemma out_of_range_image_is_analysed :
  (∃ self' g4 g5,
     run_hybrid_analysis unit (λ _, inr tt) (λ _, (2, 2)%Z) (λ im _, im)
                         (λ _, Scenario.acorn_cell) ["Acorn"%string]
                         new_analyzer 4 5
       = Some self' ∧
     results self' = [ Success 4 (Some "Acorn"%string) g4 true true;
                       Success 5 None g5 false true ] ∧
     ¬ ∃ reason, Failure 5 reason ∈ results self') ∧
  (∃ rs' g4 g5,
     BalancedRun.run_balanced_test unit (λ _, inr tt) (λ _, (2, 2)%Z)
                         (λ im _, im) (λ _, Scenario.acorn_cell)
                         ["Acorn"%string] BalancedRun.new_run 4 5
       = Some rs' ∧
     BalancedRun.results rs'
       = [ BalancedRun.Success 4 (Some "Acorn"%string) g4 false false;
           BalancedRun.Success 5 None g5 false true ] ∧
     ¬ ∃ reason, BalancedRun.Failure 5 reason ∈ BalancedRun.results rs').
Proof.
  split.
  - eexists _, _, _. split; [vm_compute; reflexivity|].
    split; [reflexivity|].
    intros (reason & H). cbn [results] in H.
    apply elem_of_cons in H as [H|H]; [discriminate|].
    apply elem_of_cons in H as [H|H]; [discriminate|]. inversion H.
  - eexists _, _, _. split; [vm_compute; reflexivity|].
    split; [reflexivity|].
    intros (reason & H). cbn [BalancedRun.results] in H.
    apply elem_of_cons in H as [H|H]; [discriminate|].
    apply elem_of_cons in H as [H|H]; [discriminate|]. inversion H.
Qed.

End OutOfRangeIndex.

(** ** The string-label matcher *)

Section StringMatchFacts.
Import StringMatch.

Variable sequence_matcher_ratio : string → string → Q.
Variable vocab_list : list string.

Local Abbreviation score := (term_score sequence_matcher_ratio).
Local Abbreviation best_so_far := (best_so_far sequence_matcher_ratio).

Lemma best_step_spec class_name threshold seen best v :
  best_so_far class_name threshold seen best →
  best_so_far class_name threshold (seen ++ [v])
              (best_step sequence_matcher_ratio class_name threshold best v).
Proof.
  intros [HN HS]. unfold best_step.
  destruct (Qltb (snd best) (score class_name v)
            && Qle_bool threshold (score class_name v)) eqn:E.
  - (* the new term becomes the best *)
    apply andb_prop in E as [Elt Ele].
    apply Qltb_lt in Elt. apply Qle_bool_iff in Ele.
    assert (∀ v', v' ∈ seen → threshold <= score class_name v' →
                  score class_name v' < score class_name v) as Hbelow.
    { intros v' Hv' Hth. destruct (fst best) as [b|] eqn:Eb.
      - destruct (HS b eq_refl) as (_ & _ & _ & _ & Hmax & _).
        eapply Qle_lt_trans; [by apply Hmax | done].
      - destruct (HN eq_refl) as [H0 Hno]. rewrite H0 in Elt.
        destruct (Qlt_le_dec 0 (score class_name v')) as [Hp|Hp].
        + exfalso. by apply (Hno v' Hv').
        + eapply Qle_lt_trans; eauto. }
    assert (0 < score class_name v) as Hpos.
    { destruct (fst best) as [b|] eqn:Eb.
      - destruct (HS b eq_refl) as (_ & _ & H0 & _). eapply Qlt_trans; eauto.
      - destruct (HN eq_refl) as [H0 _]. by rewrite H0 in Elt. }
    split; [discriminate|]. simpl. intros b Hb. inversion Hb; subst b.
    split; [apply elem_of_app; right; left|]. split; [done|].
    split; [done|]. split; [done|]. split.
    + intros v' [Hv' | ->%list_elem_of_singleton]%elem_of_app Hth;
        [apply Qlt_le_weak; by apply Hbelow | apply Qle_refl].
    + exists seen, []. split; [done|]. exact Hbelow.
  - (* the best is kept *)
    assert (threshold <= score class_name v →
            score class_name v <= snd best) as Hv.
    { intros Hth. apply Qnot_lt_le. intros Hlt.
      apply Qltb_lt in Hlt. apply Qle_bool_iff in Hth.
      rewrite Hlt, Hth in E. discriminate. }
    split.
    + intros Hn. destruct (HN Hn) as [H0 Hno]. split; [done|].
      intros v' [Hv' | ->%list_elem_of_singleton]%elem_of_app; [by apply Hno|].
      intros [Hp Hth]. specialize (Hv Hth). rewrite H0 in Hv.
      by apply Qle_not_lt in Hv.
    + intros b Hb.
      destruct (HS b Hb) as (Hin & Hs & H0 & Hth & Hmax & l1 & l2 & Hsplit & Hfirst).
      split; [apply elem_of_app; by left|]. split; [done|].
      split; [done|]. split; [done|]. split.
      * intros v' [Hv' | ->%list_elem_of_singleton]%elem_of_app Hth';
          [by apply Hmax | by apply Hv].
      * exists l1, (l2 ++ [v]). split; [|done].
        rewrite Hsplit. by rewrite <- app_assoc.
Qed.

Lemma best_fold_spec class_name threshold (l : list string) :
  ∀ seen best,
    best_so_far class_name threshold seen best →
    best_so_far class_name threshold (seen ++ l)
      (fold_left (best_step sequence_matcher_ratio class_name threshold) l best).
Proof.
  induction l as [|v l IH]; intros seen best H; simpl.
  - by rewrite app_nil_r.
  - replace (seen ++ v :: l) with ((seen ++ [v]) ++ l) by (by rewrite <- app_assoc).
    apply IH. by apply best_step_spec.
Qed.

Lemma best_of_spec class_name threshold :
  best_so_far class_name threshold vocab_list
              (best_of sequence_matcher_ratio vocab_list class_name threshold).
Proof.
  unfold best_of.
  apply (best_fold_spec class_name threshold vocab_list [] (None, 0)).
  split; simpl; [|discriminate].
  intros _. split; [done|]. intros v H. inversion H.
Qed.

Lemma find_vocab_matches_omap (predictions : list prediction) (threshold : Q) :
  _find_vocab_matches sequence_matcher_ratio vocab_list predictions threshold
  = omap (match_of sequence_matcher_ratio vocab_list threshold) predictions.
Proof.
  unfold _find_vocab_matches.
  enough (∀ acc,
            fold_left (λ matches pred,
                         match match_of sequence_matcher_ratio vocab_list
                                        threshold pred with
                         | Some m => matches ++ [m]
                         | None => matches
                         end) predictions acc
            = acc ++ omap (match_of sequence_matcher_ratio vocab_list threshold)
                          predictions) as H by apply (H []).
  induction predictions as [|p l IH]; intros acc; simpl.
  - by rewrite app_nil_r.
  - rewrite IH. destruct (match_of _ _ _ p); [|done].
    by rewrite <- app_assoc.
Qed.

End StringMatchFacts.

Section StringMatchOrder.
Import StringMatch.

Lemma mem_true_iff (word : string) (words : list string) :
  mem word words = true ↔ word ∈ words.
Proof.
  unfold mem. rewrite existsb_exists. split.
  - intros (w & Hin & Heq). apply String.eqb_eq in Heq. subst w.
    by apply list_elem_of_In.
  - intros Hin. exists word. split; [by apply list_elem_of_In|].
    apply String.eqb_refl.
Qed.

Lemma shares_word_iff (a b : string) :
  existsb (λ word, mem word (split a)) (split b)
  || existsb (λ word, mem word (split b)) (split a) = true ↔
  ∃ word, word ∈ split a ∧ word ∈ split b.
Proof.
  rewrite orb_true_iff, !existsb_exists. split.
  - intros [(w & Hin & Hm)|(w & Hin & Hm)]; exists w;
      apply mem_true_iff in Hm; apply list_elem_of_In in Hin; done.
  - intros (w & Ha & Hb). left. exists w.
    split; [by apply list_elem_of_In | by apply mem_true_iff].
Qed.

(** C8, as the code has it. With both strings lowercased, the score of a
    vocabulary term against a class name is 1.0 when they are equal, else
    0.8 when one contains the other, else 0.6 when they share a word, else
    the [SequenceMatcher] ratio. Each prediction is treated on its own: it
    yields at most one match, for the first vocabulary term of maximal score
    among those whose score meets the threshold (and is positive), and no
    match when there is none or when that term is the empty string. The
    matches come in the order of the predictions; they are not sorted. *)
Theorem find_vocab_matches_spec
    (sequence_matcher_ratio : string → string → Q) (vocab_list : list string) :
  (∀ cn v,
     (Text.lower v = cn → term_score sequence_matcher_ratio cn v = 1.0) ∧
     (Text.lower v ≠ cn →
      contains (Text.lower v) cn = true ∨ contains cn (Text.lower v) = true →
      term_score sequence_matcher_ratio cn v = 0.8) ∧
     (Text.lower v ≠ cn →
      contains (Text.lower v) cn = false → contains cn (Text.lower v) = false →
      (∃ word, word ∈ split cn ∧ word ∈ split (Text.lower v)) →
      term_score sequence_matcher_ratio cn v = 0.6) ∧
     (Text.lower v ≠ cn →
      contains (Text.lower v) cn = false → contains cn (Text.lower v) = false →
      (¬ ∃ word, word ∈ split cn ∧ word ∈ split (Text.lower v)) →
      term_score sequence_matcher_ratio cn v
      = sequence_matcher_ratio (Text.lower cn) (Text.lower v))) ∧
  (∀ predictions threshold,
     _find_vocab_matches sequence_matcher_ratio vocab_list predictions threshold
     = omap (match_of sequence_matcher_ratio vocab_list threshold) predictions) ∧
  (∀ threshold p m,
     match_of sequence_matcher_ratio vocab_list threshold p = Some m →
     m_prediction m = p ∧
     vocab_term m ≠ EmptyString ∧
     match_score m
       = term_score sequence_matcher_ratio (Text.lower (class_name p))
                    (vocab_term m) ∧
     0 < match_score m ∧ threshold <= match_score m ∧
     (∀ v, v ∈ vocab_list →
           threshold <= term_score sequence_matcher_ratio
                                   (Text.lower (class_name p)) v →
           term_score sequence_matcher_ratio (Text.lower (class_name p)) v
           <= match_score m) ∧
     ∃ before after,
       vocab_list = before ++ vocab_term m :: after ∧
       ∀ v, v ∈ before →
            threshold <= term_score sequence_matcher_ratio
                                    (Text.lower (class_name p)) v →
            term_score sequence_matcher_ratio (Text.lower (class_name p)) v
            < match_score m) ∧
  (∀ threshold p,
     match_of sequence_matcher_ratio vocab_list threshold p = None →
     (∀ v, v ∈ vocab_list →
           ¬ (0 < term_score sequence_matcher_ratio
                             (Text.lower (class_name p)) v ∧
              threshold <= term_score sequence_matcher_ratio
                                      (Text.lower (class_name p)) v)) ∨
     fst (best_of sequence_matcher_ratio vocab_list
                  (Text.lower (class_name p)) threshold) = Some EmptyString).
Proof.
  split; [|split; [|split]].
  - intros cn v. unfold term_score.
    destruct (String.eqb_spec (Text.lower v) cn) as [Heq|Hne].
    { repeat split; intros; done. }
    split; [done|].
    destruct (contains (Text.lower v) cn || contains cn (Text.lower v)) eqn:Ec.
    { split; [done|]. apply orb_true_iff in Ec.
      split; intros _ H1 H2; destruct Ec; congruence. }
    apply orb_false_iff in Ec as [E1 E2].
    split; [intros _ [?|?]; congruence|].
    destruct (existsb _ _ || existsb _ _) eqn:Ew.
    + apply shares_word_iff in Ew. split; [done|]. intros _ _ _ H. by destruct H.
    + split.
      * intros _ _ _ H. apply shares_word_iff in H. congruence.
      * intros _ _ _ _. unfold _similarity_score. by rewrite lower_idempotent.
  - apply find_vocab_matches_omap.
  - intros threshold p m H. unfold match_of in H.
    pose proof (best_of_spec sequence_matcher_ratio vocab_list
                  (Text.lower (class_name p)) threshold) as [_ HS].
    destruct (best_of _ _ _ _) as [[b|] s]; [|discriminate].
    destruct (String.eqb_spec b "") as [->|Hb]; [discriminate|].
    inversion H; subst m. simpl in *.
    destruct (HS b eq_refl) as (_ & Hs & H0 & Hth & Hmax & Hfirst).
    rewrite <- Hs. done.
  - intros threshold p H. unfold match_of in H.
    pose proof (best_of_spec sequence_matcher_ratio vocab_list
                  (Text.lower (class_name p)) threshold) as [HN _].
    destruct (best_of _ _ _ _) as [[b|] s]; simpl in *.
    + destruct (String.eqb_spec b "") as [->|Hb]; [by right | discriminate].
    + left. by destruct (HN eq_refl).
Qed.

(** The match list need not be sorted: with the vocabulary ["apple"], the
    predictions "Apple pie" then "APPLE" give the match scores 0.8 then 1.0,
    whatever the similarity function, and this list is not in descending
    order. *)
Lemma find_vocab_matches_not_sorted :
  (∀ ratio,
     map match_score
         (_find_vocab_matches ratio ["apple"%string]
            [ {| class_name := "Apple pie"; confidence := 0.5; rank := 1 |};
              {| class_name := "APPLE"; confidence := 0.4; rank := 2 |} ] 0.3)
     = [0.8; 1.0]) ∧
  descending [0.8; 1.0] = false.
Proof.
  split; [intros ratio|]; vm_compute; reflexivity.
Qed.

End StringMatchOrder.

(** ** Both sides of the discovery threshold *)

Example balanced_threshold_at_20_not_recorded :
  Balanced.discovered_classes
    (Balanced.discover_class_mappings_balanced
       Balanced.init (Scenario.cell_at 20) (Some "Acorn"%string))
    !! "42"%string = None.
Proof. vm_compute. reflexivity. Qed.

Example balanced_threshold_at_21_recorded :
  length <$>
    Balanced.discovered_classes
      (Balanced.discover_class_mappings_balanced
         Balanced.init (Scenario.cell_at 21) (Some "Acorn"%string))
      !! "42"%string = Some 1%nat.
Proof. vm_compute. reflexivity. Qed.

Example hybrid_threshold_at_70_not_immediate :
  Hybrid.class_mapping
    (Hybrid.discover_class_mappings_hybrid
       Hybrid.init (Scenario.cell_at 70) (Some "Acorn"%string))
    !! "42"%string = None.
Proof. vm_compute. reflexivity. Qed.

(** ** The general statements at concrete inputs *)

(** The balanced acceptance condition at concrete inputs: two observations of class 42 at 82% for "Acorn"
    are accepted as "acorn"; two observations at 22% are rejected on the
    average alone, two for "Acorn" against two for "Aloe" on the
    consistency alone, and two observations at 28% and rank 2 on the
    rank-1 / high-confidence test alone. *)
Lemma balanced_rebuild_accepts_iff_witness :
  fst (Balanced.build_class_mapping_balanced Scenario.balanced_two_acorns)
    !! "42"%string = Some "acorn"%string ∧
  fst (Balanced.build_class_mapping_balanced Scenario.balanced_low_average)
    !! "42"%string = None ∧
  fst (Balanced.build_class_mapping_balanced Scenario.balanced_split_terms)
    !! "42"%string = None ∧
  fst (Balanced.build_class_mapping_balanced Scenario.balanced_second_place)
    !! "42"%string = None.
Proof.
  split; [|split; [|split]].
  - apply (proj1 (balanced_rebuild_accepts_iff Scenario.balanced_two_acorns
                    "42"%string "acorn"%string)).
    exists "Acorn"%string.
    set (ds := default [] _).
    let x := eval vm_compute in ds in change ds with x. clear ds.
    split; [reflexivity|]. split.
    { intros u'. etrans; [apply length_filter|]. vm_compute. lia. }
    vm_compute. repeat split; try reflexivity; try lia. left. reflexivity.
  - destruct (fst (Balanced.build_class_mapping_balanced
                     Scenario.balanced_low_average) !! "42"%string)
      as [t|] eqn:E; [|reflexivity].
    exfalso.
    apply (proj1 (balanced_rebuild_accepts_iff _ _ _)) in E
      as (u & _ & _ & H & _).
    vm_compute in H. discriminate H.
  - destruct (fst (Balanced.build_class_mapping_balanced
                     Scenario.balanced_split_terms) !! "42"%string)
      as [t|] eqn:E; [|reflexivity].
    exfalso.
    apply (proj1 (balanced_rebuild_accepts_iff _ _ _)) in E
      as (u & _ & _ & _ & H & _).
    apply ratio_gt_half in H.
    set (ds := default [] _) in H.
    assert (length ds = 4%nat) as E4 by (vm_compute; reflexivity).
    assert (length (filter (λ d, Balanced.expected_vocab d = "Acorn"%string) ds)
            = 2%nat) as E2 by (vm_compute; reflexivity).
    destruct (decide (u = "Acorn"%string)) as [->|Hne].
    + rewrite E2, E4 in H. lia.
    + pose proof (filter_two_terms_le Balanced.expected_vocab u "Acorn" ds Hne).
      lia.
  - destruct (fst (Balanced.build_class_mapping_balanced
                     Scenario.balanced_second_place) !! "42"%string)
      as [t|] eqn:E; [|reflexivity].
    exfalso.
    apply (proj1 (balanced_rebuild_accepts_iff _ _ _)) in E
      as (u & _ & _ & Ha & Hc & Ho & [H|H]).
    + vm_compute in H. discriminate H.
    + vm_compute in H. discriminate H.
Defined.

Lemma balanced_discovery_gate_witness :
  ∃ added,
    default [] (Balanced.discovered_classes
                  (Balanced.discover_class_mappings_balanced
                     Balanced.init (Scenario.cell_at 21) (Some "Acorn"%string))
                !! "42"%string)
      = [] ++ added ∧
    {| Balanced.expected_vocab := "Acorn";
       Balanced.d_confidence := 21 / 100 * 100;
       Balanced.d_rank := 0 + 1;
       Balanced.confidence_gap := 21 / 100 * 100 - 0.01 * 100 |} ∈ added.
Proof.
  destruct (balanced_discovery_gate Balanced.init (Scenario.cell_at 21)
              (Some "Acorn"%string) "42"%string)
    as (_ & added & Hd & Hiff & _).
  exists added. split; [exact Hd|]. apply Hiff.
  eexists 0%nat, _, _, "Acorn"%string.
  split; [reflexivity|]. split; [discriminate|].
  split; [reflexivity|]. split; [reflexivity|].
  split; [reflexivity|]. split; [reflexivity|].
  split; [vm_compute; reflexivity|]. split; [vm_compute; reflexivity|].
  reflexivity.
Defined.



(** ** The image loops are runs

    The mapping states that [run_hybrid_analysis] and [run_balanced_test]
    go through are reached from the initial state by discovery and rebuild
    calls only, so the statements about runs above apply to them. *)

Section LoopsAreRuns.
Import Batch.

Variable image : Type.
Variable download : Z → string + image.
Variable size : image → Z * Z.
Variable crop : image → Grid.box → image.
Variable predict : image → list prediction.

Lemma hybrid_cells_run expected_vocab (cells : list (string * image)) :
  ∀ acc,
    ∃ ops,
      HybridRun.mapping
        (HybridRun.a_self
           (fold_left (HybridRun.cell_step image predict expected_vocab) cells acc))
      = fold_left Hybrid.step ops (HybridRun.mapping (HybridRun.a_self acc)).
Proof.
  induction cells as [|[position cell_image] cells IH]; intros acc.
  - by exists [].
  - cbn [fold_left].
    destruct (IH (HybridRun.cell_step image predict expected_vocab acc
                    (position, cell_image))) as [ops ->].
    exists (Hybrid.Discover (predict cell_image) expected_vocab :: ops).
    reflexivity.
Qed.

Lemma hybrid_run_step_run vocab_terms self self' i ops :
  HybridRun.mapping self = Hybrid.run ops →
  HybridRun.run_step image download size crop predict vocab_terms (Some self) i
    = Some self' →
  ∃ ops', HybridRun.mapping self' = Hybrid.run (ops ++ ops').
Proof.
  intros Hops. unfold HybridRun.run_step.
  destruct (expected_vocab_at vocab_terms i) as [expected_vocab|]; [|discriminate].
  unfold HybridRun.analyze_image_hybrid.
  destruct (download i) as [error|full_image].
  - intros H. inversion H; subst self'. cbn. exists [Hybrid.Build].
    unfold Hybrid.run in *. rewrite fold_left_app, <- Hops. reflexivity.
  - destruct (size full_image) as [width height].
    set (cells := map _ _).
    set (acc0 := HybridRun.Build_cells_acc _ _ _ _).
    destruct (hybrid_cells_run expected_vocab cells acc0) as [ops1 Hops1].
    set (acc := fold_left _ cells acc0) in *. clearbody acc cells.
    subst acc0. cbn [HybridRun.a_self] in Hops1.
    intros H. inversion H; subst self'. cbn.
    exists (ops1 ++ [Hybrid.Build]).
    unfold Hybrid.run in *. rewrite !fold_left_app, <- Hops.
    cbn [fold_left Hybrid.step]. by rewrite <- Hops1.
Qed.

(** Every mapping state of [run_hybrid_analysis] is a run. *)
Lemma hybrid_analysis_is_run vocab_terms start_id end_id self' :
  HybridRun.run_hybrid_analysis image download size crop predict vocab_terms
    HybridRun.new_analyzer start_id end_id = Some self' →
  ∃ ops, HybridRun.mapping self' = Hybrid.run ops.
Proof.
  unfold HybridRun.run_hybrid_analysis.
  assert (∀ ids self ops self1,
            HybridRun.mapping self = Hybrid.run ops →
            fold_left (HybridRun.run_step image download size crop predict
                         vocab_terms) ids (Some self) = Some self1 →
            ∃ ops', HybridRun.mapping self1 = Hybrid.run ops') as Hloop.
  { induction ids as [|i ids IH]; intros self ops self1 Hops H.
    - inversion H; subst. by exists ops.
    - cbn [fold_left] in H.
      destruct (HybridRun.run_step image download size crop predict
                  vocab_terms (Some self) i) as [self2|] eqn:E.
      + destruct (hybrid_run_step_run _ _ _ _ _ Hops E) as [ops' Hops'].
        by apply (IH self2 (ops ++ ops') self1).
      + exfalso. clear -H. induction ids; simpl in H; [discriminate | auto]. }
  destruct (fold_left _ _ _) as [self1|] eqn:E; [|discriminate].
  intros H. inversion H; subst self'. cbn.
  destruct (Hloop _ HybridRun.new_analyzer [] _ eq_refl E) as [ops Hops].
  exists (ops ++ [Hybrid.Build]).
  unfold Hybrid.run in *. by rewrite fold_left_app, <- Hops.
Qed.

Lemma balanced_cells_run expected_vocab (cells : list (string * image)) :
  ∀ acc,
    ∃ ops,
      BalancedRun.a_self
        (fold_left (BalancedRun.cell_step image predict expected_vocab) cells acc)
      = fold_left Balanced.step ops (BalancedRun.a_self acc).
Proof.
  induction cells as [|[position cell_image] cells IH]; intros acc.
  - by exists [].
  - cbn [fold_left].
    destruct (IH (BalancedRun.cell_step image predict expected_vocab acc
                    (position, cell_image))) as [ops ->].
    exists (Balanced.Discover (predict cell_image) expected_vocab :: ops).
    reflexivity.
Qed.

Lemma balanced_run_step_run vocab_terms rs rs' i ops :
  BalancedRun.self rs = Balanced.run ops →
  BalancedRun.run_step image download size crop predict vocab_terms (Some rs) i
    = Some rs' →
  ∃ ops', BalancedRun.self rs' = Balanced.run (ops ++ ops').
Proof.
  intros Hops. unfold BalancedRun.run_step.
  destruct (expected_vocab_at vocab_terms i) as [expected_vocab|]; [|discriminate].
  destruct (download i) as [error|full_image].
  - intros H. inversion H; subst rs'.
    destruct (i mod 4 =? 0)%Z; cbn.
    + exists [Balanced.Build]. unfold Balanced.run in *.
      rewrite fold_left_app, <- Hops. reflexivity.
    + exists []. by rewrite app_nil_r.
  - destruct (size full_image) as [width height].
    set (cells := map _ _).
    set (acc0 := BalancedRun.Build_cells_acc _ _ _ _ _).
    destruct (balanced_cells_run expected_vocab cells acc0) as [ops1 Hops1].
    set (acc := fold_left _ cells acc0) in *. clearbody acc cells.
    subst acc0. cbn [BalancedRun.a_self] in Hops1.
    intros H. inversion H; subst rs'.
    destruct (i mod 4 =? 0)%Z; cbn.
    + exists (ops1 ++ [Balanced.Build]).
      unfold Balanced.run in *. rewrite !fold_left_app, <- Hops.
      cbn [fold_left Balanced.step]. by rewrite <- Hops1.
    + exists ops1. unfold Balanced.run in *.
      rewrite fold_left_app, <- Hops. exact Hops1.
Qed.

(** Every mapping state of [run_balanced_test] is a run. *)
Lemma balanced_test_is_run vocab_terms start_id end_id rs' :
  BalancedRun.run_balanced_test image download size crop predict vocab_terms
    BalancedRun.new_run start_id end_id = Some rs' →
  ∃ ops, BalancedRun.self rs' = Balanced.run ops.
Proof.
  unfold BalancedRun.run_balanced_test.
  assert (∀ ids rs ops rs1,
            BalancedRun.self rs = Balanced.run ops →
            fold_left (BalancedRun.run_step image download size crop predict
                         vocab_terms) ids (Some rs) = Some rs1 →
            ∃ ops', BalancedRun.self rs1 = Balanced.run ops') as Hloop.
  { induction ids as [|i ids IH]; intros rs ops rs1 Hops H.
    - inversion H; subst. by exists ops.
    - cbn [fold_left] in H.
      destruct (BalancedRun.run_step image download size crop predict
                  vocab_terms (Some rs) i) as [rs2|] eqn:E.
      + destruct (balanced_run_step_run _ _ _ _ _ Hops E) as [ops' Hops'].
        by apply (IH rs2 (ops ++ ops') rs1).
      + exfalso. clear -H. induction ids; simpl in H; [discriminate | auto]. }
  destruct (fold_left _ _ _) as [rs1|] eqn:E; [|discriminate].
  intros H. inversion H; subst rs'. cbn.
  destruct (Hloop _ BalancedRun.new_run [] _ eq_refl E) as [ops Hops].
  exists (ops ++ [Balanced.Build]).
  unfold Balanced.run in *. by rewrite fold_left_app, <- Hops.
Qed.

End LoopsAreRuns.

(* ===================================================================== *)
(** * Part III: further properties of the analyzers                      *)
(* ===================================================================== *)

(** ** The matchers *)

Lemma Qltb_opp (a b : Q) : Qltb (- a) (- b) = Qltb b a.
Proof.
  unfold Qltb. destruct a as [na da], b as [nb db]. simpl.
  rewrite !Z.mul_opp_l.
  generalize (na * Z.pos db)%Z (nb * Z.pos da)%Z. intros u v.
  destruct (Z.ltb_spec (- u) (- v)), (Z.ltb_spec v u); lia.
Qed.

Lemma Qeq_bool_opp (a b : Q) : Qeq_bool (- a) (- b) = Qeq_bool a b.
Proof.
  destruct (Qeq_bool a b) eqn:E.
  - apply Qeq_bool_iff. apply Qeq_bool_iff in E. by rewrite E.
  - destruct (Qeq_bool (- a) (- b)) eqn:E'; [|done].
    apply Qeq_bool_iff in E'. apply Qopp_comp in E'. rewrite !Qopp_involutive in E'.
    apply Qeq_bool_iff in E'. congruence.
Qed.

Lemma length_omap_le {A B} (f : A → option B) (l : list A) :
  (length (omap f l) ≤ length l)%nat.
Proof.
  induction l as [|x l IH]; csimpl; [done|].
  destruct (f x); csimpl; lia.
Qed.

Section HybridMatcher.
Import HybridRun.

(** [a] may stand before [b] in a sorted match list. *)
Local Abbreviation before :=
  (λ a b : vocab_match,
     m_similarity b < m_similarity a ∨
     (m_similarity a == m_similarity b ∧ m_quality_score b <= m_quality_score a)).

Lemma hybrid_before_trans a b c : before a b → before b c → before a c.
Proof.
  intros [H1|[E1 Q1]] [H2|[E2 Q2]].
  - left. by eapply Qlt_trans.
  - left. by rewrite <- E2.
  - left. by rewrite E1.
  - right. split; [by rewrite E1 | by eapply Qle_trans].
Qed.

Lemma hybrid_key_lt_true a b : key_lt a b = true → before a b.
Proof.
  unfold key_lt. rewrite Qeq_bool_opp, !Qltb_opp.
  destruct (Qeq_bool _ _) eqn:E; intros H%Qltb_lt.
  - right. apply Qeq_bool_iff in E. split; [done | by apply Qlt_le_weak].
  - by left.
Qed.

Lemma hybrid_key_lt_false a b : key_lt a b = false → before b a.
Proof.
  unfold key_lt. rewrite Qeq_bool_opp, !Qltb_opp.
  destruct (Qeq_bool _ _) eqn:E; intros H%Qltb_nlt%Qnot_lt_le.
  - right. apply Qeq_bool_iff in E. split; [by symmetry | done].
  - apply Qle_lt_or_eq in H as [H|H]; [by left|].
    apply Qeq_bool_iff in H. congruence.
Qed.

Lemma hybrid_insert_by_perm x l : insert_by x l ≡ₚ x :: l.
Proof.
  induction l as [|y l IH]; simpl; [done|].
  destruct (key_lt y x); [|done]. rewrite IH. apply Permutation_swap.
Qed.

Lemma hybrid_sort_matches_perm l : sort_matches l ≡ₚ l.
Proof.
  induction l as [|x l IH]; simpl; [done|].
  by rewrite hybrid_insert_by_perm, IH.
Qed.

Lemma hybrid_insert_by_sorted x l :
  StronglySorted before l → StronglySorted before (insert_by x l).
Proof.
  induction 1 as [|y l Hl IH Hy]; simpl.
  - repeat constructor.
  - destruct (key_lt y x) eqn:E.
    + constructor; [exact IH|].
      rewrite hybrid_insert_by_perm. constructor; [|exact Hy].
      by apply hybrid_key_lt_true.
    + apply hybrid_key_lt_false in E. constructor.
      * by constructor.
      * constructor; [exact E|].
        eapply Forall_impl; [exact Hy|]. intros z Hz.
        by eapply hybrid_before_trans.
Qed.

Lemma hybrid_sort_matches_sorted l : StronglySorted before (sort_matches l).
Proof.
  induction l as [|x l IH]; simpl; [constructor|].
  by apply hybrid_insert_by_sorted.
Qed.

Lemma hybrid_omap_predictions (st : Hybrid.state) (l : list prediction) :
  m_prediction <$> omap (match_of st) l
  = filter (λ p, is_Some (Hybrid.class_mapping st !! class_idx p)) l.
Proof.
  induction l as [|p l IH]; [done|]. csimpl. rewrite filter_cons.
  unfold match_of at 1.
  destruct (Hybrid.class_mapping st !! class_idx p) as [t|] eqn:E.
  - rewrite decide_True by (by eexists). csimpl. by rewrite IH.
  - rewrite decide_False by (by intros [? ?]). exact IH.
Qed.

(** X1. [match_vocabulary_terms_hybrid] returns exactly one match for every
    prediction among the first ten whose class is in the mapping table, and
    nothing else: the list is a rearrangement of the matches built from
    those predictions in turn, so its predictions are, up to order and with
    their multiplicity, the mapped predictions among the first ten. A
    match carries the mapped term and the prediction's confidence, whatever
    that confidence is. The list has at most ten entries and is ordered
    by confidence, highest first, ties by quality score, highest first. *)
Theorem hybrid_matches_sorted_and_complete (st : Hybrid.state)
    (predictions : list prediction) :
  StronglySorted
    (λ a b, m_similarity b < m_similarity a ∨
            (m_similarity a == m_similarity b ∧
             m_quality_score b <= m_quality_score a))
    (match_vocabulary_terms_hybrid st predictions) ∧
  (length (match_vocabulary_terms_hybrid st predictions) ≤ 10)%nat ∧
  match_vocabulary_terms_hybrid st predictions
    ≡ₚ omap (match_of st) (take 10 predictions) ∧
  m_prediction <$> match_vocabulary_terms_hybrid st predictions
    ≡ₚ filter (λ p, is_Some (Hybrid.class_mapping st !! class_idx p))
              (take 10 predictions) ∧
  (∀ p t, p ∈ take 10 predictions →
          Hybrid.class_mapping st !! class_idx p = Some t →
          ∃ m, m ∈ match_vocabulary_terms_hybrid st predictions ∧
               m_prediction m = p ∧ m_vocab_term m = t ∧
               m_similarity m = confidence p) ∧
  (∀ m, m ∈ match_vocabulary_terms_hybrid st predictions →
        m_prediction m ∈ take 10 predictions ∧
        m_class_idx m = class_idx (m_prediction m) ∧
        Hybrid.class_mapping st !! m_class_idx m = Some (m_vocab_term m) ∧
        m_similarity m = confidence (m_prediction m) ∧
        m_quality_score m
          = default 0 (Hybrid.quality_score
                         <$> Hybrid.validation_stats st !! m_class_idx m)).
Proof.
  unfold match_vocabulary_terms_hybrid.
  split; [apply hybrid_sort_matches_sorted|]. split; [|split; [|split; [|split]]].
  2: apply hybrid_sort_matches_perm.
  2: by rewrite hybrid_sort_matches_perm, hybrid_omap_predictions.
  - rewrite hybrid_sort_matches_perm.
    etransitivity; [apply length_omap_le|]. rewrite length_take. lia.
  - intros p t Hp Ht.
    exists {| m_vocab_term := t; m_prediction := p;
              m_similarity := confidence p;
              m_quality_score :=
                default 0 (Hybrid.quality_score
                             <$> Hybrid.validation_stats st !! class_idx p);
              m_class_idx := class_idx p;
              m_mapping_type :=
                Hybrid.s_mapping_type
                  <$> Hybrid.validation_stats st !! class_idx p |}.
    split; [|done]. rewrite hybrid_sort_matches_perm.
    apply list_elem_of_omap. exists p. split; [done|].
    unfold match_of. by rewrite Ht.
  - intros m Hm. rewrite hybrid_sort_matches_perm in Hm.
    apply list_elem_of_omap in Hm as (p & Hp & Hm). unfold match_of in Hm.
    destruct (Hybrid.class_mapping st !! class_idx p) as [t|] eqn:E; [|discriminate].
    inversion Hm; subst m. simpl. done.
Qed.

End HybridMatcher.

Section BalancedMatcher.
Import BalancedRun.

(** [a] may stand before [b] in a sorted match list. *)
Local Abbreviation before :=
  (λ a b : vocab_match,
     m_similarity b < m_similarity a ∨
     (m_similarity a == m_similarity b ∧ m_quality_score b <= m_quality_score a)).

Lemma balanced_before_trans a b c : before a b → before b c → before a c.
Proof.
  intros [H1|[E1 Q1]] [H2|[E2 Q2]].
  - left. by eapply Qlt_trans.
  - left. by rewrite <- E2.
  - left. by rewrite E1.
  - right. split; [by rewrite E1 | by eapply Qle_trans].
Qed.

Lemma balanced_key_lt_true a b : key_lt a b = true → before a b.
Proof.
  unfold key_lt. rewrite Qeq_bool_opp, !Qltb_opp.
  destruct (Qeq_bool _ _) eqn:E; intros H%Qltb_lt.
  - right. apply Qeq_bool_iff in E. split; [done | by apply Qlt_le_weak].
  - by left.
Qed.

Lemma balanced_key_lt_false a b : key_lt a b = false → before b a.
Proof.
  unfold key_lt. rewrite Qeq_bool_opp, !Qltb_opp.
  destruct (Qeq_bool _ _) eqn:E; intros H%Qltb_nlt%Qnot_lt_le.
  - right. apply Qeq_bool_iff in E. split; [by symmetry | done].
  - apply Qle_lt_or_eq in H as [H|H]; [by left|].
    apply Qeq_bool_iff in H. congruence.
Qed.

Lemma balanced_insert_by_perm x l : insert_by x l ≡ₚ x :: l.
Proof.
  induction l as [|y l IH]; simpl; [done|].
  destruct (key_lt y x); [|done]. rewrite IH. apply Permutation_swap.
Qed.

Lemma balanced_sort_matches_perm l : sort_matches l ≡ₚ l.
Proof.
  induction l as [|x l IH]; simpl; [done|].
  by rewrite balanced_insert_by_perm, IH.
Qed.

Lemma balanced_insert_by_sorted x l :
  StronglySorted before l → StronglySorted before (insert_by x l).
Proof.
  induction 1 as [|y l Hl IH Hy]; simpl.
  - repeat constructor.
  - destruct (key_lt y x) eqn:E.
    + constructor; [exact IH|].
      rewrite balanced_insert_by_perm. constructor; [|exact Hy].
      by apply balanced_key_lt_true.
    + apply balanced_key_lt_false in E. constructor.
      * by constructor.
      * constructor; [exact E|].
        eapply Forall_impl; [exact Hy|]. intros z Hz.
        by eapply balanced_before_trans.
Qed.

Lemma balanced_sort_matches_sorted l : StronglySorted before (sort_matches l).
Proof.
  induction l as [|x l IH]; simpl; [constructor|].
  by apply balanced_insert_by_sorted.
Qed.

Lemma balanced_omap_predictions (st : Balanced.state) (l : list prediction) :
  m_prediction <$> omap (match_of st) l
  = filter (λ p, is_Some (Balanced.class_mapping st !! class_idx p)) l.
Proof.
  induction l as [|p l IH]; [done|]. csimpl. rewrite filter_cons.
  unfold match_of at 1.
  destruct (Balanced.class_mapping st !! class_idx p) as [t|] eqn:E.
  - rewrite decide_True by (by eexists). csimpl. by rewrite IH.
  - rewrite decide_False by (by intros [? ?]). exact IH.
Qed.

(** X2. [match_vocabulary_terms_balanced] returns exactly one match for every
    prediction among the first fifteen whose class is in the mapping table, and
    nothing else: the list is a rearrangement of the matches built from
    those predictions in turn, so its predictions are, up to order and with
    their multiplicity, the mapped predictions among the first fifteen. A
    match carries the mapped term and the prediction's confidence, whatever
    that confidence is. The list has at most fifteen entries and is ordered
    by confidence, highest first, ties by quality score, highest first. *)
Theorem balanced_matches_sorted_and_complete (st : Balanced.state)
    (predictions : list prediction) :
  StronglySorted
    (λ a b, m_similarity b < m_similarity a ∨
            (m_similarity a == m_similarity b ∧
             m_quality_score b <= m_quality_score a))
    (match_vocabulary_terms_balanced st predictions) ∧
  (length (match_vocabulary_terms_balanced st predictions) ≤ 15)%nat ∧
  match_vocabulary_terms_balanced st predictions
    ≡ₚ omap (match_of st) (take 15 predictions) ∧
  m_prediction <$> match_vocabulary_terms_balanced st predictions
    ≡ₚ filter (λ p, is_Some (Balanced.class_mapping st !! class_idx p))
              (take 15 predictions) ∧
  (∀ p t, p ∈ take 15 predictions →
          Balanced.class_mapping st !! class_idx p = Some t →
          ∃ m, m ∈ match_vocabulary_terms_balanced st predictions ∧
               m_prediction m = p ∧ m_vocab_term m = t ∧
               m_similarity m = confidence p) ∧
  (∀ m, m ∈ match_vocabulary_terms_balanced st predictions →
        m_prediction m ∈ take 15 predictions ∧
        m_class_idx m = class_idx (m_prediction m) ∧
        Balanced.class_mapping st !! m_class_idx m = Some (m_vocab_term m) ∧
        m_similarity m = confidence (m_prediction m) ∧
        m_quality_score m
          = default 0 (Balanced.quality_score
                         <$> Balanced.validation_stats st !! m_class_idx m)).
Proof.
  unfold match_vocabulary_terms_balanced.
  split; [apply balanced_sort_matches_sorted|]. split; [|split; [|split; [|split]]].
  2: apply balanced_sort_matches_perm.
  2: by rewrite balanced_sort_matches_perm, balanced_omap_predictions.
  - rewrite balanced_sort_matches_perm.
    etransitivity; [apply length_omap_le|]. rewrite length_take. lia.
  - intros p t Hp Ht.
    exists {| m_vocab_term := t; m_prediction := p;
              m_similarity := confidence p;
              m_quality_score :=
                default 0 (Balanced.quality_score
                             <$> Balanced.validation_stats st !! class_idx p);
              m_class_idx := class_idx p |}.
    split; [|done]. rewrite balanced_sort_matches_perm.
    apply list_elem_of_omap. exists p. split; [done|].
    unfold match_of. by rewrite Ht.
  - intros m Hm. rewrite balanced_sort_matches_perm in Hm.
    apply list_elem_of_omap in Hm as (p & Hp & Hm). unfold match_of in Hm.
    destruct (Balanced.class_mapping st !! class_idx p) as [t|] eqn:E; [|discriminate].
    inversion Hm; subst m. simpl. done.
Qed.

End BalancedMatcher.

(** ** Hybrid analyzer: what a discovery call does to one class *)

Section HybridDiscovery.
Import Hybrid.

(** With distinct classes among the first three predictions, the call acts
    on the class of a prediction as the single loop step of that prediction
    acts on the state before the call. *)
Lemma hybrid_discover_at_class st predictions expected l1 p l2 :
  take 3 predictions = l1 ++ p :: l2 →
  NoDup (class_idx <$> take 3 predictions) →
  class_mapping
    (fold_left (discover_step expected) (enumerate (take 3 predictions)) st)
    !! class_idx p
    = class_mapping (discover_step expected st (length l1, p)) !! class_idx p ∧
  validation_stats
    (fold_left (discover_step expected) (enumerate (take 3 predictions)) st)
    !! class_idx p
    = validation_stats (discover_step expected st (length l1, p)) !! class_idx p ∧
  discovered_classes
    (fold_left (discover_step expected) (enumerate (take 3 predictions)) st)
    !! class_idx p
    = discovered_classes (discover_step expected st (length l1, p)) !! class_idx p.
Proof.
  intros Hsplit Hnd. rewrite Hsplit in Hnd |- *.
  rewrite fmap_app, fmap_cons in Hnd.
  apply NoDup_app in Hnd as (_ & Hl1 & Hnd).
  apply NoDup_cons in Hnd as [Hl2 _].
  assert (class_idx p ∉ class_idx <$> l1) as Hl1'.
  { intros H. apply (Hl1 _ H). left. }
  unfold enumerate. rewrite combine_seq_middle, fold_left_app. cbn [fold_left].
  set (st1 := fold_left _ (combine _ l1) st).
  destruct (hybrid_discover_fold_other expected (class_idx p) l1 0%nat st Hl1')
    as (Hm1 & Hs1 & Hd1). fold st1 in Hm1, Hs1, Hd1.
  destruct (hybrid_discover_fold_other expected (class_idx p) l2
              (S (0 + length l1))
              (discover_step expected st1 (0 + length l1, p)%nat) Hl2)
    as (-> & -> & ->).
  cbn [Nat.add]. unfold discover_step.
  rewrite Hm1. destruct (class_mapping st !! class_idx p) eqn:E.
  { by rewrite Hm1, Hs1, Hd1. }
  destruct (Qltb 70.0 _); cbn.
  { rewrite !lookup_insert_eq, Hd1. done. }
  unfold append_discovery.
  destruct (Qltb 50.0 _); cbn; [rewrite !lookup_insert_eq, Hm1, Hs1, Hd1; done|].
  destruct (Qltb 30.0 _); cbn; [rewrite !lookup_insert_eq, Hm1, Hs1, Hd1; done|].
  by rewrite Hm1, Hs1, Hd1.
Qed.

Lemma lookup_middle_NoDup (l1 l2 : list prediction) (p q : prediction) (j : nat) :
  NoDup (class_idx <$> l1 ++ p :: l2) →
  (l1 ++ p :: l2) !! j = Some q → class_idx q = class_idx p →
  j = length l1 ∧ q = p.
Proof.
  intros Hnd Hj Hc. rewrite fmap_app, fmap_cons in Hnd.
  apply NoDup_app in Hnd as (_ & Hl1 & Hnd).
  apply NoDup_cons in Hnd as [Hl2 _].
  destruct (lt_eq_lt_dec j (length l1)) as [[Hlt|Heq]|Hgt].
  - rewrite lookup_app_l in Hj by done. exfalso.
    apply (Hl1 (class_idx p)); [|left].
    rewrite <- Hc. apply list_elem_of_fmap. exists q. split; [done|].
    by eapply list_elem_of_lookup_2.
  - subst j. rewrite list_lookup_middle in Hj by done. by inversion Hj.
  - rewrite lookup_app_r in Hj by lia.
    destruct (j - length l1)%nat as [|k] eqn:E; [lia|]. simpl in Hj.
    exfalso. apply Hl2. rewrite <- Hc. apply list_elem_of_fmap.
    exists q. split; [done|]. by eapply list_elem_of_lookup_2.
Qed.

End HybridDiscovery.

Section HybridDiscoveryOutcome.
Import Hybrid.

(** X3. What [discover_class_mappings_hybrid] does with one of the first
    three predictions (their classes being distinct, the expected term
    non-empty), by confidence in percent. If the class is already mapped,
    nothing about it changes. Otherwise: above 70 it is mapped at once;
    above 50 and up to 70 one observation of type
    ['single_evidence_validated'] is appended and the class stays unmapped;
    above 30 and up to 50 one observation of type
    ['multiple_evidence_required'] is appended; at 30 or below nothing is
    recorded. The rank recorded is the position plus one. *)
Theorem hybrid_discovery_outcome (st : state) (predictions : list prediction)
    (expected : string) (i : nat) (p : prediction) :
  expected ≠ EmptyString →
  take 3 predictions !! i = Some p →
  NoDup (class_idx <$> take 3 predictions) →
  (is_Some (class_mapping st !! class_idx p) →
   class_mapping (discover_class_mappings_hybrid st predictions (Some expected))
     !! class_idx p = class_mapping st !! class_idx p ∧
   validation_stats (discover_class_mappings_hybrid st predictions (Some expected))
     !! class_idx p = validation_stats st !! class_idx p ∧
   discovered_classes (discover_class_mappings_hybrid st predictions (Some expected))
     !! class_idx p = discovered_classes st !! class_idx p) ∧
  (class_mapping st !! class_idx p = None →
   (70.0 < confidence_percent p →
    class_mapping (discover_class_mappings_hybrid st predictions (Some expected))
      !! class_idx p = Some (Text.lower expected) ∧
    discovered_classes (discover_class_mappings_hybrid st predictions (Some expected))
      !! class_idx p = discovered_classes st !! class_idx p) ∧
   (50.0 < confidence_percent p → confidence_percent p <= 70.0 →
    class_mapping (discover_class_mappings_hybrid st predictions (Some expected))
      !! class_idx p = None ∧
    validation_stats (discover_class_mappings_hybrid st predictions (Some expected))
      !! class_idx p = validation_stats st !! class_idx p ∧
    discovered_classes (discover_class_mappings_hybrid st predictions (Some expected))
      !! class_idx p
      = Some (default [] (discovered_classes st !! class_idx p)
              ++ [ {| expected_vocab := expected;
                      d_confidence := confidence_percent p;
                      d_rank := i + 1;
                      d_mapping_type := single_evidence_validated |} ])) ∧
   (30.0 < confidence_percent p → confidence_percent p <= 50.0 →
    class_mapping (discover_class_mappings_hybrid st predictions (Some expected))
      !! class_idx p = None ∧
    validation_stats (discover_class_mappings_hybrid st predictions (Some expected))
      !! class_idx p = validation_stats st !! class_idx p ∧
    discovered_classes (discover_class_mappings_hybrid st predictions (Some expected))
      !! class_idx p
      = Some (default [] (discovered_classes st !! class_idx p)
              ++ [ {| expected_vocab := expected;
                      d_confidence := confidence_percent p;
                      d_rank := i + 1;
                      d_mapping_type := multiple_evidence_required |} ])) ∧
   (confidence_percent p <= 30.0 →
    class_mapping (discover_class_mappings_hybrid st predictions (Some expected))
      !! class_idx p = None ∧
    validation_stats (discover_class_mappings_hybrid st predictions (Some expected))
      !! class_idx p = validation_stats st !! class_idx p ∧
    discovered_classes (discover_class_mappings_hybrid st predictions (Some expected))
      !! class_idx p = discovered_classes st !! class_idx p)).
Proof.
  intros Hne Hi Hnd.
  assert (Text.truthy (Some expected) = Some expected) as Ht.
  { destruct expected; [done | reflexivity]. }
  unfold discover_class_mappings_hybrid. rewrite Ht.
  pose proof (take_drop_middle _ _ _ Hi) as Hsplit. symmetry in Hsplit.
  destruct (hybrid_discover_at_class st predictions expected _ _ _ Hsplit Hnd)
    as (-> & -> & ->).
  assert (length (take i (take 3 predictions)) = i) as ->.
  { apply length_take_le. apply lookup_lt_Some in Hi. lia. }
  unfold discover_step. split.
  - intros [t Hm]. by rewrite Hm.
  - intros Hm. rewrite Hm.
    assert (∀ x y, x <= y → Qltb y x = false) as Hle.
    { intros x y H. apply Qltb_nlt. by apply Qle_not_lt. }
    split; [|split; [|split]].
    + intros H%Qltb_lt. rewrite H. cbn. by rewrite lookup_insert_eq.
    + intros H50%Qltb_lt H70%Hle. rewrite H70, H50. cbn.
      unfold append_discovery. by rewrite lookup_insert_eq.
    + intros H30%Qltb_lt H50%Hle.
      assert (Qltb 70.0 (confidence_percent p) = false) as ->.
      { apply Qltb_nlt. intros H. apply Qltb_nlt in H50. apply H50.
        eapply Qlt_trans; [|exact H]. reflexivity. }
      rewrite H50, H30. cbn. unfold append_discovery. by rewrite lookup_insert_eq.
    + intros H30.
      assert (Qltb 70.0 (confidence_percent p) = false) as ->.
      { apply Hle. eapply Qle_trans; [exact H30|]. discriminate. }
      assert (Qltb 50.0 (confidence_percent p) = false) as ->.
      { apply Hle. eapply Qle_trans; [exact H30|]. discriminate. }
      rewrite (Hle _ _ H30). done.
Qed.

Lemma hybrid_discovery_outcome_witness :
  discovered_classes
    (discover_class_mappings_hybrid init Scenario.moderate_cell (Some "Aloe"%string))
    !! "42"%string
  = Some ([] ++ [ {| expected_vocab := "Aloe";
                     d_confidence := 0.40 * 100;
                     d_rank := 1 + 1;
                     d_mapping_type := multiple_evidence_required |} ]).
Proof.
  assert (Hp : take 3 Scenario.moderate_cell !! 1%nat
               = Some {| rank := 2; class_idx := "42";
                         class_name := "class_42";
                         confidence := 0.40;
                         confidence_percent := 0.40 * 100 |})
    by reflexivity.
  destruct (hybrid_discovery_outcome init Scenario.moderate_cell "Aloe"%string
              1 _ ltac:(discriminate) Hp
              ltac:(apply (bool_decide_unpack _); vm_compute; exact I))
    as (_ & H).
  destruct (H ltac:(reflexivity)) as (_ & _ & H30 & _).
  destruct (H30 ltac:(reflexivity) ltac:(discriminate)) as (_ & _ & Hd).
  exact Hd.
Defined.

End HybridDiscoveryOutcome.

(** ** Hybrid analyzer: which classes a rebuild accepts *)

Section HybridAcceptance.
Import Hybrid.

Lemma hybrid_validate_Some_iff (ds : list discovery) :
  is_Some (validate ds) ↔ is_Some (verdict ds).
Proof.
  unfold validate. destruct ds as [|d ds].
  - split; intros [x H]; [discriminate|]. vm_compute in H. discriminate.
  - destruct (hybrid_most_common_spec (d :: ds)) as ([x ->] & _); [done|].
    destruct (verdict (d :: ds)); split; intros [? ?]; try discriminate; by eexists.
Qed.

Lemma hybrid_verdict_iff (ds : list discovery) :
  is_Some (verdict ds) ↔
  (length ds = 1%nat ∧ 50.0 < avg_confidence_of ds) ∨
  ((2 ≤ length ds)%nat ∧ 35.0 < avg_confidence_of ds ∧
   0.6 < consistency_ratio_of ds ∧ (2 ≤ occurrence_count ds)%nat).
Proof.
  unfold verdict.
  destruct (Nat.eqb_spec (length ds) 1) as [H1|H1]; cbn [andb].
  - destruct (Qltb 50.0 (avg_confidence_of ds)) eqn:E50.
    + split; [|by eexists]. intros _. left. split; [done | by apply Qltb_lt].
    + destruct (Nat.leb_spec 2 (length ds)) as [Hl|Hl]; [lia|]. split.
      * intros [? ?]; discriminate.
      * intros [[_ Hq]|[Hq _]]; [|lia]. apply Qltb_lt in Hq. congruence.
  - destruct (Nat.leb_spec 2 (length ds)) as [H2|H2].
    + destruct (Qltb 35.0 _ && Qltb 0.6 _ && (2 <=? occurrence_count ds)%nat) eqn:E.
      * split; [|by eexists]. intros _. right.
        apply andb_prop in E as [E E3]. apply andb_prop in E as [E1 E2].
        apply Qltb_lt in E1, E2. apply Nat.leb_le in E3. done.
      * split; [intros [? ?]; discriminate|].
        intros [[Hq _]|(_ & E1 & E2 & E3)]; [lia|].
        apply Qltb_lt in E1, E2. apply Nat.leb_le in E3.
        rewrite E1, E2, E3 in E. discriminate.
    + split; [intros [? ?]; discriminate|]. intros [[Hq _]|[Hq _]]; lia.
Qed.

(** X4. Hybrid validation policy. Let [ds] be the observations of a class
    [c] and [n] their number. [build_class_mapping_hybrid] returns [c -> t]
    in [new_mappings] if and only if the class is not mapped yet and [t] is
    the lowercase of an expected term [u] named by the most observations,
    and either [ds] is a single observation and the sum of the confidences
    divided by [n] is above 50.0, or [ds] has two or more observations, the
    sum of the confidences divided by [n] is above 35.0, the number of
    observations naming [u] divided by [n] is above 0.6 and at least 2
    observations name [u]. The call installs what it returns and keeps the
    term of a class that was mapped already. *)
Theorem hybrid_rebuild_accepts_iff (st : state) (c t : string) :
  let ds := default [] (discovered_classes st !! c) in
  let n := of_int (length ds) in
  let named (u : string) := length (filter (λ d, expected_vocab d = u) ds) in
  let avg_confidence := fold_left Qplus (d_confidence <$> ds) 0 / n in
  (fst (build_class_mapping_hybrid st) !! c = Some t ↔
   class_mapping st !! c = None ∧
   ∃ u, t = Text.lower u ∧
        (∀ u', (named u' ≤ named u)%nat) ∧
        ((length ds = 1%nat ∧ 50.0 < avg_confidence) ∨
         ((2 ≤ length ds)%nat ∧ 35.0 < avg_confidence ∧
          0.6 < of_int (named u) / n ∧ (2 ≤ named u)%nat))) ∧
  class_mapping (snd (build_class_mapping_hybrid st)) !! c
  = match class_mapping st !! c with
    | Some t0 => Some t0
    | None => fst (build_class_mapping_hybrid st) !! c
    end.
Proof.
  cbv zeta. split.
  - rewrite hybrid_new_mappings_lookup.
    destruct (class_mapping st !! c) as [t0|] eqn:Em.
    { split; [discriminate | intros [? _]; discriminate]. }
    destruct (discovered_classes st !! c) as [ds|] eqn:E; simpl.
    + destruct (hybrid_metrics_explicit ds) as (Ha & Hc & _).
      split.
      * intros Ht. split; [done|].
        destruct (validate ds) as [[t1 e]|] eqn:Ev; [|discriminate].
        simpl in Ht. inversion Ht; subst t1.
        destruct (hybrid_validate_entry _ _ _ Ev) as (-> & _).
        assert (is_Some (verdict ds)) as Hv
          by (apply hybrid_validate_Some_iff; by eexists).
        apply hybrid_verdict_iff in Hv.
        assert (ds ≠ []) as Hne by (intros ->; discriminate).
        destruct (hybrid_most_common_spec ds Hne) as (_ & Ho & Hmax).
        exists (most_common_vocab ds). split; [done|].
        rewrite <- Ho, <- Ha, <- Hc. done.
      * intros (_ & u & -> & Hmax & Hcases).
        assert (ds ≠ []) as Hne.
        { intros ->. destruct Hcases as [[Hl _]|[Hl _]]; simpl in Hl; lia. }
        destruct (hybrid_most_common_spec ds Hne) as (_ & Ho & Hmax').
        assert (u = most_common_vocab ds) as ->.
        { apply (majority_term_unique expected_vocab ds).
          - destruct Hcases as [[Hl _]|(_ & _ & Hc' & _)].
            + destruct ds as [|d [|d' ds]]; simpl in Hl; try lia.
              specialize (Hmax (expected_vocab d)).
              rewrite filter_cons_True in Hmax by done. simpl in *. lia.
            + apply ratio_gt_half.
              eapply Qlt_trans; [|exact Hc']. reflexivity.
          - rewrite <- Ho. apply Hmax'. }
        rewrite <- Ho, <- Ha, <- Hc in Hcases.
        assert (is_Some (verdict ds)) as Hv by (by apply hybrid_verdict_iff).
        apply hybrid_validate_Some_iff in Hv as [[t0 e] Ev]. rewrite Ev. simpl.
        by destruct (hybrid_validate_entry _ _ _ Ev) as (-> & _).
    + split; [discriminate|].
      intros (_ & u & _ & _ & [[Hl _]|[Hl _]]); simpl in Hl; lia.
  - rewrite hybrid_build_mapping_lookup, hybrid_new_mappings_lookup.
    by destruct (class_mapping st !! c).
Qed.

End HybridAcceptance.

(** The hybrid acceptance condition at concrete inputs: two observations of
    class 42 at 40% for "Aloe" are accepted as "aloe"; two observations at
    32% are rejected on the average, and two for "Aloe" against two for
    "Acorn" on the consistency. *)
Lemma hybrid_rebuild_accepts_iff_witness :
  fst (Hybrid.build_class_mapping_hybrid Scenario.hybrid_two_moderate)
    !! "42"%string = Some "aloe"%string ∧
  fst (Hybrid.build_class_mapping_hybrid Scenario.hybrid_low_average)
    !! "42"%string = None ∧
  fst (Hybrid.build_class_mapping_hybrid Scenario.hybrid_split_terms)
    !! "42"%string = None.
Proof.
  split; [|split].
  - apply (proj1 (hybrid_rebuild_accepts_iff Scenario.hybrid_two_moderate
                    "42"%string "aloe"%string)).
    split; [vm_compute; reflexivity|]. exists "Aloe"%string.
    set (ds := default [] _).
    let x := eval vm_compute in ds in change ds with x. clear ds.
    split; [reflexivity|]. split.
    { intros u'. etrans; [apply length_filter|]. vm_compute. lia. }
    right. vm_compute. repeat split; try reflexivity; lia.
  - destruct (fst (Hybrid.build_class_mapping_hybrid
                     Scenario.hybrid_low_average) !! "42"%string)
      as [t|] eqn:E; [|reflexivity].
    exfalso.
    apply (proj1 (hybrid_rebuild_accepts_iff _ _ _)) in E
      as (_ & u & _ & _ & [[Hl _]|(_ & Ha & _)]).
    + vm_compute in Hl. discriminate Hl.
    + vm_compute in Ha. discriminate Ha.
  - destruct (fst (Hybrid.build_class_mapping_hybrid
                     Scenario.hybrid_split_terms) !! "42"%string)
      as [t|] eqn:E; [|reflexivity].
    exfalso.
    apply (proj1 (hybrid_rebuild_accepts_iff _ _ _)) in E
      as (_ & u & _ & _ & [[Hl _]|(_ & _ & Hc & _)]).
    + vm_compute in Hl. discriminate Hl.
    + assert (0.5 < 0.6) as H56 by reflexivity.
      pose proof (Qlt_trans _ _ _ H56 Hc) as H. clear Hc H56.
      apply ratio_gt_half in H.
      set (ds := default [] _) in H.
      assert (length ds = 4%nat) as E4 by (vm_compute; reflexivity).
      assert (length (filter (λ d, Hybrid.expected_vocab d = "Aloe"%string) ds)
              = 2%nat) as E2 by (vm_compute; reflexivity).
      destruct (decide (u = "Aloe"%string)) as [->|Hne].
      * rewrite E2, E4 in H. lia.
      * pose proof (filter_two_terms_le Hybrid.expected_vocab u "Aloe" ds Hne).
        lia.
Defined.

(** ** An accepted term is a strict majority *)



(** ** The evidence ledger is append-only *)

Section LedgerAppendOnly.

Lemma hybrid_discover_step_appends expected st ip c :
  ∃ added,
    default [] (Hybrid.discovered_classes (Hybrid.discover_step expected st ip) !! c)
    = default [] (Hybrid.discovered_classes st !! c) ++ added.
Proof.
  destruct ip as [i p]. unfold Hybrid.discover_step.
  assert (∃ added : list Hybrid.discovery,
            default [] (Hybrid.discovered_classes st !! c)
            = default [] (Hybrid.discovered_classes st !! c) ++ added) as Hsame
    by (exists []; by rewrite app_nil_r).
  assert (∀ info, ∃ added,
            default [] (Hybrid.append_discovery (class_idx p) info
                          (Hybrid.discovered_classes st) !! c)
            = default [] (Hybrid.discovered_classes st !! c) ++ added) as Happ.
  { intros info. unfold Hybrid.append_discovery.
    destruct (decide (class_idx p = c)) as [<-|Hne].
    - rewrite lookup_insert_eq. by eexists.
    - rewrite lookup_insert_ne by done. exact Hsame. }
  destruct (Hybrid.class_mapping st !! class_idx p); [exact Hsame|].
  destruct (Qltb 70.0 _); [exact Hsame|].
  destruct (Qltb 50.0 _); [apply Happ|].
  destruct (Qltb 30.0 _); [apply Happ | exact Hsame].
Qed.

Lemma hybrid_step_appends st o c :
  ∃ added,
    default [] (Hybrid.discovered_classes (Hybrid.step st o) !! c)
    = default [] (Hybrid.discovered_classes st !! c) ++ added.
Proof.
  destruct o as [predictions expected|]; simpl.
  - unfold Hybrid.discover_class_mappings_hybrid.
    destruct (Text.truthy expected) as [e|];
      [|exists []; by rewrite app_nil_r].
    generalize (enumerate (take 3 predictions)). intros l. revert st.
    induction l as [|ip l IH]; intros st; [exists []; by rewrite app_nil_r|].
    cbn [fold_left].
    destruct (IH (Hybrid.discover_step e st ip)) as [a2 ->].
    destruct (hybrid_discover_step_appends e st ip c) as [a1 ->].
    exists (a1 ++ a2). by rewrite app_assoc.
  - destruct (hybrid_build_state st) as [_ ->].
    exists []. by rewrite app_nil_r.
Qed.

Lemma balanced_step_appends st o c :
  ∃ added,
    default [] (Balanced.discovered_classes (Balanced.step st o) !! c)
    = default [] (Balanced.discovered_classes st !! c) ++ added.
Proof.
  destruct o as [predictions expected|]; simpl.
  - unfold Balanced.discover_class_mappings_balanced.
    destruct (Text.truthy expected) as [e|];
      [|exists []; by rewrite app_nil_r].
    destruct (discover_fold_spec predictions e c
                (enumerate (take 5 predictions)) st)
      as (_ & _ & added & Hd & _).
    by exists added.
  - destruct (build_state st) as [_ ->].
    exists []. by rewrite app_nil_r.
Qed.

(** X6. Observations are only ever appended. Along any run of the balanced
    or of the hybrid analyzer, the list of observations of a class after
    further calls extends the list it was before: no discovery or rebuild
    call removes or alters a recorded observation, and a rebuild leaves
    [discovered_classes] as it is (evidence of accepted and of rejected
    classes alike stays in the ledger). *)
Theorem ledger_is_append_only :
  (∀ (ops1 ops2 : list Balanced.op) (c : string),
     ∃ added,
       default [] (Balanced.discovered_classes (Balanced.run (ops1 ++ ops2)) !! c)
       = default [] (Balanced.discovered_classes (Balanced.run ops1) !! c)
         ++ added) ∧
  (∀ (ops1 ops2 : list Hybrid.op) (c : string),
     ∃ added,
       default [] (Hybrid.discovered_classes (Hybrid.run (ops1 ++ ops2)) !! c)
       = default [] (Hybrid.discovered_classes (Hybrid.run ops1) !! c)
         ++ added) ∧
  (∀ st : Balanced.state,
     Balanced.discovered_classes (snd (Balanced.build_class_mapping_balanced st))
     = Balanced.discovered_classes st) ∧
  (∀ st : Hybrid.state,
     Hybrid.discovered_classes (snd (Hybrid.build_class_mapping_hybrid st))
     = Hybrid.discovered_classes st).
Proof.
  split; [|split; [|split]].
  - intros ops1 ops2 c. unfold Balanced.run. rewrite fold_left_app.
    generalize (fold_left Balanced.step ops1 Balanced.init). intros st.
    revert st. induction ops2 as [|o ops IH]; intros st;
      [exists []; by rewrite app_nil_r|].
    cbn [fold_left]. destruct (IH (Balanced.step st o)) as [a2 ->].
    destruct (balanced_step_appends st o c) as [a1 ->].
    exists (a1 ++ a2). by rewrite app_assoc.
  - intros ops1 ops2 c. unfold Hybrid.run. rewrite fold_left_app.
    generalize (fold_left Hybrid.step ops1 Hybrid.init). intros st.
    revert st. induction ops2 as [|o ops IH]; intros st;
      [exists []; by rewrite app_nil_r|].
    cbn [fold_left]. destruct (IH (Hybrid.step st o)) as [a2 ->].
    destruct (hybrid_step_appends st o c) as [a1 ->].
    exists (a1 ++ a2). by rewrite app_assoc.
  - intros st. by destruct (build_state st) as [_ ->].
  - intros st. by destruct (hybrid_build_state st) as [_ ->].
Qed.

End LedgerAppendOnly.

(** ** Mapping entries *)

Section MappingEntries.
Import Invariant.

Lemma balanced_discover_stats st predictions expected_vocab :
  Balanced.validation_stats
    (Balanced.discover_class_mappings_balanced st predictions expected_vocab)
  = Balanced.validation_stats st.
Proof.
  unfold Balanced.discover_class_mappings_balanced.
  destruct (Text.truthy expected_vocab) as [e|]; [|done].
  by destruct (discover_fold_spec predictions e ""%string
                 (enumerate (take 5 predictions)) st) as (_ & -> & _).
Qed.

Lemma balanced_entries_validated st :
  balanced_entries st → Balanced.validated_table st.
Proof.
  intros Inv c t Hc. destruct (Inv c t Hc) as (ds & e & -> & Hv & _).
  simpl. by rewrite Hv.
Qed.

Lemma balanced_step_entries st o :
  balanced_entries st → balanced_entries (Balanced.step st o).
Proof.
  intros Inv c t. destruct o as [predictions expected|]; simpl.
  - destruct (balanced_discover_frame st predictions expected c) as [-> Hd].
    rewrite balanced_discover_stats. intros Hc.
    rewrite Hd by (by eexists). by apply Inv.
  - destruct (build_state st) as [-> ->]. rewrite build_stats_lookup.
    intros [H|[H1 H2]]%lookup_union_Some_raw.
    + rewrite build_new_mappings_lookup in H.
      destruct (Balanced.discovered_classes st !! c) as [ds|]; [|discriminate].
      simpl in *.
      destruct (Balanced.validate ds) as [[t0 e]|] eqn:Ev; [|discriminate].
      simpl in H. inversion H; subst t0. by exists ds, e.
    + destruct (Inv c t H2) as (ds & e & Hd & Hv & Hs).
      rewrite build_new_mappings_lookup, Hd in H1. simpl in H1.
      rewrite Hv in H1. discriminate.
Qed.

Lemma balanced_run_entries ops : balanced_entries (Balanced.run ops).
Proof.
  unfold Balanced.run. induction ops as [|o ops IH] using rev_ind.
  - intros c t H. simpl in H. by rewrite lookup_empty in H.
  - rewrite fold_left_app. simpl. by apply balanced_step_entries.
Qed.

Lemma balanced_step_stats_frozen st o c :
  balanced_entries st → is_Some (Balanced.class_mapping st !! c) →
  Balanced.validation_stats (Balanced.step st o) !! c
  = Balanced.validation_stats st !! c.
Proof.
  intros Inv [t Hc]. destruct o as [predictions expected|]; simpl.
  - by rewrite balanced_discover_stats.
  - rewrite build_stats_lookup.
    destruct (Inv c t Hc) as (ds & e & -> & Hv & ->). simpl. by rewrite Hv.
Qed.

Lemma hybrid_discover_step_entries expected st ip :
  hybrid_entries st → hybrid_entries (Hybrid.discover_step expected st ip).
Proof.
  intros Inv c t. destruct ip as [i p]. unfold Hybrid.discover_step.
  destruct (Hybrid.class_mapping st !! class_idx p) eqn:E; [apply Inv|].
  destruct (Qltb 70.0 _).
  { simpl. destruct (decide (class_idx p = c)) as [<-|Hne].
    - rewrite !lookup_insert_eq. intros H. inversion H; subst t. by eexists.
    - rewrite !lookup_insert_ne by done. apply Inv. }
  destruct (Qltb 50.0 _); [apply Inv|]. destruct (Qltb 30.0 _); apply Inv.
Qed.

Lemma hybrid_step_entries st o :
  hybrid_entries st → hybrid_entries (Hybrid.step st o).
Proof.
  intros Inv. destruct o as [predictions expected|]; simpl.
  - unfold Hybrid.discover_class_mappings_hybrid.
    destruct (Text.truthy expected) as [e|]; [|done].
    generalize (enumerate (take 3 predictions)). intros l.
    revert st Inv. induction l as [|ip l IH]; intros st Inv; [done|].
    simpl. apply IH. by apply hybrid_discover_step_entries.
  - intros c t. rewrite hybrid_build_mapping_lookup, hybrid_build_stats_lookup.
    destruct (Hybrid.class_mapping st !! c) as [t1|] eqn:E.
    { intros H. inversion H; subst t1. by apply Inv. }
    destruct (Hybrid.discovered_classes st !! c) as [ds|]; [|discriminate].
    simpl. destruct (Hybrid.validate ds) as [[t0 e]|] eqn:Ev; [|discriminate].
    simpl. intros H. inversion H; subst t0. exists e. split; [done|].
    by destruct (hybrid_validate_entry _ _ _ Ev) as (-> & _ & -> & _).
Qed.

Lemma hybrid_run_entries ops : hybrid_entries (Hybrid.run ops).
Proof.
  unfold Hybrid.run. induction ops as [|o ops IH] using rev_ind.
  - intros c t H. simpl in H. by rewrite lookup_empty in H.
  - rewrite fold_left_app. simpl. by apply hybrid_step_entries.
Qed.

(** X7. Mapping entries. In every run of either analyzer, a class in the
    mapping table has an entry in [validation_stats] whose term, lowercased,
    is the mapped term (so the matchers never fall back on the defaults 0
    and ['unknown']); and from the moment a class is mapped its entry never
    changes again, whatever calls follow. *)
Theorem mapping_entries_exist_and_are_frozen :
  (∀ (ops : list Balanced.op) (c t : string),
     Balanced.class_mapping (Balanced.run ops) !! c = Some t →
     ∃ e, Balanced.validation_stats (Balanced.run ops) !! c = Some e ∧
          t = Text.lower (Balanced.vocab_term e)) ∧
  (∀ (ops : list Hybrid.op) (c t : string),
     Hybrid.class_mapping (Hybrid.run ops) !! c = Some t →
     ∃ e, Hybrid.validation_stats (Hybrid.run ops) !! c = Some e ∧
          t = Text.lower (Hybrid.vocab_term e)) ∧
  (∀ (ops1 ops2 : list Balanced.op) (c : string),
     is_Some (Balanced.class_mapping (Balanced.run ops1) !! c) →
     Balanced.validation_stats (Balanced.run (ops1 ++ ops2)) !! c
     = Balanced.validation_stats (Balanced.run ops1) !! c) ∧
  (∀ (ops1 ops2 : list Hybrid.op) (c : string),
     is_Some (Hybrid.class_mapping (Hybrid.run ops1) !! c) →
     Hybrid.validation_stats (Hybrid.run (ops1 ++ ops2)) !! c
     = Hybrid.validation_stats (Hybrid.run ops1) !! c).
Proof.
  split; [|split; [|split]].
  - intros ops c t Hc.
    destruct (balanced_run_entries ops c t Hc) as (ds & e & _ & Hv & Hs).
    exists e. split; [done|].
    by destruct (validate_term _ _ _ Hv) as (-> & _ & -> & _).
  - intros ops c t Hc. by apply hybrid_run_entries.
  - intros ops1 ops2 c. unfold Balanced.run. rewrite fold_left_app.
    pose proof (balanced_run_entries ops1) as Inv. unfold Balanced.run in Inv.
    revert Inv. generalize (fold_left Balanced.step ops1 Balanced.init).
    induction ops2 as [|o ops IH]; intros st Inv Hc; [done|].
    cbn [fold_left]. rewrite IH.
    + by apply balanced_step_stats_frozen.
    + by apply balanced_step_entries.
    + destruct Hc as [t Hc]. exists t.
      apply balanced_step_monotone; [by apply balanced_entries_validated | done].
  - intros ops1 ops2 c. unfold Hybrid.run. rewrite fold_left_app.
    generalize (fold_left Hybrid.step ops1 Hybrid.init).
    induction ops2 as [|o ops IH]; intros st Hc; [done|].
    cbn [fold_left]. rewrite IH.
    + by apply hybrid_step_stats_frozen.
    + destruct Hc as [t Hc]. exists t. by apply hybrid_step_monotone.
Qed.

Lemma mapping_entries_exist_and_are_frozen_witness :
  ∃ e,
    Hybrid.validation_stats
      (Hybrid.run [Hybrid.Discover Scenario.acorn_cell (Some "Acorn"%string)])
      !! "42"%string = Some e ∧
    "acorn"%string = Text.lower (Hybrid.vocab_term e).
Proof.
  apply (proj1 (proj2 mapping_entries_exist_and_are_frozen)
           [Hybrid.Discover Scenario.acorn_cell (Some "Acorn"%string)]
           "42"%string "acorn"%string).
  vm_compute. reflexivity.
Defined.

End MappingEntries.

(** ** What a recorded observation looks like *)

Section ObservationInvariant.
Import Invariant.

Lemma truthy_Some_ne (o : option string) (e : string) :
  Text.truthy o = Some e → o = Some e ∧ e ≠ EmptyString.
Proof.
  destruct o as [[|a s]|]; simpl; intros H; try discriminate.
  inversion H; subst. split; [done | discriminate].
Qed.

Lemma balanced_step_observations st o :
  (∀ c d, d ∈ default [] (Balanced.discovered_classes st !! c) →
          balanced_observation_ok d) →
  ∀ c d, d ∈ default [] (Balanced.discovered_classes (Balanced.step st o) !! c) →
         balanced_observation_ok d.
Proof.
  intros Inv c d. destruct o as [predictions expected|]; simpl.
  - unfold Balanced.discover_class_mappings_balanced.
    destruct (Text.truthy expected) as [e|] eqn:Et; [|apply Inv].
    apply truthy_Some_ne in Et as [_ Hne].
    destruct (discover_fold_spec predictions e c
                (enumerate (take 5 predictions)) st)
      as (_ & _ & added & -> & Hiff).
    intros [Hd|Hd]%elem_of_app; [by apply (Inv c)|].
    apply Hiff in Hd as (i & p & sixth & Hin & _ & _ & _ & H20 & H5 & ->).
    apply elem_of_enumerate, lookup_lt_Some in Hin.
    rewrite length_take in Hin.
    unfold balanced_observation_ok. simpl. repeat split; try done; lia.
  - destruct (build_state st) as [_ ->]. apply Inv.
Qed.

Lemma hybrid_discover_step_observations expected st i p :
  expected ≠ EmptyString → (i < 3)%nat →
  (∀ c d, d ∈ default [] (Hybrid.discovered_classes st !! c) →
          hybrid_observation_ok d) →
  ∀ c d,
    d ∈ default [] (Hybrid.discovered_classes
                      (Hybrid.discover_step expected st (i, p)) !! c) →
    hybrid_observation_ok d.
Proof.
  intros Hne Hi Inv c d. unfold Hybrid.discover_step.
  assert (∀ x y, Qltb y x = false → x <= y) as Hle.
  { intros x y H. apply Qltb_nlt in H. by apply Qnot_lt_le. }
  assert (∀ x y, x <= y → ¬ y < x) as Hnlt by (intros; by apply Qle_not_lt).
  destruct (Hybrid.class_mapping st !! class_idx p); [apply Inv|].
  destruct (Qltb 70.0 _) eqn:E70; [apply Inv|]. apply Hle in E70.
  destruct (Qltb 50.0 _) eqn:E50.
  { apply Qltb_lt in E50. simpl. unfold Hybrid.append_discovery.
    destruct (decide (class_idx p = c)) as [<-|Hc];
      [rewrite lookup_insert_eq | rewrite lookup_insert_ne by done; apply Inv].
    simpl. intros [Hd| ->%list_elem_of_singleton]%elem_of_app;
      [by apply (Inv (class_idx p))|].
    unfold hybrid_observation_ok. simpl.
    split; [eapply Qlt_trans; [|exact E50]; reflexivity|].
    split; [done|]. split; [lia|]. split; [done|]. split; [done|].
    split; [intros H; by apply Hnlt in H | discriminate]. }
  apply Hle in E50.
  destruct (Qltb 30.0 _) eqn:E30; [|apply Inv].
  apply Qltb_lt in E30. simpl. unfold Hybrid.append_discovery.
  destruct (decide (class_idx p = c)) as [<-|Hc];
    [rewrite lookup_insert_eq | rewrite lookup_insert_ne by done; apply Inv].
  simpl. intros [Hd| ->%list_elem_of_singleton]%elem_of_app;
    [by apply (Inv (class_idx p))|].
  unfold hybrid_observation_ok. simpl.
  split; [done|]. split; [done|]. split; [lia|]. split; [done|].
  split; [split; [intros H; by apply Hnlt in H | discriminate] | done].
Qed.

Lemma hybrid_step_observations st o :
  (∀ c d, d ∈ default [] (Hybrid.discovered_classes st !! c) →
          hybrid_observation_ok d) →
  ∀ c d, d ∈ default [] (Hybrid.discovered_classes (Hybrid.step st o) !! c) →
         hybrid_observation_ok d.
Proof.
  intros Inv. destruct o as [predictions expected|]; simpl.
  - unfold Hybrid.discover_class_mappings_hybrid.
    destruct (Text.truthy expected) as [e|] eqn:Et; [|apply Inv].
    apply truthy_Some_ne in Et as [_ Hne].
    assert (∀ l : list (nat * prediction),
              (∀ i p, (i, p) ∈ l → (i < 3)%nat) →
              ∀ st,
                (∀ c d, d ∈ default [] (Hybrid.discovered_classes st !! c) →
                        hybrid_observation_ok d) →
                ∀ c d,
                  d ∈ default [] (Hybrid.discovered_classes
                                    (fold_left (Hybrid.discover_step e) l st) !! c) →
                  hybrid_observation_ok d) as Hfold.
    { induction l as [|[i p] l IH]; intros Hl st0 Inv0; [exact Inv0|].
      cbn [fold_left]. apply IH.
      - intros j q Hj. apply (Hl j q). by right.
      - apply hybrid_discover_step_observations; [done| |done].
        apply (Hl i p). left. }
    apply Hfold; [|exact Inv].
    intros i p Hin. apply elem_of_enumerate, lookup_lt_Some in Hin.
    rewrite length_take in Hin. lia.
  - destruct (hybrid_build_state st) as [_ ->]. apply Inv.
Qed.

(** X8. What every recorded observation satisfies, in any run. Balanced: a
    confidence above 20.0, a gap above 5.0, a rank between 1 and 5 and a
    non-empty expected term. Hybrid: a confidence above 30.0 and at most
    70.0, a rank between 1 and 3, a non-empty expected term, and the type
    ['single_evidence_validated'] exactly when the confidence is above 50.0
    (['multiple_evidence_required'] otherwise). *)
Theorem recorded_observations_are_bounded :
  (∀ (ops : list Balanced.op) (c : string) (d : Balanced.discovery),
     d ∈ default [] (Balanced.discovered_classes (Balanced.run ops) !! c) →
     20.0 < Balanced.d_confidence d ∧ 5.0 < Balanced.confidence_gap d ∧
     (1 ≤ Balanced.d_rank d ≤ 5)%nat ∧
     Balanced.expected_vocab d ≠ EmptyString) ∧
  (∀ (ops : list Hybrid.op) (c : string) (d : Hybrid.discovery),
     d ∈ default [] (Hybrid.discovered_classes (Hybrid.run ops) !! c) →
     30.0 < Hybrid.d_confidence d ∧ Hybrid.d_confidence d <= 70.0 ∧
     (1 ≤ Hybrid.d_rank d ≤ 3)%nat ∧
     Hybrid.expected_vocab d ≠ EmptyString ∧
     (50.0 < Hybrid.d_confidence d ↔
      Hybrid.d_mapping_type d = Hybrid.single_evidence_validated) ∧
     (Hybrid.d_confidence d <= 50.0 ↔
      Hybrid.d_mapping_type d = Hybrid.multiple_evidence_required)).
Proof.
  split.
  - intros ops. unfold Balanced.run.
    induction ops as [|o ops IH] using rev_ind.
    + intros c d H. simpl in H. rewrite lookup_empty in H. inversion H.
    + rewrite fold_left_app. cbn [fold_left].
      by apply balanced_step_observations.
  - intros ops. unfold Hybrid.run.
    induction ops as [|o ops IH] using rev_ind.
    + intros c d H. simpl in H. rewrite lookup_empty in H. inversion H.
    + rewrite fold_left_app. cbn [fold_left].
      by apply hybrid_step_observations.
Qed.

End ObservationInvariant.

(** ** Hybrid analyzer: a class with a single observation *)

Section HybridSingleEvidence.
Import Hybrid.

Lemma Qltb_proper (a x y : Q) : x == y → Qltb a x = Qltb a y.
Proof.
  intros E. destruct (Qltb a y) eqn:Ey.
  - apply Qltb_lt. apply Qltb_lt in Ey. by rewrite E.
  - apply Qltb_nlt. apply Qltb_nlt in Ey. by rewrite E.
Qed.

Lemma hybrid_avg_single (d : discovery) : avg_confidence_of [d] == d_confidence d.
Proof.
  unfold avg_confidence_of, total_confidence, of_int. simpl.
  rewrite Qplus_0_l. unfold Qdiv. change (/ inject_Z 1) with 1. apply Qmult_1_r.
Qed.

(** X9. A class with exactly one observation, not yet mapped. If the
    confidence of the observation is above 50.0, the hybrid rebuild accepts
    the class with the lowercased expected term of the observation, an
    [evidence_count] of 1, a [consistency_ratio] of 1, the type
    ['single_high_confidence'] and a [quality_score] of twice the
    confidence. If the confidence is 50.0 or less, the class is rejected. *)
Theorem hybrid_single_observation (st : state) (c : string) (d : discovery) :
  discovered_classes st !! c = Some [d] →
  class_mapping st !! c = None →
  (50.0 < d_confidence d →
   fst (build_class_mapping_hybrid st) !! c = Some (Text.lower (expected_vocab d)) ∧
   ∃ e, validation_stats (snd (build_class_mapping_hybrid st)) !! c = Some e ∧
        vocab_term e = expected_vocab d ∧
        evidence_count e = 1%nat ∧
        consistency_ratio e == 1 ∧
        s_mapping_type e = single_high_confidence ∧
        quality_score e == 2 * d_confidence d) ∧
  (d_confidence d <= 50.0 →
   fst (build_class_mapping_hybrid st) !! c = None ∧
   class_mapping (snd (build_class_mapping_hybrid st)) !! c = None).
Proof.
  intros Hd Hm.
  rewrite hybrid_new_mappings_lookup, hybrid_build_stats_lookup,
    hybrid_build_mapping_lookup, Hm, Hd. cbn [mbind option_bind].
  assert (Hv : validate [d]
               = match verdict [d] with
                 | Some mapping_type =>
                     Some (Text.lower (expected_vocab d),
                           {| vocab_term := expected_vocab d;
                              evidence_count := 1;
                              avg_confidence := avg_confidence_of [d];
                              consistency_ratio := consistency_ratio_of [d];
                              high_confidence_ratio :=
                                Some (high_confidence_ratio_of [d]);
                              quality_score :=
                                avg_confidence_of [d] * consistency_ratio_of [d]
                                * (1 + high_confidence_ratio_of [d]);
                              s_mapping_type := mapping_type |})
                 | None => None
                 end) by reflexivity.
  rewrite Hv. clear Hv. unfold verdict. cbn [length Nat.eqb Nat.leb andb].
  rewrite (Qltb_proper _ _ _ (hybrid_avg_single d)).
  split.
  - intros H%Qltb_lt. rewrite H. cbn. split; [done|].
    eexists. split; [reflexivity|]. cbn [vocab_term evidence_count
      consistency_ratio s_mapping_type quality_score].
    split; [done|]. split; [done|].
    assert (consistency_ratio_of [d] == 1) as Hc by reflexivity.
    split; [exact Hc|]. split; [done|].
    assert (high_confidence_ratio_of [d] == 1) as Hh.
    { unfold high_confidence_ratio_of, high_confidence_count. cbn.
      rewrite H. reflexivity. }
    rewrite hybrid_avg_single, Hc, Hh. ring.
  - intros H.
    assert (Qltb 50.0 (d_confidence d) = false) as ->
      by (apply Qltb_nlt; by apply Qle_not_lt).
    done.
Qed.

Lemma hybrid_single_observation_witness :
  fst (build_class_mapping_hybrid
         (discover_class_mappings_hybrid init (Scenario.cell_at 60)
                                         (Some "Acorn"%string)))
    !! "42"%string = Some "acorn"%string.
Proof.
  destruct (hybrid_single_observation
              (discover_class_mappings_hybrid init (Scenario.cell_at 60)
                                              (Some "Acorn"%string))
              "42"%string
              {| expected_vocab := "Acorn"; d_confidence := 60 / 100 * 100;
                 d_rank := 1; d_mapping_type := single_evidence_validated |}
              ltac:(reflexivity) ltac:(reflexivity))
    as [H _].
  destruct (H ltac:(reflexivity)) as [H1 _]. exact H1.
Defined.

End HybridSingleEvidence.

(** ** A rebuild repeated changes nothing *)

Lemma balanced_state_eq (s1 s2 : Balanced.state) :
  Balanced.class_mapping s1 = Balanced.class_mapping s2 →
  Balanced.discovered_classes s1 = Balanced.discovered_classes s2 →
  Balanced.validation_stats s1 = Balanced.validation_stats s2 →
  s1 = s2.
Proof. destruct s1, s2; simpl; intros; by subst. Qed.

Lemma hybrid_state_eq (s1 s2 : Hybrid.state) :
  Hybrid.class_mapping s1 = Hybrid.class_mapping s2 →
  Hybrid.discovered_classes s1 = Hybrid.discovered_classes s2 →
  Hybrid.validation_stats s1 = Hybrid.validation_stats s2 →
  s1 = s2.
Proof. destruct s1, s2; simpl; intros; by subst. Qed.

(** X10. Rebuilding is idempotent on the analyzer's state: in both
    analyzers, a second rebuild right after a first one leaves the mapping
    table, the evidence ledger and the validation statistics exactly as the
    first left them. *)
Theorem rebuild_is_idempotent_on_state :
  (∀ st : Balanced.state,
     snd (Balanced.build_class_mapping_balanced
            (snd (Balanced.build_class_mapping_balanced st)))
     = snd (Balanced.build_class_mapping_balanced st)) ∧
  (∀ st : Hybrid.state,
     snd (Hybrid.build_class_mapping_hybrid
            (snd (Hybrid.build_class_mapping_hybrid st)))
     = snd (Hybrid.build_class_mapping_hybrid st)).
Proof.
  split; intros st.
  - apply balanced_state_eq.
    + destruct (build_state (snd (Balanced.build_class_mapping_balanced st)))
        as [-> _].
      rewrite balanced_rebuild_repeats.
      destruct (build_state st) as [-> _].
      apply map_eq. intros c. rewrite !lookup_union.
      by destruct (fst (Balanced.build_class_mapping_balanced st) !! c),
                  (Balanced.class_mapping st !! c).
    + by destruct (build_state (snd (Balanced.build_class_mapping_balanced st)))
        as [_ ->].
    + apply map_eq. intros c. rewrite !build_stats_lookup.
      destruct (build_state st) as [_ ->].
      by destruct (Balanced.discovered_classes st !! c ≫= Balanced.validate).
  - apply hybrid_state_eq.
    + destruct (hybrid_build_state (snd (Hybrid.build_class_mapping_hybrid st)))
        as [-> _].
      rewrite hybrid_rebuild_idempotent. apply map_eq. intros c.
      by rewrite lookup_union, lookup_empty, (left_id_L None (∪)).
    + by destruct (hybrid_build_state (snd (Hybrid.build_class_mapping_hybrid st)))
        as [_ ->].
    + apply map_eq. intros c.
      rewrite (hybrid_build_stats_lookup (snd _)), hybrid_build_mapping_lookup.
      destruct (hybrid_build_state st) as [_ ->].
      rewrite hybrid_build_stats_lookup.
      destruct (Hybrid.class_mapping st !! c); [done|].
      destruct (Hybrid.discovered_classes st !! c ≫= Hybrid.validate)
        as [[t e]|]; done.
Qed.

(** ** What a discovery call reads *)

Lemma fold_left_ext_eq {A B} (f g : A → B → A) (l : list B) (a : A) :
  (∀ x y, f x y = g x y) → fold_left f l a = fold_left g l a.
Proof.
  intros H. revert a. induction l as [|y l IH]; intros a; simpl; [done|].
  by rewrite H, IH.
Qed.

Lemma fold_left_id {A B} (f : A → B → A) (l : list B) (a : A) :
  (∀ x y, f x y = x) → fold_left f l a = a.
Proof.
  intros H. induction l as [|y l IH]; simpl; [done|]. by rewrite H.
Qed.

(** X11. A discovery call reads only the head of the prediction list and
    does nothing without an expected term. The balanced call depends on the
    first six predictions only and records nothing at all when five or
    fewer are given (there is no sixth prediction to measure the gap
    against); the hybrid call depends on the first three only; and with an
    expected term that is [None] or empty both calls return the state
    unchanged. *)
Theorem discovery_reads_a_prefix :
  (∀ st predictions expected_vocab,
     Balanced.discover_class_mappings_balanced st predictions expected_vocab
     = Balanced.discover_class_mappings_balanced st (take 6 predictions)
                                                 expected_vocab) ∧
  (∀ st predictions expected_vocab,
     (length predictions ≤ 5)%nat →
     Balanced.discover_class_mappings_balanced st predictions expected_vocab
     = st) ∧
  (∀ st predictions expected_vocab,
     Hybrid.discover_class_mappings_hybrid st predictions expected_vocab
     = Hybrid.discover_class_mappings_hybrid st (take 3 predictions)
                                             expected_vocab) ∧
  (∀ st predictions,
     Balanced.discover_class_mappings_balanced st predictions None = st ∧
     Balanced.discover_class_mappings_balanced st predictions
                                               (Some EmptyString) = st) ∧
  (∀ st predictions,
     Hybrid.discover_class_mappings_hybrid st predictions None = st ∧
     Hybrid.discover_class_mappings_hybrid st predictions
                                           (Some EmptyString) = st).
Proof.
  split; [|split; [|split; [|split]]].
  - intros st predictions expected_vocab.
    unfold Balanced.discover_class_mappings_balanced.
    destruct (Text.truthy expected_vocab) as [e|]; [|done].
    rewrite take_take. change (5 `min` 6)%nat with 5%nat.
    apply fold_left_ext_eq. intros s [i p]. unfold Balanced.discover_step.
    by rewrite (lookup_take_lt predictions 6 5) by lia.
  - intros st predictions expected_vocab Hlen.
    unfold Balanced.discover_class_mappings_balanced.
    destruct (Text.truthy expected_vocab) as [e|]; [|done].
    apply fold_left_id. intros s [i p]. unfold Balanced.discover_step.
    rewrite (lookup_ge_None_2 predictions 5) by lia.
    by destruct (Qltb 20.0 _).
  - intros st predictions expected_vocab.
    unfold Hybrid.discover_class_mappings_hybrid.
    destruct (Text.truthy expected_vocab) as [e|]; [|done].
    by rewrite take_take.
  - done.
  - done.
Qed.

Lemma discovery_reads_a_prefix_witness :
  Balanced.discover_class_mappings_balanced
    Balanced.init (take 5 Scenario.acorn_cell) (Some "Acorn"%string)
  = Balanced.init.
Proof.
  apply (proj1 (proj2 discovery_reads_a_prefix)). simpl. lia.
Defined.

(** ** The vocabulary term of an image id *)

Section VocabularyLookup.
Import Batch.

Lemma hybrid_run_aborted image download size crop predict vocab_terms ids :
  fold_left (HybridRun.run_step image download size crop predict vocab_terms)
            ids None = None.
Proof. induction ids; simpl; auto. Qed.

Lemma balanced_run_aborted image download size crop predict vocab_terms ids :
  fold_left (BalancedRun.run_step image download size crop predict vocab_terms)
            ids None = None.
Proof. induction ids; simpl; auto. Qed.

Lemma id_range_cons (start_id end_id : Z) :
  (start_id ≤ end_id)%Z →
  id_range start_id end_id = start_id :: id_range (start_id + 1) end_id.
Proof.
  intros H. unfold id_range.
  replace (Z.to_nat (end_id + 1 - start_id))
    with (S (Z.to_nat (end_id + 1 - (start_id + 1)))) by lia.
  cbn [seq map]. f_equal; [lia|].
  rewrite <- seq_shift, map_map. apply map_ext. intros k. lia.
Qed.

(** X12. The expected term of image [i] is looked up at index [i - 4] with
    Python's indexing rules. For [4 <= i < 4 + len] it is the term at that
    index; for [i >= 4 + len] it is [None]; for [4 - len <= i < 4] the
    negative index counts from the end of the list (image 3 gets the last
    term); and for [i < 4 - len] the lookup raises [IndexError], which
    nothing catches: a run of either analyzer that starts at such an id
    stops at its first image and returns no results. *)
Theorem vocabulary_lookup_by_image_id (vocab_terms : list string) (i : Z) :
  ((4 ≤ i < 4 + Z.of_nat (length vocab_terms))%Z →
   ∃ t, vocab_terms !! Z.to_nat (i - 4) = Some t ∧
        expected_vocab_at vocab_terms i = Some (Some t)) ∧
  ((4 + Z.of_nat (length vocab_terms) ≤ i)%Z →
   expected_vocab_at vocab_terms i = Some None) ∧
  ((4 - Z.of_nat (length vocab_terms) ≤ i < 4)%Z →
   ∃ t, vocab_terms !! Z.to_nat (Z.of_nat (length vocab_terms) + (i - 4))
        = Some t ∧
        expected_vocab_at vocab_terms i = Some (Some t)) ∧
  ((i < 4 - Z.of_nat (length vocab_terms))%Z →
   expected_vocab_at vocab_terms i = None ∧
   ∀ image download size crop predict self rs end_id,
     (i ≤ end_id)%Z →
     HybridRun.run_hybrid_analysis image download size crop predict
                                   vocab_terms self i end_id = None ∧
     BalancedRun.run_balanced_test image download size crop predict
                                   vocab_terms rs i end_id = None).
Proof.
  unfold expected_vocab_at. split; [|split; [|split]].
  - intros H.
    destruct (lookup_lt_is_Some_2 vocab_terms (Z.to_nat (i - 4))) as [t Ht];
      [lia|].
    exists t. split; [done|].
    destruct (Z.ltb_spec (i - 4) (Z.of_nat (length vocab_terms))); [|lia].
    destruct (Z.leb_spec 0 (i - 4)); [|lia]. by rewrite Ht.
  - intros H.
    destruct (Z.ltb_spec (i - 4) (Z.of_nat (length vocab_terms))); [lia|done].
  - intros H.
    destruct (lookup_lt_is_Some_2 vocab_terms
                (Z.to_nat (Z.of_nat (length vocab_terms) + (i - 4))))
      as [t Ht]; [lia|].
    exists t. split; [done|].
    destruct (Z.ltb_spec (i - 4) (Z.of_nat (length vocab_terms))); [|lia].
    destruct (Z.leb_spec 0 (i - 4)); [lia|].
    destruct (Z.leb_spec (- Z.of_nat (length vocab_terms)) (i - 4)); [|lia].
    by rewrite Ht.
  - intros H.
    assert (expected_vocab_at vocab_terms i = None) as He.
    { unfold expected_vocab_at.
      destruct (Z.ltb_spec (i - 4) (Z.of_nat (length vocab_terms))); [|lia].
      destruct (Z.leb_spec 0 (i - 4)); [lia|].
      destruct (Z.leb_spec (- Z.of_nat (length vocab_terms)) (i - 4)); [lia|done]. }
    split; [exact He|].
    intros image download size crop predict self rs end_id Hle.
    unfold HybridRun.run_hybrid_analysis, BalancedRun.run_balanced_test.
    rewrite (id_range_cons i end_id Hle). cbn [fold_left].
    unfold HybridRun.run_step at 2. unfold BalancedRun.run_step at 2.
    rewrite He, hybrid_run_aborted, balanced_run_aborted. done.
Qed.

Lemma vocabulary_lookup_by_image_id_witness :
  expected_vocab_at ["acorn"; "aloe"; "antenna"]%string 3
  = Some (Some "antenna"%string).
Proof.
  destruct (vocabulary_lookup_by_image_id
              ["acorn"; "aloe"; "antenna"]%string 3) as (_ & _ & H & _).
  destruct (H ltac:(simpl; lia)) as (t & Ht & He).
  rewrite He. simpl in Ht. by inversion Ht.
Defined.

End VocabularyLookup.

(** ** One result per image *)

Section OneResultPerImage.
Import Batch.

Variable image : Type.
Variable download : Z → string + image.
Variable size : image → Z * Z.
Variable crop : image → Grid.box → image.
Variable predict : image → list prediction.

Lemma elem_of_id_range (start_id end_id i : Z) :
  i ∈ id_range start_id end_id ↔ (start_id ≤ i ≤ end_id)%Z.
Proof.
  unfold id_range. rewrite list_elem_of_fmap. split.
  - intros (k & -> & Hk). apply list_elem_of_In, in_seq in Hk. lia.
  - intros H. exists (Z.to_nat (i - start_id)). split; [lia|].
    apply list_elem_of_In, in_seq. lia.
Qed.

Lemma hybrid_cells_results expected_vocab (cells : list (string * image)) :
  ∀ acc,
    HybridRun.results
      (HybridRun.a_self
         (fold_left (HybridRun.cell_step image predict expected_vocab) cells acc))
    = HybridRun.results (HybridRun.a_self acc).
Proof.
  induction cells as [|[position cell_image] cells IH]; intros acc; [done|].
  cbn [fold_left]. by rewrite IH.
Qed.

(** The result that image [i] gets in the hybrid loop. *)
Local Abbreviation hybrid_result_of vocab_terms :=
  (λ (r : HybridRun.image_result) (i : Z),
     match download i with
     | inl error => r = HybridRun.Failure i error
     | inr _ =>
         ∃ expected_vocab grid_results correct any,
           expected_vocab_at vocab_terms i = Some expected_vocab ∧
           r = HybridRun.Success i expected_vocab grid_results correct any
     end).

Lemma hybrid_run_step_result vocab_terms self i :
  is_Some (expected_vocab_at vocab_terms i) →
  ∃ self' r,
    HybridRun.run_step image download size crop predict vocab_terms (Some self) i
      = Some self' ∧
    HybridRun.results self' = HybridRun.results self ++ [r] ∧
    hybrid_result_of vocab_terms r i.
Proof.
  intros [e He]. unfold HybridRun.run_step. rewrite He.
  unfold HybridRun.analyze_image_hybrid.
  destruct (download i) as [error|full_image] eqn:Ed.
  - eexists _, _. split; [reflexivity|]. cbn. done.
  - destruct (size full_image) as [width height].
    set (cells := map _ (Grid.grid_boxes width height)).
    set (acc0 := HybridRun.Build_cells_acc _ _ _ _).
    pose proof (hybrid_cells_results e cells acc0) as Hr.
    set (acc := fold_left _ cells acc0) in *. clearbody acc cells.
    subst acc0. cbn [HybridRun.a_self] in Hr.
    eexists _, _. split; [reflexivity|]. cbn. rewrite Hr.
    split; [done|]. by eexists _, _, _, _.
Qed.

Lemma hybrid_loop_results vocab_terms (ids : list Z) :
  (∀ i, i ∈ ids → is_Some (expected_vocab_at vocab_terms i)) →
  ∀ self,
    ∃ self' new,
      fold_left (HybridRun.run_step image download size crop predict vocab_terms)
                ids (Some self) = Some self' ∧
      HybridRun.results self' = HybridRun.results self ++ new ∧
      Forall2 (hybrid_result_of vocab_terms) new ids.
Proof.
  induction ids as [|i ids IH]; intros Hids self.
  - exists self, []. rewrite app_nil_r. repeat split; constructor.
  - destruct (hybrid_run_step_result vocab_terms self i) as (self1 & r & H1 & H2 & H3).
    { apply Hids. left. }
    destruct (IH (λ j Hj, Hids j (list_elem_of_further _ _ _ Hj)) self1)
      as (self' & new & H4 & H5 & H6).
    exists self', (r :: new). cbn [fold_left]. rewrite H1.
    split; [done|]. split; [|by constructor].
    rewrite H5, H2. by rewrite <- app_assoc.
Qed.

End OneResultPerImage.

Section BalancedLoop.
Import Batch Report.

Variable image : Type.
Variable download : Z → string + image.
Variable size : image → Z * Z.
Variable crop : image → Grid.box → image.
Variable predict : image → list prediction.

Lemma existsb_true_not_nil {A} (f : A → bool) (l : list A) :
  existsb f l = true → l ≠ [].
Proof. by destruct l. Qed.

Lemma is_correct_truthy expected_vocab t :
  is_correct expected_vocab t = true → is_Some (Text.truthy expected_vocab).
Proof.
  unfold is_correct. destruct (Text.truthy expected_vocab); [by eexists | done].
Qed.

(** Flags of the loop over the cells: a correct detection is a detection,
    and needs an expected term. *)
Lemma balanced_cells_flags expected_vocab (cells : list (string * image)) :
  ∀ acc,
    (BalancedRun.a_correct acc = true →
     BalancedRun.a_any acc = true ∧ is_Some (Text.truthy expected_vocab)) →
    BalancedRun.a_correct
      (fold_left (BalancedRun.cell_step image predict expected_vocab) cells acc)
      = true →
    BalancedRun.a_any
      (fold_left (BalancedRun.cell_step image predict expected_vocab) cells acc)
      = true ∧ is_Some (Text.truthy expected_vocab).
Proof.
  induction cells as [|[position cell_image] cells IH]; intros acc Hacc; [done|].
  cbn [fold_left]. apply IH.
  unfold BalancedRun.cell_step, BalancedRun.analyze_grid_cell_balanced. cbn.
  intros [H|H]%orb_true_iff.
  - destruct (Hacc H) as [-> Ht]. done.
  - split.
    + apply orb_true_iff. right. apply negb_true_iff, bool_decide_eq_false.
      by apply existsb_true_not_nil in H.
    + apply existsb_exists in H as (m & _ & Hm). by apply is_correct_truthy in Hm.
Qed.

(** The result that image [i] gets in the balanced loop. *)
Local Abbreviation balanced_result_of vocab_terms :=
  (λ (r : BalancedRun.image_result) (i : Z),
     match download i with
     | inl error => r = BalancedRun.Failure i error
     | inr _ =>
         ∃ expected_vocab grid_results correct any,
           expected_vocab_at vocab_terms i = Some expected_vocab ∧
           r = BalancedRun.Success i expected_vocab grid_results correct any
     end).

Lemma counters_after (rs rs1 : BalancedRun.run_state) (r : BalancedRun.image_result) :
  counters_count_results rs →
  BalancedRun.results rs1 = BalancedRun.results rs ++ [r] →
  BalancedRun.correct_detections rs1
    = (BalancedRun.correct_detections rs + if b_has_correct r then 1 else 0)%nat →
  BalancedRun.total_expected rs1
    = (BalancedRun.total_expected rs + if b_has_expected r then 1 else 0)%nat →
  BalancedRun.images_with_detections rs1
    = (BalancedRun.images_with_detections rs + if b_has_any r then 1 else 0)%nat →
  (b_has_correct r = true → b_has_any r = true ∧ b_has_expected r = true) →
  counters_count_results rs1.
Proof.
  intros (H1 & H2 & H3 & H4) Hr Hc Ht Ha Hok. unfold counters_count_results.
  rewrite Hr, Hc, Ht, Ha, !filter_app, !length_app, H1, H2, H3.
  rewrite !filter_cons, !filter_nil.
  repeat split.
  - destruct (b_has_correct r); simpl; done.
  - destruct (b_has_expected r); simpl; done.
  - destruct (b_has_any r); simpl; done.
  - apply Forall_app. split; [done|]. by constructor.
Qed.

Lemma balanced_run_step_result vocab_terms rs i :
  is_Some (expected_vocab_at vocab_terms i) →
  counters_count_results rs →
  ∃ rs' r,
    BalancedRun.run_step image download size crop predict vocab_terms (Some rs) i
      = Some rs' ∧
    BalancedRun.results rs' = BalancedRun.results rs ++ [r] ∧
    balanced_result_of vocab_terms r i ∧
    counters_count_results rs'.
Proof.
  intros [e He] Hcnt. unfold BalancedRun.run_step. rewrite He.
  destruct (download i) as [error|full_image] eqn:Ed.
  - eexists _, (BalancedRun.Failure i error). split; [reflexivity|].
    destruct (i mod 4 =? 0)%Z; cbn; (split; [done|]); (split; [done|]);
      (eapply counters_after; [exact Hcnt|reflexivity|cbn; lia..|done]).
  - destruct (size full_image) as [width height].
    set (cells := map _ (Grid.grid_boxes width height)).
    set (acc0 := BalancedRun.Build_cells_acc _ _ _ _ _).
    pose proof (balanced_cells_flags e cells acc0 ltac:(done)) as Hflags.
    set (acc := fold_left _ cells acc0) in *. clearbody acc cells.
    eexists _, (BalancedRun.Success i e (BalancedRun.a_grid_results acc)
                  (BalancedRun.a_correct acc) (BalancedRun.a_any acc)).
    split; [reflexivity|].
    assert (∀ rs1,
              BalancedRun.results rs1
                = BalancedRun.results rs
                  ++ [BalancedRun.Success i e (BalancedRun.a_grid_results acc)
                        (BalancedRun.a_correct acc) (BalancedRun.a_any acc)] →
              BalancedRun.correct_detections rs1
                = (if BalancedRun.a_correct acc
                   then BalancedRun.correct_detections rs + 1
                   else BalancedRun.correct_detections rs)%nat →
              BalancedRun.total_expected rs1
                = match Text.truthy e with
                  | Some _ => (BalancedRun.total_expected rs + 1)%nat
                  | None => BalancedRun.total_expected rs
                  end →
              BalancedRun.images_with_detections rs1
                = (if BalancedRun.a_any acc
                   then BalancedRun.images_with_detections rs + 1
                   else BalancedRun.images_with_detections rs)%nat →
              counters_count_results rs1) as Hafter.
    { intros rs1 Hr Hc Ht Ha.
      eapply counters_after; [exact Hcnt|exact Hr|..]; cbn.
      - rewrite Hc. destruct (BalancedRun.a_correct acc); lia.
      - rewrite Ht. destruct (Text.truthy e); lia.
      - rewrite Ha. destruct (BalancedRun.a_any acc); lia.
      - intros Hc'. destruct (Hflags Hc') as [-> [x ->]]. done. }
    destruct (i mod 4 =? 0)%Z; cbn.
    + split; [done|]. split; [by eexists _, _, _, _|]. by apply Hafter.
    + split; [done|]. split; [by eexists _, _, _, _|]. by apply Hafter.
Qed.

Lemma balanced_loop_results vocab_terms (ids : list Z) :
  (∀ i, i ∈ ids → is_Some (expected_vocab_at vocab_terms i)) →
  ∀ rs,
    counters_count_results rs →
    ∃ rs' new,
      fold_left (BalancedRun.run_step image download size crop predict vocab_terms)
                ids (Some rs) = Some rs' ∧
      BalancedRun.results rs' = BalancedRun.results rs ++ new ∧
      Forall2 (balanced_result_of vocab_terms) new ids ∧
      counters_count_results rs'.
Proof.
  induction ids as [|i ids IH]; intros Hids rs Hcnt.
  - exists rs, []. rewrite app_nil_r.
    split; [done|]. split; [done|]. split; [constructor | done].
  - destruct (balanced_run_step_result vocab_terms rs i) as (rs1 & r & H1 & H2 & H3 & H4);
      [apply Hids; left | done |].
    destruct (IH (λ j Hj, Hids j (list_elem_of_further _ _ _ Hj)) rs1 H4)
      as (rs' & new & H5 & H6 & H7 & H8).
    exists rs', (r :: new). cbn [fold_left]. rewrite H1.
    split; [done|]. split; [|split; [by constructor | done]].
    rewrite H6, H2. by rewrite <- app_assoc.
Qed.

End BalancedLoop.

Section LoopTheorems.
Import Batch Report.

Lemma expected_vocab_at_is_Some (vocab_terms : list string) (i : Z) :
  (4 - Z.of_nat (length vocab_terms) ≤ i)%Z →
  is_Some (expected_vocab_at vocab_terms i).
Proof.
  intros H. unfold expected_vocab_at.
  destruct (Z.ltb_spec (i - 4) (Z.of_nat (length vocab_terms))); [|by eexists].
  destruct (Z.leb_spec 0 (i - 4)); [by eexists|].
  destruct (Z.leb_spec (- Z.of_nat (length vocab_terms)) (i - 4));
    [by eexists | lia].
Qed.

(** X13. One result per image, in order. When no image id of the range lies
    below [4 - len(vocab_terms)], [run_hybrid_analysis] and
    [run_balanced_test] on a fresh analyzer go through the whole range and
    record exactly one result for each id from [start_id] to [end_id], in
    that order: a failure with the error text when the download fails (the
    batch goes on), and otherwise a success carrying the id and the
    expected term looked up for it. *)
Theorem one_result_per_image
    (image : Type) (download : Z → string + image) (size : image → Z * Z)
    (crop : image → Grid.box → image) (predict : image → list prediction)
    (vocab_terms : list string) (start_id end_id : Z) :
  (4 - Z.of_nat (length vocab_terms) ≤ start_id)%Z →
  (∃ self',
     HybridRun.run_hybrid_analysis image download size crop predict
       vocab_terms HybridRun.new_analyzer start_id end_id = Some self' ∧
     Forall2
       (λ r i,
          match download i with
          | inl error => r = HybridRun.Failure i error
          | inr _ =>
              ∃ expected_vocab grid_results correct any,
                expected_vocab_at vocab_terms i = Some expected_vocab ∧
                r = HybridRun.Success i expected_vocab grid_results correct any
          end)
       (HybridRun.results self') (id_range start_id end_id)) ∧
  (∃ rs',
     BalancedRun.run_balanced_test image download size crop predict
       vocab_terms BalancedRun.new_run start_id end_id = Some rs' ∧
     Forall2
       (λ r i,
          match download i with
          | inl error => r = BalancedRun.Failure i error
          | inr _ =>
              ∃ expected_vocab grid_results correct any,
                expected_vocab_at vocab_terms i = Some expected_vocab ∧
                r = BalancedRun.Success i expected_vocab grid_results correct any
          end)
       (BalancedRun.results rs') (id_range start_id end_id)).
Proof.
  intros Hstart.
  assert (∀ i, i ∈ id_range start_id end_id →
               is_Some (expected_vocab_at vocab_terms i)) as Hids.
  { intros i Hi%elem_of_id_range. apply expected_vocab_at_is_Some. lia. }
  split.
  - destruct (hybrid_loop_results image download size crop predict vocab_terms
                _ Hids HybridRun.new_analyzer) as (self' & new & H1 & H2 & H3).
    unfold HybridRun.run_hybrid_analysis. rewrite H1.
    eexists. split; [reflexivity|]. cbn. by rewrite H2.
  - destruct (balanced_loop_results image download size crop predict vocab_terms
                _ Hids BalancedRun.new_run) as (rs' & new & H1 & H2 & H3 & _).
    { repeat split; constructor. }
    unfold BalancedRun.run_balanced_test. rewrite H1.
    eexists. split; [reflexivity|]. cbn. by rewrite H2.
Qed.

Lemma one_result_per_image_witness :
  ∃ self',
    HybridRun.run_hybrid_analysis unit (λ i, if (i =? 5)%Z then inl "timeout"%string
                                             else inr tt)
      (λ _, (2, 2)%Z) (λ im _, im) (λ _, Scenario.noise_cell)
      ["acorn"; "aloe"; "antenna"]%string HybridRun.new_analyzer 4 6 = Some self' ∧
    length (HybridRun.results self') = 3%nat.
Proof.
  destruct (one_result_per_image unit
              (λ i, if (i =? 5)%Z then inl "timeout"%string else inr tt)
              (λ _, (2, 2)%Z) (λ im _, im) (λ _, Scenario.noise_cell)
              ["acorn"; "aloe"; "antenna"]%string 4 6 ltac:(simpl; lia))
    as [(self' & H1 & H2) _].
  exists self'. split; [exact H1|].
  apply Forall2_length in H2. rewrite H2. reflexivity.
Defined.

End LoopTheorems.

(** ** The statistics *)

Section Statistics.
Import Batch Report.

Lemma percent_bounds (a b : nat) :
  (a ≤ b)%nat → (0 < b)%nat →
  0 <= of_int a / of_int b * 100 ∧ of_int a / of_int b * 100 <= 100.
Proof.
  intros Hab Hb.
  assert (0 < of_int b) as Hpos by (unfold of_int, Qlt; simpl; lia).
  assert (0 <= of_int a) as Ha by (unfold of_int, Qle; simpl; lia).
  assert (of_int a <= of_int b) as Hle by (unfold of_int, Qle; simpl; lia).
  split.
  - apply Qmult_le_0_compat; [|discriminate].
    apply Qle_shift_div_l; [done|]. by rewrite Qmult_0_l.
  - apply Qle_trans with (1 * 100); [|discriminate].
    apply Qmult_le_compat_r; [|discriminate].
    apply Qle_shift_div_r; [done|]. by rewrite Qmult_1_l.
Qed.

Lemma filter_length_le_impl {A} (P R : A → bool) (l : list A) :
  Forall (λ x, P x = true → R x = true) l →
  (length (filter (λ x, P x) l) ≤ length (filter (λ x, R x) l))%nat.
Proof.
  induction 1 as [|x l Hx Hl IH]; [done|].
  rewrite !filter_cons.
  destruct (P x) eqn:EP; [rewrite (Hx eq_refl)|destruct (R x)]; simpl; lia.
Qed.

(** X14. The figures of [run_balanced_test]. After a run on a fresh
    analyzer (no image id below [4 - len(vocab_terms)]), the three counters
    count the results: [correct_detections] the results with a correct
    detection, [total_expected] the successes that had an expected term,
    [images_with_detections] the results with any detection. Hence
    [correct_detections <= total_expected],
    [correct_detections <= images_with_detections <= len(successful_results)],
    and both [accuracy] and [detection_rate] lie between 0 and 100. *)
Theorem balanced_statistics_are_sound
    (image : Type) (download : Z → string + image) (size : image → Z * Z)
    (crop : image → Grid.box → image) (predict : image → list prediction)
    (vocab_terms : list string) (start_id end_id : Z) :
  (4 - Z.of_nat (length vocab_terms) ≤ start_id)%Z →
  ∃ rs',
    BalancedRun.run_balanced_test image download size crop predict
      vocab_terms BalancedRun.new_run start_id end_id = Some rs' ∧
    BalancedRun.correct_detections rs'
      = length (filter (λ r, b_has_correct r) (BalancedRun.results rs')) ∧
    BalancedRun.total_expected rs'
      = length (filter (λ r, b_has_expected r) (BalancedRun.results rs')) ∧
    BalancedRun.images_with_detections rs'
      = length (filter (λ r, b_has_any r) (BalancedRun.results rs')) ∧
    (BalancedRun.correct_detections rs' ≤ BalancedRun.total_expected rs')%nat ∧
    (BalancedRun.correct_detections rs'
     ≤ BalancedRun.images_with_detections rs')%nat ∧
    (BalancedRun.images_with_detections rs'
     ≤ length (filter (λ r, b_success r) (BalancedRun.results rs')))%nat ∧
    0 <= balanced_accuracy rs' ∧ balanced_accuracy rs' <= 100 ∧
    0 <= balanced_detection_rate rs' ∧ balanced_detection_rate rs' <= 100.
Proof.
  intros Hstart.
  assert (∀ i, i ∈ id_range start_id end_id →
               is_Some (expected_vocab_at vocab_terms i)) as Hids.
  { intros i Hi%elem_of_id_range. apply expected_vocab_at_is_Some. lia. }
  destruct (balanced_loop_results image download size crop predict vocab_terms
              _ Hids BalancedRun.new_run)
    as (rs1 & new & H1 & _ & _ & Hc & Ht & Ha & Hok).
  { repeat split; constructor. }
  unfold BalancedRun.run_balanced_test. rewrite H1.
  eexists. split; [reflexivity|].
  unfold balanced_accuracy, balanced_detection_rate.
  cbn [BalancedRun.correct_detections BalancedRun.total_expected
       BalancedRun.images_with_detections BalancedRun.results].
  assert (BalancedRun.correct_detections rs1 ≤ BalancedRun.total_expected rs1)%nat
    as Hct.
  { rewrite Hc, Ht. apply filter_length_le_impl.
    eapply Forall_impl; [exact Hok|]. simpl. tauto. }
  assert (BalancedRun.correct_detections rs1
          ≤ BalancedRun.images_with_detections rs1)%nat as Hca.
  { rewrite Hc, Ha. apply filter_length_le_impl.
    eapply Forall_impl; [exact Hok|]. simpl. tauto. }
  assert (BalancedRun.images_with_detections rs1
          ≤ length (filter (λ r, b_success r) (BalancedRun.results rs1)))%nat
    as Has.
  { rewrite Ha. apply filter_length_le_impl. apply Forall_forall.
    intros r _. by destruct r. }
  split; [done|]. split; [done|]. split; [done|].
  split; [done|]. split; [done|]. split; [done|].
  assert (0 <= balanced_accuracy rs1 ∧ balanced_accuracy rs1 <= 100) as [? ?].
  { unfold balanced_accuracy.
    destruct (Nat.ltb_spec 0 (BalancedRun.total_expected rs1));
      [by apply percent_bounds | split; discriminate]. }
  assert (0 <= balanced_detection_rate rs1 ∧ balanced_detection_rate rs1 <= 100)
    as [? ?].
  { unfold balanced_detection_rate.
    destruct (filter (λ r, b_success r) (BalancedRun.results rs1)) as [|r l] eqn:E;
      [split; discriminate|].
    apply percent_bounds; [done | simpl; lia]. }
  done.
Qed.

Lemma balanced_statistics_are_sound_witness :
  ∃ rs',
    BalancedRun.run_balanced_test unit (λ _, inr tt) (λ _, (2, 2)%Z)
      (λ im _, im) (λ _, Scenario.acorn_cell) ["Acorn"; "Aloe"]%string
      BalancedRun.new_run 4 5 = Some rs' ∧
    balanced_accuracy rs' <= 100.
Proof.
  destruct (balanced_statistics_are_sound unit (λ _, inr tt) (λ _, (2, 2)%Z)
              (λ im _, im) (λ _, Scenario.acorn_cell) ["Acorn"; "Aloe"]%string
              4 5 ltac:(simpl; lia))
    as (rs' & H1 & _ & _ & _ & _ & _ & _ & _ & H2 & _).
  exists rs'. by split.
Defined.

(** X15. The figures of [run_hybrid_analysis]. Its accuracy and detection
    rate divide by the number of successful results, without a guard: the
    computation raises [ZeroDivisionError] exactly when no result is a
    success, in particular after a run over an empty range of ids; when it
    does not raise, both figures lie between 0 and 100. *)
Theorem hybrid_statistics_divide_by_successes :
  (∀ results,
     hybrid_statistics results = None ↔
     ∀ r, r ∈ results → h_success r = false) ∧
  (∀ results accuracy detection_rate,
     hybrid_statistics results = Some (accuracy, detection_rate) →
     0 <= accuracy ∧ accuracy <= 100 ∧
     0 <= detection_rate ∧ detection_rate <= 100) ∧
  (∀ image download size crop predict vocab_terms start_id end_id,
     (end_id < start_id)%Z →
     ∃ self',
       HybridRun.run_hybrid_analysis image download size crop predict
         vocab_terms HybridRun.new_analyzer start_id end_id = Some self' ∧
       HybridRun.results self' = [] ∧
       hybrid_statistics (HybridRun.results self') = None).
Proof.
  split; [|split].
  - intros results. unfold hybrid_statistics.
    destruct (filter (λ r, h_success r) results) as [|r0 l] eqn:E; cbn.
    + split; [|done]. intros _ r Hr.
      destruct (h_success r) eqn:Er; [|done].
      assert (r ∈ filter (λ r, h_success r) results) as Hin
        by (apply list_elem_of_filter; split; [by rewrite Er | done]).
      rewrite E in Hin. inversion Hin.
    + split; [discriminate|]. intros H.
      assert (r0 ∈ filter (λ r, h_success r) results) as Hin
        by (rewrite E; left).
      apply list_elem_of_filter in Hin as [Hs Hin].
      rewrite (H r0 Hin) in Hs. done.
  - intros results accuracy detection_rate. unfold hybrid_statistics.
    destruct (Nat.eqb_spec (length (filter (λ r, h_success r) results)) 0)
      as [|Hn]; [discriminate|].
    intros H. inversion H; subst.
    destruct (percent_bounds
                (length (filter (λ r, h_has_correct r)
                           (filter (λ r, h_success r) results)))
                (length (filter (λ r, h_success r) results)))
      as [? ?]; [apply length_filter | lia |].
    destruct (percent_bounds
                (length (filter (λ r, h_has_any r)
                           (filter (λ r, h_success r) results)))
                (length (filter (λ r, h_success r) results)))
      as [? ?]; [apply length_filter | lia |].
    done.
  - intros image download size crop predict vocab_terms start_id end_id H.
    unfold HybridRun.run_hybrid_analysis, id_range.
    replace (Z.to_nat (end_id + 1 - start_id)) with 0%nat by lia. cbn.
    eexists. split; [reflexivity|]. done.
Qed.

End Statistics.

(** ** Detection inside one image of the hybrid analyzer *)

Section HybridSameImage.

Variable image : Type.
Variable download : Z → string + image.
Variable size : image → Z * Z.
Variable crop : image → Grid.box → image.
Variable predict : image → list prediction.

(** The class is unmapped, or mapped to the lowercase of the image's
    expected term. *)
Local Abbreviation free_or e c st :=
  (Hybrid.class_mapping st !! c = None ∨
   Hybrid.class_mapping st !! c = Some (Text.lower e)).

Lemma hybrid_discover_step_free_or e c st ip :
  free_or e c st → free_or e c (Hybrid.discover_step e st ip).
Proof.
  intros [H|H]; [|right; by apply hybrid_discover_step_monotone].
  destruct ip as [j q]. unfold Hybrid.discover_step.
  destruct (Hybrid.class_mapping st !! class_idx q) eqn:E; [by left|].
  destruct (Qltb 70.0 _).
  { simpl. destruct (decide (class_idx q = c)) as [<-|Hne].
    - right. by rewrite lookup_insert_eq.
    - left. by rewrite lookup_insert_ne. }
  destruct (Qltb 50.0 _); [by left|]. destruct (Qltb 30.0 _); by left.
Qed.

Lemma hybrid_discover_fold_free_or e c l :
  ∀ st, free_or e c st → free_or e c (fold_left (Hybrid.discover_step e) l st).
Proof.
  induction l as [|ip l IH]; intros st H; [done|].
  cbn [fold_left]. by apply IH, hybrid_discover_step_free_or.
Qed.

Lemma hybrid_discover_fold_keeps e c t l :
  ∀ st, Hybrid.class_mapping st !! c = Some t →
        Hybrid.class_mapping (fold_left (Hybrid.discover_step e) l st) !! c = Some t.
Proof.
  induction l as [|ip l IH]; intros st H; [done|].
  cbn [fold_left]. by apply IH, hybrid_discover_step_monotone.
Qed.

Lemma hybrid_discover_fold_confident e j p l :
  (j, p) ∈ l → 70.0 < confidence_percent p →
  ∀ st, free_or e (class_idx p) st →
        Hybrid.class_mapping (fold_left (Hybrid.discover_step e) l st)
          !! class_idx p = Some (Text.lower e).
Proof.
  intros Hin Hconf. induction l as [|ip l IH]; intros st Hst.
  { inversion Hin. }
  cbn [fold_left]. apply elem_of_cons in Hin as [<-|Hin].
  - apply hybrid_discover_fold_keeps.
    destruct Hst as [Hst|Hst]; [|by apply hybrid_discover_step_monotone].
    unfold Hybrid.discover_step. rewrite Hst.
    apply Qltb_lt in Hconf. rewrite Hconf. simpl. by rewrite lookup_insert_eq.
  - apply (IH Hin). by apply hybrid_discover_step_free_or.
Qed.

Lemma hybrid_discover_free_or e c st predictions expected :
  Text.truthy expected = None ∨ expected = Some e →
  free_or e c st →
  free_or e c (Hybrid.discover_class_mappings_hybrid st predictions expected).
Proof.
  intros He H. unfold Hybrid.discover_class_mappings_hybrid.
  destruct He as [->| ->]; [done|].
  destruct (Text.truthy (Some e)) as [e'|] eqn:E; [|done].
  assert (e' = e) as -> by (destruct e; simpl in E; congruence).
  by apply hybrid_discover_fold_free_or.
Qed.

Lemma hybrid_cell_step_detects e k p position cell_image acc :
  e ≠ EmptyString →
  take 3 (predict cell_image) !! k = Some p →
  70.0 < confidence_percent p →
  free_or e (class_idx p) (HybridRun.mapping (HybridRun.a_self acc)) →
  let acc' := HybridRun.cell_step image predict (Some e) acc
                (position, cell_image) in
  HybridRun.a_correct acc' = true ∧ HybridRun.a_any acc' = true ∧
  Hybrid.class_mapping (HybridRun.mapping (HybridRun.a_self acc'))
    !! class_idx p = Some (Text.lower e).
Proof.
  intros Hne Hk Hconf Hfree.
  set (st := Hybrid.discover_class_mappings_hybrid
               (HybridRun.mapping (HybridRun.a_self acc)) (predict cell_image)
               (Some e)).
  assert (Hybrid.class_mapping st !! class_idx p = Some (Text.lower e)) as Hst.
  { subst st. unfold Hybrid.discover_class_mappings_hybrid.
    assert (Text.truthy (Some e) = Some e) as ->
      by (destruct e; simpl; congruence).
    eapply hybrid_discover_fold_confident; [|done..].
    apply elem_of_enumerate. exact Hk. }
  assert (∃ m, m ∈ HybridRun.match_vocabulary_terms_hybrid st (predict cell_image)
               ∧ HybridRun.m_vocab_term m = Text.lower e) as (m & Hm & Hterm).
  { assert (p ∈ take 10 (predict cell_image)) as Hp.
    { apply lookup_take_Some in Hk as [Hk Hlt].
      apply (list_elem_of_lookup_2 _ k), lookup_take_Some. split; [done | lia]. }
    unfold HybridRun.match_vocabulary_terms_hybrid.
    setoid_rewrite hybrid_sort_matches_perm.
    setoid_rewrite list_elem_of_omap.
    unfold HybridRun.match_of at 1. eexists. split.
    - exists p. split; [exact Hp|]. unfold HybridRun.match_of.
      rewrite Hst. reflexivity.
    - done. }
  cbn zeta. unfold HybridRun.cell_step. fold st.
  cbn [HybridRun.a_correct HybridRun.a_any HybridRun.a_self HybridRun.mapping].
  split; [|split; [|exact Hst]].
  - apply orb_true_iff. right. apply existsb_exists. exists m.
    split; [by apply list_elem_of_In|].
    apply is_correct_true_iff. exists e. rewrite Hterm.
    split; [done|]. split; [done|]. apply lower_idempotent.
  - apply orb_true_iff. right. apply negb_true_iff, bool_decide_eq_false.
    intros E. rewrite E in Hm. inversion Hm.
Qed.

Lemma hybrid_cells_detect e k p (cells : list (string * image)) :
  e ≠ EmptyString →
  70.0 < confidence_percent p →
  ∀ acc,
    (HybridRun.a_correct acc = true ∧ HybridRun.a_any acc = true ∧
     Hybrid.class_mapping (HybridRun.mapping (HybridRun.a_self acc))
       !! class_idx p = Some (Text.lower e)) ∨
    (free_or e (class_idx p) (HybridRun.mapping (HybridRun.a_self acc)) ∧
     ∃ position cell_image,
       (position, cell_image) ∈ cells ∧
       take 3 (predict cell_image) !! k = Some p) →
    let acc' := fold_left (HybridRun.cell_step image predict (Some e)) cells acc in
    HybridRun.a_correct acc' = true ∧ HybridRun.a_any acc' = true ∧
    Hybrid.class_mapping (HybridRun.mapping (HybridRun.a_self acc'))
      !! class_idx p = Some (Text.lower e).
Proof.
  intros Hne Hconf.
  induction cells as [|[position cell_image] cells IH]; intros acc H.
  { destruct H as [H|(_ & ? & ? & H & _)]; [exact H | inversion H]. }
  cbn [fold_left]. apply IH.
  destruct H as [(Hc & Ha & Hm)|(Hfree & pos & ci & Hin & Hk)].
  - left. unfold HybridRun.cell_step.
    cbn [HybridRun.a_correct HybridRun.a_any HybridRun.a_self HybridRun.mapping].
    rewrite Hc, Ha. split; [done|]. split; [done|].
    unfold Hybrid.discover_class_mappings_hybrid.
    destruct (Text.truthy (Some e)); [|done].
    by apply hybrid_discover_fold_keeps.
  - apply elem_of_cons in Hin as [Heq|Hin].
    + inversion Heq; subst pos ci. left.
      by apply (hybrid_cell_step_detects e k p position cell_image acc).
    + right. split; [|by eauto].
      unfold HybridRun.cell_step.
      cbn [HybridRun.a_self HybridRun.mapping].
      apply hybrid_discover_free_or; [by right | done].
Qed.

(** X16. One confident prediction makes the image a correct detection. When
    [analyze_image_hybrid] is given a non-empty expected term and the image
    downloads, a prediction above 70% among the first three of any quadrant,
    for a class that is not in the mapping table when the image starts, is
    enough for the result to have [has_correct_detection] and
    [has_any_detection] set: the class is mapped to the expected term during
    the discovery of that cell (or of an earlier cell of the same image) and
    matched in the same cell. The class stays mapped to the lowercase of the
    expected term in the analyzer that is returned. *)
Theorem hybrid_confident_prediction_is_detected
    (self : HybridRun.analyzer) (screenshot_id : Z) (expected_vocab : string)
    (full_image : image) (position : string) (cell_box : Grid.box)
    (k : nat) (p : prediction) :
  expected_vocab ≠ EmptyString →
  download screenshot_id = inr full_image →
  (position, cell_box)
    ∈ Grid.grid_boxes (fst (size full_image)) (snd (size full_image)) →
  take 3 (predict (crop full_image cell_box)) !! k = Some p →
  70.0 < confidence_percent p →
  Hybrid.class_mapping (HybridRun.mapping self) !! class_idx p = None →
  ∃ grid_results self',
    HybridRun.analyze_image_hybrid image download size crop predict self
      screenshot_id (Some expected_vocab)
    = (HybridRun.Success screenshot_id (Some expected_vocab) grid_results
         true true, self') ∧
    Hybrid.class_mapping (HybridRun.mapping self') !! class_idx p
    = Some (Text.lower expected_vocab).
Proof.
  intros Hne Hd Hbox Hk Hconf Hfree.
  unfold HybridRun.analyze_image_hybrid. rewrite Hd.
  destruct (size full_image) as [width height]. cbn [fst snd] in Hbox.
  set (cells := map _ (Grid.grid_boxes width height)).
  set (acc0 := HybridRun.Build_cells_acc _ _ _ _).
  destruct (hybrid_cells_detect expected_vocab k p cells Hne Hconf acc0)
    as (Hc & Ha & Hm).
  { right. split; [by left|].
    exists position, (crop full_image cell_box). split; [|exact Hk].
    subst cells. apply list_elem_of_fmap.
    by exists (position, cell_box). }
  set (acc := fold_left _ cells acc0) in *. clearbody acc cells.
  rewrite Hc, Ha. by eexists _, _.
Qed.

End HybridSameImage.

Lemma hybrid_confident_prediction_is_detected_witness :
  ∃ grid_results self',
    HybridRun.analyze_image_hybrid unit (λ _, inr tt) (λ _, (2, 2)%Z)
      (λ im _, im) (λ _, Scenario.acorn_cell) HybridRun.new_analyzer 4
      (Some "Acorn"%string)
    = (HybridRun.Success 4 (Some "Acorn"%string) grid_results true true, self') ∧
    Hybrid.class_mapping (HybridRun.mapping self') !! "42"%string
    = Some "acorn"%string.
Proof.
  apply (hybrid_confident_prediction_is_detected unit (λ _, inr tt)
           (λ _, (2, 2)%Z) (λ im _, im) (λ _, Scenario.acorn_cell)
           HybridRun.new_analyzer 4 "Acorn"%string tt "top_left"%string
           (0, 0, 1, 1)%Z 0
           {| rank := 1; class_idx := "42"; class_name := "class_42";
              confidence := 0.82; confidence_percent := 0.82 * 100 |}).
  - discriminate.
  - reflexivity.
  - vm_compute. left.
  - reflexivity.
  - reflexivity.
  - reflexivity.
Defined.

(** ** Exact matches and empty answers of the string matcher *)

Section StringMatchEdges.
Import StringMatch.

Lemma term_score_le_1 (ratio : string → string → Q) (cn v : string) :
  (∀ a b, ratio a b <= 1) → term_score ratio cn v <= 1.
Proof.
  intros Hr. unfold term_score, _similarity_score.
  destruct (String.eqb _ _); [discriminate|].
  destruct (_ || _); [discriminate|].
  destruct (_ || _); [discriminate | apply Hr].
Qed.

Lemma term_score_empty_term (ratio : string → string → Q) (cn : string) :
  cn ≠ EmptyString → term_score ratio cn "" = 0.8.
Proof.
  intros Hne. unfold term_score. simpl.
  destruct cn as [|a cn]; [done|]. reflexivity.
Qed.

Lemma match_of_exact
    (sequence_matcher_ratio : string → string → Q) (vocab_list : list string)
    (threshold : Q) (p : prediction) (v : string) :
  (∀ a b, sequence_matcher_ratio a b <= 1) →
  threshold <= 1 →
  v ∈ vocab_list → v ≠ EmptyString →
  Text.lower v = Text.lower (class_name p) →
  ∃ m,
    match_of sequence_matcher_ratio vocab_list threshold p = Some m ∧
    m_prediction m = p ∧ match_score m == 1 ∧ m_match_type m = exact ∧
    match_score m
      = term_score sequence_matcher_ratio (Text.lower (class_name p))
                   (vocab_term m) ∧
    ∃ before after,
      vocab_list = before ++ vocab_term m :: after ∧
      ∀ u, u ∈ before →
           term_score sequence_matcher_ratio (Text.lower (class_name p)) u < 1.
Proof.
  intros Hr Hth Hv Hne Hlow.
  set (cn := Text.lower (class_name p)) in *.
  assert (term_score sequence_matcher_ratio cn v = 1.0) as Hscore.
  { unfold term_score. rewrite Hlow. by rewrite String.eqb_refl. }
  assert (cn ≠ EmptyString) as Hcn.
  { rewrite <- Hlow. by rewrite lower_empty_iff. }
  pose proof (best_of_spec sequence_matcher_ratio vocab_list cn threshold)
    as [HN HS].
  unfold match_of. fold cn.
  destruct (best_of sequence_matcher_ratio vocab_list cn threshold)
    as [[b|] s]; simpl in *.
  - destruct (HS b eq_refl)
      as (_ & Hs & _ & _ & Hmax & before & after & Hsplit & Hfirst).
    assert (s == 1) as Hs1.
    { apply Qle_antisym.
      - rewrite Hs. by apply term_score_le_1.
      - specialize (Hmax v Hv). rewrite Hscore in Hmax.
        apply Qle_trans with 1.0; [discriminate|]. apply Hmax.
        apply Qle_trans with 1; [exact Hth | discriminate]. }
    assert (b ≠ EmptyString) as Hb.
    { intros ->. rewrite term_score_empty_term in Hs by done.
      rewrite Hs in Hs1. discriminate. }
    destruct (String.eqb_spec b "") as [?|_]; [done|].
    eexists. split; [reflexivity|]. simpl.
    split; [done|]. split; [done|]. split.
    { unfold match_type_of.
      assert (Qeq_bool s 1.0 = true) as ->; [|done].
      apply Qeq_bool_iff. rewrite Hs1. reflexivity. }
    split; [done|].
    exists before, after. split; [done|]. intros u Hu.
    destruct (Qlt_le_dec (term_score sequence_matcher_ratio cn u) threshold)
      as [Hlt|Hge].
    + eapply Qlt_le_trans; eauto.
    + rewrite <- Hs1. by apply Hfirst.
  - destruct (HN eq_refl) as [_ Hno]. exfalso. apply (Hno v Hv).
    rewrite Hscore. split; [done|].
    apply Qle_trans with 1; [exact Hth | discriminate].
Qed.

(** X17. An exact match wins in [_find_vocab_matches]. Suppose the
    similarity ratio never exceeds 1 (as [SequenceMatcher.ratio] does not)
    and the threshold is at most 1. If a non-empty vocabulary term equals
    the prediction's class name up to case, the prediction gets a match: its
    score is 1, its type is ['exact'], and its term is the first term of the
    vocabulary whose score is 1 (every term before it scores below 1); the
    match is in the returned list for every prediction list that contains
    the prediction. *)
Theorem exact_match_wins
    (sequence_matcher_ratio : string → string → Q) (vocab_list : list string)
    (threshold : Q) (p : prediction) (v : string) :
  (∀ a b, sequence_matcher_ratio a b <= 1) →
  threshold <= 1 →
  v ∈ vocab_list → v ≠ EmptyString →
  Text.lower v = Text.lower (class_name p) →
  ∃ m,
    match_of sequence_matcher_ratio vocab_list threshold p = Some m ∧
    m_prediction m = p ∧ match_score m == 1 ∧ m_match_type m = exact ∧
    (∃ before after,
       vocab_list = before ++ vocab_term m :: after ∧
       ∀ u, u ∈ before →
            term_score sequence_matcher_ratio (Text.lower (class_name p)) u < 1) ∧
    (∀ predictions,
       p ∈ predictions →
       m ∈ _find_vocab_matches sequence_matcher_ratio vocab_list predictions
             threshold).
Proof.
  intros Hr Hth Hv Hne Hlow.
  destruct (match_of_exact sequence_matcher_ratio vocab_list threshold p v
              Hr Hth Hv Hne Hlow) as (m & Hm & H1 & H2 & H3 & _ & H4).
  exists m. split; [done|].
  split; [done|]. split; [done|]. split; [done|]. split; [done|].
  intros predictions Hp. rewrite find_vocab_matches_omap.
  apply list_elem_of_omap. by exists p.
Qed.

Lemma exact_match_wins_witness :
  ∃ m,
    match_of (λ _ _, 0) ["aloe"; "Acorn"; "acorn"]%string 0.3
      {| class_name := "ACORN"; confidence := 0.5; rank := 1 |} = Some m ∧
    vocab_term m = "Acorn"%string ∧ m_match_type m = exact.
Proof.
  destruct (exact_match_wins (λ _ _, 0) ["aloe"; "Acorn"; "acorn"]%string 0.3
              {| class_name := "ACORN"; confidence := 0.5; rank := 1 |}
              "acorn"%string
              ltac:(intros; discriminate) ltac:(discriminate)
              ltac:(apply (bool_decide_unpack _); vm_compute; exact I)
              ltac:(discriminate) ltac:(reflexivity))
    as (m & Hm & _ & _ & Ht & _).
  exists m. split; [exact Hm|]. split; [|exact Ht].
  vm_compute in Hm. inversion Hm. reflexivity.
Defined.

(** X18. When [_find_vocab_matches] returns nothing. The result never has
    more entries than there are predictions. It is empty when the
    vocabulary is empty, and, for a similarity ratio that never exceeds 1,
    when the threshold is above 1. A term whose score is 0 is never
    matched, not even with a threshold of 0 or below, since the score must
    exceed the initial [best_score] of 0. *)
Theorem find_vocab_matches_empty_answers
    (sequence_matcher_ratio : string → string → Q) :
  (∀ vocab_list predictions threshold,
     (length (_find_vocab_matches sequence_matcher_ratio vocab_list predictions
                threshold) ≤ length predictions)%nat) ∧
  (∀ predictions threshold,
     _find_vocab_matches sequence_matcher_ratio [] predictions threshold = []) ∧
  (∀ vocab_list predictions threshold,
     (∀ a b, sequence_matcher_ratio a b <= 1) → 1 < threshold →
     _find_vocab_matches sequence_matcher_ratio vocab_list predictions threshold
     = []) ∧
  (∀ vocab_list predictions threshold,
     (∀ p v, p ∈ predictions → v ∈ vocab_list →
             term_score sequence_matcher_ratio (Text.lower (class_name p)) v <= 0) →
     _find_vocab_matches sequence_matcher_ratio vocab_list predictions threshold
     = []).
Proof.
  assert (∀ vocab_list predictions threshold,
            (∀ p v, p ∈ predictions → v ∈ vocab_list →
                    ¬ (0 < term_score sequence_matcher_ratio
                                      (Text.lower (class_name p)) v ∧
                       threshold <= term_score sequence_matcher_ratio
                                      (Text.lower (class_name p)) v)) →
            _find_vocab_matches sequence_matcher_ratio vocab_list predictions
              threshold = []) as Hnone.
  { intros vocab_list predictions threshold H.
    rewrite find_vocab_matches_omap.
    induction predictions as [|p l IH]; [done|]. csimpl.
    rewrite IH by (intros q v Hq; apply H; by right).
    unfold match_of.
    pose proof (best_of_spec sequence_matcher_ratio vocab_list
                  (Text.lower (class_name p)) threshold) as [_ HS].
    destruct (best_of _ _ _ _) as [[b|] s]; [|done]. exfalso.
    destruct (HS b eq_refl) as (Hb & Hs & H0 & Hth & _). simpl in *.
    apply (H p b); [left | done | by rewrite <- Hs]. }
  split; [|split; [|split]].
  - intros vocab_list predictions threshold.
    rewrite find_vocab_matches_omap. apply length_omap_le.
  - intros predictions threshold. apply Hnone. intros p v _ Hv. inversion Hv.
  - intros vocab_list predictions threshold Hr Hth. apply Hnone.
    intros p v _ _ [_ H].
    pose proof (term_score_le_1 sequence_matcher_ratio
                  (Text.lower (class_name p)) v Hr) as Hle.
    apply (Qlt_irrefl 1). eapply Qlt_le_trans; [exact Hth|].
    eapply Qle_trans; eauto.
  - intros vocab_list predictions threshold H. apply Hnone.
    intros p v Hp Hv [H0 _]. specialize (H p v Hp Hv).
    by apply Qle_not_lt in H.
Qed.

End StringMatchEdges.

(** ** Cold start of the balanced analyzer *)

Section BalancedColdStart.
Import Batch Report.

Variable image : Type.
Variable download : Z → string + image.
Variable size : image → Z * Z.
Variable crop : image → Grid.box → image.
Variable predict : image → list prediction.

Lemma balanced_matches_of_empty_table st predictions :
  Balanced.class_mapping st = ∅ →
  BalancedRun.match_vocabulary_terms_balanced st predictions = [].
Proof.
  intros Hst. unfold BalancedRun.match_vocabulary_terms_balanced.
  assert (omap (BalancedRun.match_of st) (take 15 predictions) = []) as ->; [|done].
  induction (take 15 predictions) as [|p l IH]; [done|]. csimpl.
  rewrite IH. unfold BalancedRun.match_of. by rewrite Hst, lookup_empty.
Qed.

Lemma balanced_cells_cold expected_vocab (cells : list (string * image)) :
  ∀ acc,
    Balanced.class_mapping (BalancedRun.a_self acc) = ∅ →
    BalancedRun.a_correct acc = false → BalancedRun.a_any acc = false →
    let acc' :=
      fold_left (BalancedRun.cell_step image predict expected_vocab) cells acc in
    Balanced.class_mapping (BalancedRun.a_self acc') = ∅ ∧
    BalancedRun.a_correct acc' = false ∧ BalancedRun.a_any acc' = false.
Proof.
  induction cells as [|[position cell_image] cells IH]; intros acc Hm Hc Ha;
    [done|].
  cbn [fold_left]. 
  assert (Balanced.class_mapping
            (Balanced.discover_class_mappings_balanced (BalancedRun.a_self acc)
               (predict cell_image) expected_vocab) = ∅) as Hm'.
  { destruct (balanced_discover_frame (BalancedRun.a_self acc)
                (predict cell_image) expected_vocab ""%string) as [-> _]. done. }
  apply IH; unfold BalancedRun.cell_step, BalancedRun.analyze_grid_cell_balanced;
    cbn [BalancedRun.a_self BalancedRun.a_correct BalancedRun.a_any
         BalancedRun.c_vocab_matches].
  - exact Hm'.
  - rewrite Hc, (balanced_matches_of_empty_table _ _ Hm'). done.
  - rewrite Ha, (balanced_matches_of_empty_table _ _ Hm'). done.
Qed.

Lemma balanced_run_step_cold vocab_terms rs rs' i :
  Balanced.class_mapping (BalancedRun.self rs) = ∅ →
  BalancedRun.run_step image download size crop predict vocab_terms (Some rs) i
    = Some rs' →
  ∃ r, BalancedRun.results rs' = BalancedRun.results rs ++ [r] ∧
       b_has_any r = false ∧ b_has_correct r = false ∧
       ((i mod 4)%Z ≠ 0%Z → Balanced.class_mapping (BalancedRun.self rs') = ∅).
Proof.
  intros Hm. unfold BalancedRun.run_step.
  destruct (expected_vocab_at vocab_terms i) as [e|]; [|discriminate].
  destruct (download i) as [error|full_image].
  - intros H. inversion H; subst rs'. clear H.
    exists (BalancedRun.Failure i error).
    destruct (Z.eqb_spec (i mod 4) 0) as [E|E]; cbn; by repeat split.
  - destruct (size full_image) as [width height].
    set (cells := map _ (Grid.grid_boxes width height)).
    set (acc0 := BalancedRun.Build_cells_acc _ _ _ _ _).
    destruct (balanced_cells_cold e cells acc0 Hm eq_refl eq_refl)
      as (Hm' & Hc & Ha).
    set (acc := fold_left _ cells acc0) in *. clearbody acc cells.
    intros H. inversion H; subst rs'. clear H.
    exists (BalancedRun.Success i e (BalancedRun.a_grid_results acc)
              (BalancedRun.a_correct acc) (BalancedRun.a_any acc)).
    destruct (Z.eqb_spec (i mod 4) 0) as [E|E]; cbn; by repeat split.
Qed.

Lemma balanced_fold_from_None vocab_terms ids :
  fold_left (BalancedRun.run_step image download size crop predict vocab_terms)
            ids None = None.
Proof. induction ids as [|i ids IH]; [done | exact IH]. Qed.

Lemma balanced_run_step_appends vocab_terms rs rs' i :
  BalancedRun.run_step image download size crop predict vocab_terms (Some rs) i
    = Some rs' →
  ∃ r, BalancedRun.results rs' = BalancedRun.results rs ++ [r].
Proof.
  unfold BalancedRun.run_step.
  destruct (expected_vocab_at vocab_terms i) as [e|]; [|discriminate].
  intros H. inversion H; subst rs'. clear H.
  destruct (download i) as [error|full_image].
  - destruct (i mod 4 =? 0)%Z; by eexists.
  - destruct (size full_image) as [width height].
    destruct (i mod 4 =? 0)%Z; by eexists.
Qed.

Lemma balanced_fold_appends vocab_terms ids :
  ∀ rs rs',
    fold_left (BalancedRun.run_step image download size crop predict vocab_terms)
              ids (Some rs) = Some rs' →
    ∃ new, BalancedRun.results rs' = BalancedRun.results rs ++ new.
Proof.
  induction ids as [|i ids IH]; intros rs rs' H.
  - inversion H; subst. exists []. by rewrite app_nil_r.
  - cbn [fold_left] in H.
    destruct (BalancedRun.run_step image download size crop predict vocab_terms
                (Some rs) i) as [rs1|] eqn:E;
      [|by rewrite balanced_fold_from_None in H].
    destruct (balanced_run_step_appends _ _ _ _ E) as [r Hr].
    destruct (IH _ _ H) as [new Hnew].
    exists (r :: new). rewrite Hnew, Hr. by rewrite <- app_assoc.
Qed.

Lemma balanced_fold_cold vocab_terms ids :
  ∀ rs rs' k r,
    Balanced.class_mapping (BalancedRun.self rs) = ∅ →
    fold_left (BalancedRun.run_step image download size crop predict vocab_terms)
              ids (Some rs) = Some rs' →
    BalancedRun.results rs' !! (length (BalancedRun.results rs) + k)%nat = Some r →
    (∀ j, j ∈ take k ids → (j mod 4)%Z ≠ 0%Z) →
    b_has_any r = false ∧ b_has_correct r = false.
Proof.
  induction ids as [|i ids IH]; intros rs rs' k r Hm H Hr Hk.
  - inversion H; subst rs'. apply lookup_lt_Some in Hr. lia.
  - cbn [fold_left] in H.
    destruct (BalancedRun.run_step image download size crop predict vocab_terms
                (Some rs) i) as [rs1|] eqn:E;
      [|by rewrite balanced_fold_from_None in H].
    destruct (balanced_run_step_cold _ _ _ _ Hm E) as (r0 & Hr0 & Ha & Hc & Hm1).
    destruct k as [|k].
    + destruct (balanced_fold_appends _ _ _ _ H) as [new Hnew].
      rewrite Hnew, Hr0, <- app_assoc, Nat.add_0_r in Hr.
      rewrite lookup_app_r in Hr by lia. rewrite Nat.sub_diag in Hr.
      cbn in Hr. inversion Hr; subst r0. done.
    + apply (IH rs1 rs' k r).
      * apply Hm1, Hk. cbn. left.
      * exact H.
      * rewrite Hr0, length_app. cbn.
        replace (length (BalancedRun.results rs) + 1 + k)%nat
          with (length (BalancedRun.results rs) + S k)%nat by lia. exact Hr.
      * intros j Hj. apply Hk. cbn. by right.
Qed.

Lemma elem_of_take_id_range (start_id end_id j : Z) (k : nat) :
  j ∈ take k (id_range start_id end_id) → (start_id ≤ j < start_id + Z.of_nat k)%Z.
Proof.
  unfold id_range. rewrite <- fmap_take.
  intros (m & -> & Hm)%list_elem_of_fmap.
  apply list_elem_of_lookup in Hm as [n Hn].
  apply lookup_take_Some in Hn as [Hn Hlt].
  apply lookup_seq in Hn as [-> _]. lia.
Qed.

End BalancedColdStart.

(** X19. Cold start of [run_balanced_test]. Analysing an image never
    changes the mapping table of the balanced analyzer (only the rebuild,
    run after every image whose id is a multiple of 4, does), and matches
    come from the table alone. So in a run on a fresh analyzer every image
    up to and including the first one whose id is a multiple of 4 has
    neither [has_any_detection] nor [has_correct_detection], whatever the
    classifier reports. *)
Theorem balanced_cold_start
    (image : Type) (download : Z → string + image) (size : image → Z * Z)
    (crop : image → Grid.box → image) (predict : image → list prediction)
    (vocab_terms : list string) (start_id end_id : Z)
    (rs' : BalancedRun.run_state) (k : nat) (r : BalancedRun.image_result) :
  BalancedRun.run_balanced_test image download size crop predict vocab_terms
    BalancedRun.new_run start_id end_id = Some rs' →
  BalancedRun.results rs' !! k = Some r →
  (∀ j, (start_id ≤ j < start_id + Z.of_nat k)%Z → (j mod 4)%Z ≠ 0%Z) →
  Report.b_has_any r = false ∧ Report.b_has_correct r = false.
Proof.
  unfold BalancedRun.run_balanced_test. intros H Hr Hk.
  destruct (fold_left _ _ _) as [rs1|] eqn:E; [|discriminate].
  inversion H; subst rs'. clear H. cbn [BalancedRun.results] in Hr.
  apply (balanced_fold_cold image download size crop predict vocab_terms
           (Batch.id_range start_id end_id) BalancedRun.new_run rs1 k r);
    [done | exact E | exact Hr |].
  intros j Hj. by apply Hk, (elem_of_take_id_range _ end_id).
Qed.

Lemma balanced_cold_start_witness :
  ∃ rs' r,
    BalancedRun.run_balanced_test unit (λ _, inr tt) (λ _, (2, 2)%Z)
      (λ im _, im) (λ _, Scenario.acorn_cell) ["Acorn"; "Aloe"; "Antenna"]%string
      BalancedRun.new_run 5 6 = Some rs' ∧
    BalancedRun.results rs' !! 1%nat = Some r ∧
    Report.b_has_any r = false.
Proof.
  eexists _, _. split; [vm_compute; reflexivity|]. split; [reflexivity|].
  refine (proj1 (balanced_cold_start unit (λ _, inr tt) (λ _, (2, 2)%Z)
                   (λ im _, im) (λ _, Scenario.acorn_cell)
                   ["Acorn"; "Aloe"; "Antenna"]%string 5 6 _ 1 _ _ _ _)).
  - vm_compute. reflexivity.
  - reflexivity.
  - intros j Hj. assert (j = 5%Z) as -> by lia. done.
Defined.

(** ** The performance figures of the string-label classifier *)

Section PerformanceFigures.
Import Performance.

Lemma truthy_Some_nonempty (o : option string) (e : string) :
  Text.truthy o = Some e → o = Some e ∧ e ≠ EmptyString.
Proof. destruct o as [[|a s]|]; simpl; intros H; by inversion H. Qed.

Lemma result_step_figures st result :
  figures_ok st →
  figures_ok (result_step st result) ∧
  total_images (result_step st result) = total_images st ∧
  accuracy (result_step st result) = accuracy st ∧
  images_with_expected_vocab (result_step st result)
  = (images_with_expected_vocab st + if has_expected result then 1 else 0)%nat.
Proof.
  intros Hst. pose proof Hst as [Hsum Hperf].
  assert (∀ n : nat, (n + 0)%nat = n) as Hn0 by (intros; lia).
  destruct result as [d|path error]; simpl; [|by rewrite Hn0].
  destruct (Text.truthy (expected_vocab d)) as [e|] eqn:Ee; [|by rewrite Hn0].
  apply truthy_Some_nonempty in Ee as [_ Hne].
  destruct (found_and_best e (full_image_vocab_matches d) (grid_cells d))
    as [found_match best_score].
  unfold figures_ok.
  cbn [total_images images_with_expected_vocab correct_matches partial_matches
       no_matches accuracy vocab_term_performance].
  split; [|done]. split.
  { destruct found_match; simpl; [destruct (Qeq_bool best_score 1.0); simpl|];
      lia. }
  intros term t.
  set (base := match vocab_term_performance st !! e with
               | Some _ => vocab_term_performance st
               | None => <[e:=_]> (vocab_term_performance st)
               end).
  assert (∀ term t, base !! term = Some t →
                    term ≠ EmptyString ∧
                    (total t ≤ images_with_expected_vocab st)%nat ∧
                    (found t ≤ total t)%nat ∧ (term ≠ e → 1 ≤ total t)%nat)
    as Hbase.
  { intros term' t'. subst base.
    destruct (vocab_term_performance st !! e) eqn:E.
    - intros H. destruct (Hperf _ _ H) as (? & ? & ?). repeat split; try done; lia.
    - intros [[<- <-]|[Hne' H]]%lookup_insert_Some; simpl.
      + repeat split; try done; lia.
      + destruct (Hperf _ _ H) as (? & ? & ?). repeat split; try done; lia. }
  clearbody base.
  assert (∀ t0, alter (λ t, {| total := total t + 1; found := found t;
                               t_accuracy := t_accuracy t |}) e base !! term
                = Some t0 →
                term ≠ EmptyString ∧
                (1 ≤ total t0 ≤ images_with_expected_vocab st + 1)%nat ∧
                (found t0 ≤ total t0)%nat ∧
                (term = e → found t0 + 1 ≤ total t0)%nat) as Hone.
  { intros t0. destruct (decide (term = e)) as [->|Hne'].
    - rewrite lookup_alter_eq. destruct (base !! e) as [t1|] eqn:E; [|done].
      simpl. intros H. inversion H; subst t0. simpl.
      destruct (Hbase _ _ E) as (? & ? & ? & _). repeat split; try done; lia.
    - rewrite lookup_alter_ne by done. intros H.
      destruct (Hbase _ _ H) as (? & ? & ? & Hge). specialize (Hge Hne').
      repeat split; try done; lia. }
  destruct found_match.
  - destruct (decide (term = e)) as [->|Hne'].
    + rewrite lookup_alter_eq.
      destruct (alter _ e base !! e) as [t1|] eqn:E; [|done].
      simpl. intros H. inversion H; subst t. simpl.
      destruct (Hone t1 eq_refl) as (? & ? & ? & Hf). specialize (Hf eq_refl).
      repeat split; try done; lia.
    + rewrite lookup_alter_ne by done. intros H.
      destruct (Hone t H) as (? & ? & ? & _). done.
  - intros H. destruct (Hone t H) as (? & ? & ? & _). done.
Qed.

Lemma results_fold_figures results :
  ∀ st,
    figures_ok st →
    figures_ok (fold_left result_step results st) ∧
    total_images (fold_left result_step results st) = total_images st ∧
    accuracy (fold_left result_step results st) = accuracy st ∧
    images_with_expected_vocab (fold_left result_step results st)
    = (images_with_expected_vocab st
       + length (filter (λ r, has_expected r) results))%nat.
Proof.
  induction results as [|r results IH]; intros st Hst.
  - simpl. split; [done|]. split; [done|]. split; [done|]. lia.
  - cbn [fold_left].
    destruct (result_step_figures st r Hst) as (H1 & H2 & H3 & H4).
    destruct (IH _ H1) as (H5 & H6 & H7 & H8).
    split; [exact H5|]. rewrite H6, H7, H8, H2, H3, H4.
    split; [done|]. split; [done|]. rewrite filter_cons.
    destruct (has_expected r); simpl; lia.
Qed.

(** X20. The figures of [analyze_vocab_performance]. For every list of
    results: [total_images] is the length of the list;
    [images_with_expected_vocab] counts the results that are not errors and
    carry a non-empty expected term; every such image is counted exactly
    once among [correct_matches], [partial_matches] and [no_matches];
    [accuracy] is the share of images that are not in [no_matches] (partial
    matches count as successes), between 0 and 1, and stays at its initial
    0.0, without any division, when no image has an expected term. Every
    entry of [vocab_term_performance] has a non-empty term, a [total] of at
    least 1, [found <= total] and [accuracy = found/total]. *)
Theorem performance_figures_are_consistent (results : list classify_result) :
  let st := analyze_vocab_performance results in
  total_images st = length results ∧
  images_with_expected_vocab st
    = length (filter (λ r, has_expected r) results) ∧
  (correct_matches st + partial_matches st + no_matches st
   = images_with_expected_vocab st)%nat ∧
  0 <= accuracy st ∧ accuracy st <= 1 ∧
  (images_with_expected_vocab st = 0%nat → accuracy st = 0.0) ∧
  ((0 < images_with_expected_vocab st)%nat →
   accuracy st
   == of_int (images_with_expected_vocab st - no_matches st)
      / of_int (images_with_expected_vocab st)) ∧
  (∀ term t,
     vocab_term_performance st !! term = Some t →
     term ≠ EmptyString ∧
     (1 ≤ total t ≤ images_with_expected_vocab st)%nat ∧
     (found t ≤ total t)%nat ∧
     t_accuracy t = of_int (found t) / of_int (total t)).
Proof.
  destruct (results_fold_figures results (new_stats results))
    as ((Hsum & Hperf) & Htot & Hacc & Himg).
  { split; [done|]. intros term t H. cbn in H. by rewrite lookup_empty in H. }
  cbv zeta. unfold analyze_vocab_performance.
  set (st := fold_left result_step results (new_stats results)) in *.
  clearbody st.
  cbn [total_images images_with_expected_vocab correct_matches partial_matches
       no_matches accuracy vocab_term_performance].
  cbn [new_stats total_images images_with_expected_vocab accuracy] in *.
  split; [done|]. split; [done|]. split; [done|].
  assert (∀ a b : nat, (a ≤ b)%nat → (0 < b)%nat →
                       0 <= of_int a / of_int b ∧ of_int a / of_int b <= 1)
    as Hshare.
  { intros a b Hab Hb.
    assert (0 < of_int b) by (unfold of_int, Qlt; simpl; lia).
    split.
    - apply Qle_shift_div_l; [done|]. rewrite Qmult_0_l.
      unfold of_int, Qle; simpl; lia.
    - apply Qle_shift_div_r; [done|]. rewrite Qmult_1_l.
      unfold of_int, Qle; simpl; lia. }
  destruct (Nat.ltb_spec 0 (images_with_expected_vocab st)) as [Hpos|Hzero].
  - destruct (Hshare (correct_matches st + partial_matches st)%nat
                (images_with_expected_vocab st)) as [? ?]; [lia | done |].
    split; [done|]. split; [done|]. split; [lia|]. split.
    { intros _.
      by replace (images_with_expected_vocab st - no_matches st)%nat
        with (correct_matches st + partial_matches st)%nat by lia. }
    intros term t [t0 [<- Ht0]]%lookup_fmap_Some.
    destruct (Hperf _ _ Ht0) as (? & ? & ?). cbv beta.
    destruct (Nat.ltb_spec 0 (total t0)); [|lia]. simpl. done.
  - rewrite Hacc. split; [discriminate|]. split; [discriminate|].
    split; [done|]. split; [lia|].
    intros term t [t0 [<- Ht0]]%lookup_fmap_Some.
    destruct (Hperf _ _ Ht0) as (? & ? & ?). lia.
Qed.

End PerformanceFigures.

Section PerformanceOfOneResult.
Import StringMatch Performance.

(** The match names the expected term, up to case. *)
Local Abbreviation names e m := (Text.lower (vocab_term m) = Text.lower e).

Lemma max2_spec (a b : Q) :
  a <= max2 a b ∧ b <= max2 a b ∧ (max2 a b = a ∨ max2 a b = b).
Proof.
  unfold max2. destruct (Qltb a b) eqn:E.
  - apply Qltb_lt in E. split; [by apply Qlt_le_weak|]. split; [apply Qle_refl|].
    by right.
  - apply Qltb_nlt, Qnot_lt_le in E. split; [apply Qle_refl|]. split; [done|].
    by left.
Qed.

Lemma scan_spec (e : string) (matches : list vocab_match) :
  ∀ acc,
    (fst (scan e acc matches) = true ↔
     fst acc = true ∨ ∃ m, m ∈ matches ∧ names e m) ∧
    snd acc <= snd (scan e acc matches) ∧
    (∀ m, m ∈ matches → names e m → match_score m <= snd (scan e acc matches)) ∧
    (snd (scan e acc matches) = snd acc ∨
     ∃ m, m ∈ matches ∧ names e m ∧ snd (scan e acc matches) = match_score m).
Proof.
  unfold scan. induction matches as [|m matches IH]; intros acc.
  - simpl. split; [|split; [apply Qle_refl|split; [|by left]]].
    + split; [by left|]. intros [H|(m & H & _)]; [done | inversion H].
    + intros m H. inversion H.
  - cbn [fold_left].
    destruct (String.eqb_spec (Text.lower (vocab_term m)) (Text.lower e))
      as [Heq|Hne].
    + destruct (IH (true, max2 (snd acc) (match_score m)))
        as (H1 & H2 & H3 & H4). cbn [fst snd] in *.
      destruct (max2_spec (snd acc) (match_score m)) as (Ha & Hb & Hc).
      split; [|split; [|split]].
      * split; [intros _; right; exists m; split; [left | done]|].
        intros _. apply H1. by left.
      * eapply Qle_trans; eauto.
      * intros m' [->|Hm']%elem_of_cons Hn; [eapply Qle_trans; eauto|].
        by apply H3.
      * destruct H4 as [H4|(m' & Hm' & Hn & H4)].
        -- destruct Hc as [Hc|Hc]; [left; congruence|].
           right. exists m. split; [left|]. split; [done | congruence].
        -- right. exists m'. split; [by right | done].
    + destruct (IH acc) as (H1 & H2 & H3 & H4).
      split; [|split; [done|split]].
      * rewrite H1. split; (intros [H|(m' & Hm' & Hn)]; [by left | right]).
        -- exists m'. split; [by right | done].
        -- apply elem_of_cons in Hm' as [->|Hm']; [done|]. by exists m'.
      * intros m' [->|Hm']%elem_of_cons Hn; [done | by apply H3].
      * destruct H4 as [H4|(m' & Hm' & Hn & H4)]; [by left|].
        right. exists m'. split; [by right | done].
Qed.

Lemma scan_cells_spec (e : string) (cells : list cell_entry) :
  ∀ acc,
    let res := fold_left (λ acc cell, scan e acc (vocab_matches cell)) cells acc in
    (fst res = true ↔
     fst acc = true ∨ ∃ m, m ∈ concat (map vocab_matches cells) ∧ names e m) ∧
    snd acc <= snd res ∧
    (∀ m, m ∈ concat (map vocab_matches cells) → names e m →
          match_score m <= snd res) ∧
    (snd res = snd acc ∨
     ∃ m, m ∈ concat (map vocab_matches cells) ∧ names e m ∧
          snd res = match_score m).
Proof.
  induction cells as [|cell cells IH]; intros acc.
  - simpl. split; [|split; [apply Qle_refl|split; [|by left]]].
    + split; [by left|]. intros [H|(m & H & _)]; [done | inversion H].
    + intros m H. inversion H.
  - cbn [fold_left map concat]. cbv zeta.
    destruct (scan_spec e (vocab_matches cell) acc) as (S1 & S2 & S3 & S4).
    destruct (IH (scan e acc (vocab_matches cell))) as (H1 & H2 & H3 & H4).
    cbv zeta in H1, H2, H3, H4.
    split; [|split; [|split]].
    + rewrite H1, S1. setoid_rewrite elem_of_app. split.
      * intros [[H|(m & Hm & Hn)]|(m & Hm & Hn)]; [by left|right..];
          exists m; (split; [|done]); [by left | by right].
      * intros [H|(m & [Hm|Hm] & Hn)];
          [left; by left | left; right; by exists m | right; by exists m].
    + eapply Qle_trans; eauto.
    + intros m [Hm|Hm]%elem_of_app Hn; [|by apply H3].
      eapply Qle_trans; [by apply S3 | done].
    + destruct H4 as [H4|(m & Hm & Hn & H4)].
      * destruct S4 as [S4|(m & Hm & Hn & S4)]; [left; congruence|].
        right. exists m. rewrite elem_of_app.
        split; [by left|]. split; [done | congruence].
      * right. exists m. rewrite elem_of_app. split; [by right | done].
Qed.

Lemma found_and_best_spec (e : string) (d : result_dict) :
  let res := found_and_best e (full_image_vocab_matches d) (grid_cells d) in
  let r := Classified d in
  (fst res = true ↔ ∃ m, m ∈ all_matches r ∧ names e m) ∧
  0 <= snd res ∧
  (∀ m, m ∈ all_matches r → names e m → match_score m <= snd res) ∧
  (snd res = 0 ∨
   ∃ m, m ∈ all_matches r ∧ names e m ∧ snd res = match_score m).
Proof.
  cbv zeta. unfold found_and_best, all_matches.
  generalize (full_image_vocab_matches d) (grid_cells d). intros full cells.
  set (acc := match full with
              | [] => (false, 0)
              | _ :: _ => scan e (false, 0) full
              end).
  assert (acc = scan e (false, 0) full) as -> by (by destruct full).
  set (res := match cells with
              | Some ((_ :: _) as cs) =>
                  fold_left (λ acc cell, scan e acc (vocab_matches cell)) cs
                            (scan e (false, 0) full)
              | _ => scan e (false, 0) full
              end).
  assert (res = fold_left (λ acc cell, scan e acc (vocab_matches cell))
                          (default [] cells) (scan e (false, 0) full)) as ->
    by (subst res; destruct cells as [[|c cs]|]; reflexivity).
  destruct (scan_spec e full (false, 0)) as (S1 & S2 & S3 & S4).
  destruct (scan_cells_spec e (default [] cells) (scan e (false, 0) full))
    as (H1 & H2 & H3 & H4).
  cbv zeta in H1, H2, H3, H4. cbn [fst snd] in S1, S2, S3, S4.
  split; [|split; [|split]].
  - rewrite H1, S1. setoid_rewrite elem_of_app. split.
    + intros [[H|(m & Hm & Hn)]|(m & Hm & Hn)]; [done|..];
        exists m; (split; [|done]); [by left | by right].
    + intros (m & [Hm|Hm] & Hn); [left; right; by exists m | right; by exists m].
  - eapply Qle_trans; eauto.
  - intros m [Hm|Hm]%elem_of_app Hn; [|by apply H3].
    eapply Qle_trans; [by apply S3 | done].
  - destruct H4 as [H4|(m & Hm & Hn & H4)].
    + destruct S4 as [S4|(m & Hm & Hn & S4)]; [left; congruence|].
      right. exists m. rewrite elem_of_app.
      split; [by left|]. split; [done | congruence].
    + right. exists m. rewrite elem_of_app. split; [by right | done].
Qed.

Lemma best_score_is_1_iff (e : string) (d : result_dict) :
  let res := found_and_best e (full_image_vocab_matches d) (grid_cells d) in
  let r := Classified d in
  fst res = true →
  (snd res == 1 ↔
   (∃ m, (m ∈ all_matches r ∧ names e m) ∧ match_score m == 1) ∧
   (∀ m, m ∈ all_matches r ∧ names e m → match_score m <= 1)).
Proof.
  cbv zeta. destruct (found_and_best_spec e d) as (H1 & H2 & H3 & H4).
  cbv zeta in H1, H2, H3, H4. intros Hf. split.
  - intros Hb. split.
    + destruct H4 as [H4|(m & Hm & Hn & H4)].
      * rewrite H4 in Hb. discriminate.
      * exists m. split; [done|]. by rewrite <- H4.
    + intros m [Hm Hn]. rewrite <- Hb. by apply H3.
  - intros [(m & [Hm Hn] & Hs) Hall]. apply Qle_antisym.
    + destruct H4 as [H4|(m' & Hm' & Hn' & H4)].
      * rewrite H4. discriminate.
      * rewrite H4. by apply Hall.
    + rewrite <- Hs. by apply H3.
Qed.

End PerformanceOfOneResult.

(** X21. How [analyze_vocab_performance] counts one image. For a result
    with a non-empty expected term, the matches of the full image and of
    all grid cells are searched for the expected term, compared without
    case. The image goes to [no_matches] exactly when no match names the
    term. It goes to [correct_matches] exactly when some match naming the
    term has score 1 and none has a higher score, and to [partial_matches]
    when a match names the term but the best score among them is not 1:
    every weaker match, whatever its type, counts as partial. *)
Theorem one_result_is_counted_by_best_score
    (st : Performance.stats) (d : Performance.result_dict) (e : string) :
  Text.truthy (Performance.expected_vocab d) = Some e →
  let r := Performance.Classified d in
  let st' := Performance.result_step st r in
  let named m :=
    m ∈ Performance.all_matches r ∧
    Text.lower (StringMatch.vocab_term m) = Text.lower e in
  let exact_is_best :=
    (∃ m, named m ∧ StringMatch.match_score m == 1) ∧
    (∀ m, named m → StringMatch.match_score m <= 1) in
  (Performance.no_matches st' = Performance.no_matches st ∨
   Performance.no_matches st' = S (Performance.no_matches st)) ∧
  (Performance.no_matches st' = S (Performance.no_matches st) ↔
   ¬ ∃ m, named m) ∧
  (Performance.correct_matches st' = S (Performance.correct_matches st) ↔
   exact_is_best) ∧
  (Performance.partial_matches st' = S (Performance.partial_matches st) ↔
   (∃ m, named m) ∧ ¬ exact_is_best) ∧
  (Performance.correct_matches st' = Performance.correct_matches st ∨
   Performance.correct_matches st' = S (Performance.correct_matches st)) ∧
  (Performance.partial_matches st' = Performance.partial_matches st ∨
   Performance.partial_matches st' = S (Performance.partial_matches st)).
Proof.
  intros He. cbv zeta. unfold Performance.result_step. rewrite He.
  destruct (found_and_best_spec e d) as (H1 & H2 & H3 & H4).
  pose proof (best_score_is_1_iff e d) as Hexact.
  cbv zeta in H1, H2, H3, H4, Hexact.
  set (r := Performance.Classified d) in *.
  destruct (Performance.found_and_best e (Performance.full_image_vocab_matches d)
              (Performance.grid_cells d)) as [found_match best_score].
  cbn [fst snd] in H1, H2, H3, H4, Hexact.
  cbn [Performance.no_matches Performance.correct_matches
       Performance.partial_matches].
  assert (Qeq_bool best_score 1.0 = true ↔ best_score == 1) as Hbest.
  { rewrite Qeq_bool_iff. split; intros ->; reflexivity. }
  destruct found_match.
  - specialize (Hexact eq_refl).
    assert (∃ m, m ∈ Performance.all_matches r ∧
                 Text.lower (StringMatch.vocab_term m) = Text.lower e) as Hex
      by by apply H1.
    cbn [andb negb].
    destruct (Qeq_bool best_score 1.0) eqn:Eb; cbn [negb].
    + assert (best_score == 1) as Hb1 by by apply Hbest.
      split; [by left|]. split; [split; [lia | done]|].
      split; [split; [intros _; by apply Hexact | intros _; lia]|].
      split; [split; [lia | intros [_ Hn]; exfalso; by apply Hn, Hexact]|].
      split; [right; lia | by left].
    + assert (¬ best_score == 1) as Hb1.
      { intros Hb. apply Hbest in Hb. congruence. }
      split; [by left|]. split; [split; [lia | done]|].
      split; [split; [lia | intros Hx; exfalso; by apply Hb1, Hexact]|].
      split; [split; [intros _; split; [done|]; intros Hx; by apply Hb1, Hexact
                     | intros _; lia]|].
      split; [by left | right; lia].
  - assert (¬ ∃ m, m ∈ Performance.all_matches r ∧
                   Text.lower (StringMatch.vocab_term m) = Text.lower e) as Hno.
    { intros Hx. apply H1 in Hx. discriminate. }
    cbn [andb].
    split; [right; lia|]. split; [split; [done | intros _; lia]|].
    split; [split; [lia | intros [(m & Hm & _) _]; exfalso; apply Hno; by exists m]|].
    split; [split; [lia | intros [Hx _]; by exfalso]|].
    split; by left.
Qed.

Lemma one_result_is_counted_by_best_score_witness :
  Performance.partial_matches
    (Performance.result_step (Performance.new_stats [])
       (Performance.Classified
          {| Performance.image_path := "vocab-001.png";
             Performance.image_size := (2, 2)%Z;
             Performance.full_image_predictions :=
               [ {| StringMatch.class_name := "acorn squash";
                    StringMatch.confidence := 0.5; StringMatch.rank := 1 |} ];
             Performance.full_image_vocab_matches :=
               [ {| StringMatch.m_prediction :=
                      {| StringMatch.class_name := "acorn squash";
                         StringMatch.confidence := 0.5;
                         StringMatch.rank := 1 |};
                    StringMatch.vocab_term := "Acorn";
                    StringMatch.match_score := 0.8;
                    StringMatch.m_match_type := StringMatch.partial |} ];
             Performance.grid_cells := None;
             Performance.best_match := None;
             Performance.expected_vocab := Some "acorn"%string |}))
  = 1%nat.
Proof.
  match goal with
  | |- context [Performance.Classified ?d] =>
      apply (one_result_is_counted_by_best_score (Performance.new_stats []) d
               "acorn"%string eq_refl)
  end.
  split.
  - eexists. split; [left | reflexivity].
  - intros [(m & [Hm _] & Hs) _]. cbn in Hm.
    apply list_elem_of_singleton in Hm. subst m. cbn in Hs. discriminate.
Defined.

(** ** [classify_image] and what the performance figures make of it *)

Section ClassifyImage.
Import StringMatch Performance Classifier.

Lemma max_by_score_spec (rest : list (string * vocab_match)) :
  ∀ first,
    max_by_score first rest ∈ first :: rest ∧
    ∀ x, x ∈ first :: rest →
         match_score (snd x) <= match_score (snd (max_by_score first rest)).
Proof.
  unfold max_by_score. induction rest as [|y rest IH]; intros first.
  - simpl. split; [left|]. intros x ->%list_elem_of_singleton. apply Qle_refl.
  - cbn [fold_left].
    destruct (Qltb (match_score (snd first)) (match_score (snd y))) eqn:E.
    + destruct (IH y) as [Hin Hmax]. split.
      * right. exact Hin.
      * intros x [->|Hx]%elem_of_cons; [|by apply Hmax].
        apply Qltb_lt, Qlt_le_weak in E.
        eapply Qle_trans; [exact E|]. apply Hmax. left.
    + destruct (IH first) as [Hin Hmax]. split.
      * apply elem_of_cons in Hin as [->|Hin]; [left | right; by right].
      * intros x [->|[->|Hx]%elem_of_cons]%elem_of_cons.
        -- apply Hmax. left.
        -- apply Qltb_nlt, Qnot_lt_le in E.
           eapply Qle_trans; [exact E|]. apply Hmax. left.
        -- apply Hmax. by right.
Qed.

Lemma find_vocab_matches_score_le_1
    (ratio : string → string → Q) (vocab_list : list string)
    (predictions : list prediction) (threshold : Q) (m : vocab_match) :
  (∀ a b, ratio a b <= 1) →
  m ∈ _find_vocab_matches ratio vocab_list predictions threshold →
  match_score m <= 1.
Proof.
  intros Hr. rewrite find_vocab_matches_omap.
  intros (p & Hp & Hm)%list_elem_of_omap. unfold match_of in Hm.
  pose proof (best_of_spec ratio vocab_list (Text.lower (class_name p)) threshold)
    as [_ HS].
  destruct (best_of _ _ _ _) as [[b|] s]; [|discriminate].
  destruct (String.eqb b ""); [discriminate|]. inversion Hm; subst m. simpl.
  destruct (HS b eq_refl) as (_ & Hs & _). cbn [snd] in Hs. rewrite Hs.
  by apply term_score_le_1.
Qed.

Lemma term_score_1_is_exact (ratio : string → string → Q) (cn b : string) :
  (∀ x y, ratio x y == 1 → x = y) →
  Text.lower cn = cn →
  term_score ratio cn b == 1 → Text.lower b = cn.
Proof.
  intros Hr Hcn. unfold term_score, _similarity_score.
  destruct (String.eqb_spec (Text.lower b) cn) as [|Hne]; [done|].
  destruct (_ || _); [intros H; vm_compute in H; discriminate|].
  destruct (_ || _); [intros H; vm_compute in H; discriminate|].
  intros H%Hr. rewrite lower_idempotent, Hcn in H. done.
Qed.

Variable sequence_matcher_ratio : string → string → Q.
Variable vocab_list : list string.
Variable image : Type.
Variable open_image : string → string + image.
Variable size : image → Z * Z.
Variable crop : image → Grid.box → image.
Variable _classify_image : image → nat → list prediction.
Variable stem : string → string.
Variable isdigit_unicode : string → bool.
Variable int_unicode : string → string + nat.

Local Abbreviation classify :=
  (classify_image sequence_matcher_ratio vocab_list image open_image size crop
                  _classify_image stem isdigit_unicode int_unicode).
Local Abbreviation expected_of :=
  (expected_vocab_of vocab_list stem isdigit_unicode int_unicode).

Lemma isdigit_is_ascii (s : string) : isdigit s = true → Text.is_ascii s = true.
Proof.
  unfold isdigit. intros [_ H]%andb_prop. induction s as [|c s IH]; [done|].
  simpl in *. apply andb_prop in H as [Hc Hs]. rewrite (IH Hs), andb_true_r.
  unfold is_digit in Hc. apply andb_prop in Hc as [_ Hc].
  apply Nat.leb_le in Hc. apply Nat.ltb_lt. lia.
Qed.


Local Abbreviation find_matches :=
  (_find_vocab_matches sequence_matcher_ratio vocab_list).

Lemma classify_image_result (image_path : string) (analyze_grid : bool)
    (top_k : nat) (im : image) (expected : option string) :
  open_image image_path = inr im →
  expected_of image_path = inr expected →
  ∃ d,
    classify image_path analyze_grid top_k = Classified d ∧
    full_image_vocab_matches d = find_matches (_classify_image im top_k) 0.3 ∧
    expected_vocab d = expected ∧
    (analyze_grid = false → grid_cells d = None ∧ best_match d = None) ∧
    (analyze_grid = true →
     ∃ cells,
       grid_cells d = Some cells ∧
       map position cells = position_names ∧
       map predictions cells
       = map (λ nb, _classify_image (crop im (snd nb)) top_k)
             (Grid.grid_boxes (fst (size im)) (snd (size im))) ∧
       Forall (λ cell, vocab_matches cell = find_matches (predictions cell) 0.3)
              cells ∧
       (best_match d = None ↔ ∀ cell, cell ∈ cells → vocab_matches cell = []) ∧
       (∀ pos m,
          best_match d = Some (pos, m) →
          (∃ cell, cell ∈ cells ∧ position cell = pos ∧ m ∈ vocab_matches cell) ∧
          (∀ cell m', cell ∈ cells → m' ∈ vocab_matches cell →
                      match_score m' <= match_score m))).
Proof.
  intros Hopen He. unfold classify_image. rewrite Hopen, He.
  destruct analyze_grid.
  - set (cells := map (cell_result sequence_matcher_ratio vocab_list image
                         _classify_image top_k)
                      (enumerate (_extract_grid_cells image size crop im))).
    set (all := flat_map (λ cr, map (λ m, (position cr, m)) (vocab_matches cr))
                         cells).
    assert (∀ pos m, (pos, m) ∈ all ↔
                     ∃ cell, cell ∈ cells ∧ position cell = pos ∧
                             m ∈ vocab_matches cell) as Hall.
    { intros pos m. subst all. rewrite list_elem_of_In, in_flat_map. split.
      - intros (cell & Hc & Hm). apply in_map_iff in Hm as (m' & Heq & Hm').
        inversion Heq; subst. exists cell.
        split; [by apply list_elem_of_In|]. split; [done|].
        by apply list_elem_of_In.
      - intros (cell & Hc & <- & Hm). exists cell.
        split; [by apply list_elem_of_In|]. apply in_map_iff. exists m.
        split; [done|]. by apply list_elem_of_In. }
    eexists. split; [reflexivity|]. cbn [full_image_vocab_matches expected_vocab
                                        grid_cells best_match].
    split; [done|]. split; [done|]. split; [done|]. intros _.
    exists cells. split; [done|].
    split; [subst cells; unfold _extract_grid_cells;
            destruct (size im) as [width height]; reflexivity|].
    split; [subst cells; unfold _extract_grid_cells;
            destruct (size im) as [width height]; reflexivity|].
    split.
    { subst cells. apply Forall_forall. intros cell.
      intros ([i c] & -> & _)%list_elem_of_fmap. reflexivity. }
    fold cells. fold all. clearbody all cells. split.
    + destruct all as [|first rest].
      * split; [|done]. intros _ cell Hcell.
        destruct (vocab_matches cell) as [|m ms] eqn:E; [done|]. exfalso.
        assert ((position cell, m) ∈ []) as H; [|inversion H].
        apply Hall. exists cell. rewrite E. split; [done|]. split; [done|]. left.
      * split; [discriminate|]. intros Hnone. exfalso.
        destruct first as [pos m].
        destruct (proj1 (Hall pos m)) as (cell & Hc & _ & Hm); [left|].
        rewrite (Hnone cell Hc) in Hm. inversion Hm.
    + intros pos m Hbest. destruct all as [|first rest]; [discriminate|].
      inversion Hbest as [Hb]. clear Hbest.
      destruct (max_by_score_spec rest first) as [Hin Hmax].
      rewrite Hb in Hin, Hmax. split; [by apply Hall|].
      intros cell m' Hc Hm'.
      apply (Hmax (position cell, m')). apply Hall. by exists cell.
  - eexists. split; [reflexivity|]. cbn.
    split; [done|]. split; [done|]. split; [done|]. discriminate.
Qed.

End ClassifyImage.



Section ClassifyThenAnalyze.
Import StringMatch Performance Classifier.

Lemma prefix_vocab (digits : string) :
  String.prefix "vocab-" ("vocab-" ++ digits) = true ∧
  slice_from 6 ("vocab-" ++ digits) = digits.
Proof. split; [|reflexivity]. cbn. by destruct digits. Qed.

End ClassifyThenAnalyze.

(** X23. From [classify_image] to [analyze_vocab_performance]. Take a
    similarity ratio that never exceeds 1 and is 1 only for equal strings
    (as [SequenceMatcher.ratio] is). Let the image open, let its file name
    be [vocab-<digits>] where the digits read as [n + 1] and
    [vocab_list[n]] is a non-empty term, and let the model report, for the
    full image, a class whose name is that term up to case. Then
    [analyze_vocab_performance] of the one result counts the image as a
    correct match: [images_with_expected_vocab], [correct_matches] and
    [accuracy] are 1, [partial_matches] and [no_matches] are 0, with or
    without grid analysis. *)
Theorem exact_prediction_is_counted_correct
    (sequence_matcher_ratio : string → string → Q) (vocab_list : list string)
    (image : Type) (open_image : string → string + image)
    (size : image → Z * Z) (crop : image → Grid.box → image)
    (_classify_image : image → nat → list StringMatch.prediction)
    (stem : string → string)
    (isdigit_unicode : string → bool) (int_unicode : string → string + nat)
    (image_path : string) (analyze_grid : bool) (top_k : nat) (im : image)
    (digits : string) (n : nat) (e : string) (p : StringMatch.prediction) :
  (∀ a b, sequence_matcher_ratio a b <= 1) →
  (∀ a b, sequence_matcher_ratio a b == 1 → a = b) →
  open_image image_path = inr im →
  stem image_path = ("vocab-" ++ digits)%string →
  Classifier.isdigit digits = true →
  Classifier.int digits = S n →
  vocab_list !! n = Some e → e ≠ EmptyString →
  p ∈ _classify_image im top_k →
  Text.lower (StringMatch.class_name p) = Text.lower e →
  let st :=
    Performance.analyze_vocab_performance
      [ Classifier.classify_image sequence_matcher_ratio vocab_list image
          open_image size crop _classify_image stem isdigit_unicode int_unicode
          image_path analyze_grid top_k ] in
  Performance.total_images st = 1%nat ∧
  Performance.images_with_expected_vocab st = 1%nat ∧
  Performance.correct_matches st = 1%nat ∧
  Performance.partial_matches st = 0%nat ∧
  Performance.no_matches st = 0%nat ∧
  Performance.accuracy st == 1.
Proof.
  intros Hr Hinj Hopen Hstem Hdig Hint Hn Hne Hp Hlow.
  assert (Classifier.expected_vocab_of vocab_list stem isdigit_unicode
            int_unicode image_path = inr (Some e)) as Hexpected.
  { unfold Classifier.expected_vocab_of, Classifier.str_isdigit,
      Classifier.str_int. rewrite Hstem.
    destruct (prefix_vocab digits) as [-> ->].
    rewrite (isdigit_is_ascii digits Hdig), Hdig, Hint.
    apply lookup_lt_Some in Hn as Hlt.
    replace (Z.of_nat (S n) - 1)%Z with (Z.of_nat n) by lia.
    rewrite Nat2Z.id. cbn [andb].
    destruct (Z.leb_spec 0 (Z.of_nat n)); [|lia].
    destruct (Z.ltb_spec (Z.of_nat n) (Z.of_nat (length vocab_list))); [|lia].
    by rewrite Hn. }
  destruct (classify_image_result sequence_matcher_ratio vocab_list image
              open_image size crop _classify_image stem isdigit_unicode
              int_unicode image_path analyze_grid top_k im (Some e) Hopen
              Hexpected) as (d & Hd & Hfull & He & Hnogrid & Hgrid).
  assert (Text.truthy (Performance.expected_vocab d) = Some e) as Ht.
  { rewrite He. by destruct e. }
  (* the exact match of [p] *)
  destruct (match_of_exact sequence_matcher_ratio vocab_list 0.3 p e Hr
              ltac:(discriminate) (list_elem_of_lookup_2 _ _ _ Hn) Hne
              (eq_sym Hlow))
    as (m & Hm & _ & Hscore & _ & Hterm & _).
  assert (Text.lower (StringMatch.vocab_term m) = Text.lower e) as Hnames.
  { rewrite <- Hlow.
    apply (term_score_1_is_exact sequence_matcher_ratio); [done | |].
    - apply lower_idempotent.
    - by rewrite <- Hterm. }
  assert (m ∈ Performance.all_matches (Performance.Classified d)) as Hin.
  { unfold Performance.all_matches. apply elem_of_app. left.
    rewrite Hfull, find_vocab_matches_omap.
    apply list_elem_of_omap. by exists p. }
  assert (∀ m', m' ∈ Performance.all_matches (Performance.Classified d) →
                StringMatch.match_score m' <= 1) as Hall.
  { unfold Performance.all_matches. intros m' [Hm'|Hm']%elem_of_app.
    - rewrite Hfull in Hm'. by eapply find_vocab_matches_score_le_1.
    - destruct analyze_grid.
      + destruct (Hgrid eq_refl) as (cells & Hg & _ & _ & Hcells & _).
        rewrite Hg in Hm'. simpl in Hm'.
        apply list_elem_of_In, in_concat in Hm' as (l & Hl & Hm').
        apply in_map_iff in Hl as (cell & <- & Hcell).
        apply list_elem_of_In in Hcell.
        rewrite Forall_forall in Hcells. rewrite (Hcells _ Hcell) in Hm'.
        eapply find_vocab_matches_score_le_1; [done|].
        by apply list_elem_of_In.
      + destruct (Hnogrid eq_refl) as [Hg _]. rewrite Hg in Hm'. inversion Hm'. }
  cbv zeta. unfold Performance.analyze_vocab_performance. rewrite Hd.
  cbn [fold_left].
  unfold Performance.result_step. rewrite Ht.
  destruct (found_and_best_spec e d) as (Hfound & _).
  pose proof (best_score_is_1_iff e d) as Hexact.
  cbv zeta in Hfound, Hexact.
  destruct (Performance.found_and_best e (Performance.full_image_vocab_matches d)
              (Performance.grid_cells d)) as [found_match best_score].
  cbn [fst snd] in Hfound, Hexact.
  assert (found_match = true) as -> by (apply Hfound; by exists m).
  assert (best_score == 1) as Hbest.
  { apply Hexact; [done|]. split; [by exists m|].
    intros m0 [Hm0 _]. by apply Hall. }
  assert (Qeq_bool best_score 1.0 = true) as ->.
  { apply Qeq_bool_iff. rewrite Hbest. reflexivity. }
  cbn. split; [done|]. split; [done|]. split; [done|]. split; [done|].
  split; [done|]. reflexivity.
Qed.

Lemma exact_prediction_is_counted_correct_witness :
  Performance.correct_matches
    (Performance.analyze_vocab_performance
       [ Classifier.classify_image (λ a b, if String.eqb a b then 1 else 0)
           ["acorn"; "aloe"]%string unit
           (λ _, inr tt) (λ _, (2, 2)%Z) (λ im _, im)
           (λ _ _, [ {| StringMatch.class_name := "ALOE";
                        StringMatch.confidence := 0.5;
                        StringMatch.rank := 1 |} ])
           (λ _, "vocab-002"%string) (λ _, false) (λ _, inr 0%nat)
           "vocab-002.png" false 10 ])
  = 1%nat.
Proof.
  apply (exact_prediction_is_counted_correct
           (λ a b, if String.eqb a b then 1 else 0)
           ["acorn"; "aloe"]%string unit
           (λ _, inr tt) (λ _, (2, 2)%Z) (λ im _, im)
           (λ _ _, [ {| StringMatch.class_name := "ALOE";
                        StringMatch.confidence := 0.5;
                        StringMatch.rank := 1 |} ])
           (λ _, "vocab-002"%string) (λ _, false) (λ _, inr 0%nat)
           "vocab-002.png" false 10 tt
           "002"%string 1 "aloe"%string
           {| StringMatch.class_name := "ALOE";
              StringMatch.confidence := 0.5; StringMatch.rank := 1 |}).
  - intros a b. destruct (String.eqb a b); discriminate.
  - intros a b. destruct (String.eqb_spec a b); [done | discriminate].
  - reflexivity.
  - reflexivity.
  - reflexivity.
  - reflexivity.
  - reflexivity.
  - discriminate.
  - left.
  - reflexivity.
Defined.

(** ** The loaded vocabulary *)

Section LoadedVocabulary.
Import StringMatch Vocabulary.

Lemma lstrip_head (s : string) :
  lstrip s = EmptyString ∨
  ∃ c r, lstrip s = String c r ∧ is_space c = false.
Proof.
  induction s as [|c r IH]; [by left|]. cbn [lstrip].
  destruct (is_space c) eqn:E; [exact IH|]. right. by exists c, r.
Qed.

Lemma rstrip_idempotent (s : string) : rstrip (rstrip s) = rstrip s.
Proof.
  induction s as [|c r IH]; [done|]. cbn [rstrip]. cbv zeta.
  destruct (is_space c && String.eqb (rstrip r) "") eqn:E; [done|].
  cbn [rstrip]. cbv zeta. by rewrite IH, E.
Qed.

Lemma rstrip_last (s : string) :
  rstrip s = EmptyString ∨
  ∃ r c, rstrip s = (r ++ String c "")%string ∧ is_space c = false.
Proof.
  induction s as [|c r IH]; [by left|]. cbn [rstrip]. cbv zeta.
  destruct (is_space c && String.eqb (rstrip r) "") eqn:E; [by left|]. right.
  destruct IH as [IH|(r' & c' & IH & Hc')].
  - rewrite IH in E |- *. rewrite andb_true_r in E. by exists EmptyString, c.
  - rewrite IH. by exists (String c r'), c'.
Qed.

Lemma strip_spec (s : string) :
  strip (strip s) = strip s ∧
  (strip s = EmptyString ∨
   ∃ c r, strip s = String c r ∧ is_space c = false) ∧
  (strip s = EmptyString ∨
   ∃ r c, strip s = (r ++ String c "")%string ∧ is_space c = false).
Proof.
  unfold strip.
  assert (rstrip (lstrip s) = EmptyString ∨
          ∃ c r, rstrip (lstrip s) = String c r ∧ is_space c = false) as Hhead.
  { destruct (lstrip_head s) as [->|(c & r & -> & Hc)]; [by left|].
    right. cbn [rstrip]. cbv zeta. rewrite Hc. by eexists _, _. }
  split; [|split; [exact Hhead | apply rstrip_last]].
  destruct Hhead as [->|(c & r & H & Hc)]; [done|].
  rewrite H. cbn [lstrip]. rewrite Hc, <- H. apply rstrip_idempotent.
Qed.

Variable strip_unicode : string → string.

Lemma elem_of_load_vocabulary (lines : list string) (v : string) :
  v ∈ _load_vocabulary strip_unicode (Some lines) ↔
  v ≠ EmptyString ∧ ∃ line, line ∈ lines ∧ v = str_strip strip_unicode line.
Proof.
  unfold _load_vocabulary. rewrite list_elem_of_omap. split.
  - intros (line & Hline & H).
    destruct (String.eqb_spec (str_strip strip_unicode line) "") as [|Hne];
      [discriminate|].
    inversion H; subst v. split; [done|]. by exists line.
  - intros (Hne & line & Hline & ->). exists line. split; [done|].
    by destruct (String.eqb_spec (str_strip strip_unicode line) "").
Qed.

Lemma load_vocabulary_filter (lines : list string) :
  _load_vocabulary strip_unicode (Some lines)
  = filter (λ v, v ≠ EmptyString) (str_strip strip_unicode <$> lines).
Proof.
  unfold _load_vocabulary. induction lines as [|line lines IH]; [done|].
  csimpl. rewrite filter_cons, IH.
  destruct (String.eqb_spec (str_strip strip_unicode line) "") as [E|E].
  - by rewrite decide_False by (by intros H; apply H).
  - by rewrite decide_True.
Qed.

End LoadedVocabulary.

(** X24. The vocabulary that is loaded. The terms are the stripped lines of
    the file that are not blank, in the order of the file (what [strip]
    makes of a line with characters outside ASCII is left to Python).
    Every term is non-empty; a term that comes from an ASCII line begins
    and ends with a character that is not white space and is left unchanged
    by a second [strip]. As no term is the empty string, the test
    [if best_match:] of [_find_vocab_matches] never discards a best term:
    with a loaded vocabulary a prediction has no match exactly when no term
    has a positive score that meets the threshold. With a missing
    vocabulary file, [_find_vocab_matches] returns no match at all. *)
Theorem loaded_vocabulary_is_clean (strip_unicode : string → string)
    (vocab_file : option (list string)) :
  (∀ lines,
     vocab_file = Some lines →
     Vocabulary._load_vocabulary strip_unicode vocab_file
     = filter (λ v, v ≠ EmptyString)
              (Vocabulary.str_strip strip_unicode <$> lines)) ∧
  (∀ v, v ∈ Vocabulary._load_vocabulary strip_unicode vocab_file →
        v ≠ EmptyString ∧
        ∃ lines line,
          vocab_file = Some lines ∧ line ∈ lines ∧
          v = Vocabulary.str_strip strip_unicode line ∧
          (Text.is_ascii line = true →
           v = Vocabulary.strip line ∧ Vocabulary.strip v = v ∧
           (∃ c r, v = String c r ∧ StringMatch.is_space c = false) ∧
           (∃ r c, v = (r ++ String c "")%string ∧
                   StringMatch.is_space c = false))) ∧
  (∀ sequence_matcher_ratio threshold p,
     StringMatch.match_of sequence_matcher_ratio
       (Vocabulary._load_vocabulary strip_unicode vocab_file) threshold p = None ↔
     ∀ v, v ∈ Vocabulary._load_vocabulary strip_unicode vocab_file →
          ¬ (0 < StringMatch.term_score sequence_matcher_ratio
                   (Text.lower (StringMatch.class_name p)) v ∧
             threshold <= StringMatch.term_score sequence_matcher_ratio
                            (Text.lower (StringMatch.class_name p)) v)) ∧
  (∀ sequence_matcher_ratio predictions threshold,
     vocab_file = None →
     StringMatch._find_vocab_matches sequence_matcher_ratio
       (Vocabulary._load_vocabulary strip_unicode vocab_file) predictions
       threshold = []).
Proof.
  assert (∀ v, v ∈ Vocabulary._load_vocabulary strip_unicode vocab_file →
               v ≠ EmptyString ∧
               ∃ lines line, vocab_file = Some lines ∧ line ∈ lines ∧
                             v = Vocabulary.str_strip strip_unicode line)
    as Hterm.
  { intros v Hv. destruct vocab_file as [lines|]; [|inversion Hv].
    apply elem_of_load_vocabulary in Hv as (Hne & line & Hline & ->).
    split; [done|]. by exists lines, line. }
  split; [|split; [|split]].
  - intros lines ->. apply load_vocabulary_filter.
  - intros v Hv. destruct (Hterm v Hv) as (Hne & lines & line & Hf & Hline & Hv').
    split; [done|]. exists lines, line.
    split; [done|]. split; [done|]. split; [done|]. intros Hascii.
    unfold Vocabulary.str_strip in Hv'. rewrite Hascii in Hv'. subst v.
    destruct (strip_spec line) as (Hidem & Hhead & Hlast).
    split; [done|]. split; [done|].
    split; [by destruct Hhead | by destruct Hlast].
  - intros ratio threshold p. unfold StringMatch.match_of.
    pose proof (best_of_spec ratio
                  (Vocabulary._load_vocabulary strip_unicode vocab_file)
                  (Text.lower (StringMatch.class_name p)) threshold) as [HN HS].
    destruct (StringMatch.best_of _ _ _ _) as [[b|] s]; cbn [fst snd] in *.
    + destruct (HS b eq_refl) as (Hb & Hs & H0 & Hth & _).
      destruct (Hterm b Hb) as [Hne _].
      destruct (String.eqb_spec b "") as [|_]; [done|].
      split; [discriminate|]. intros H. exfalso. apply (H b Hb).
      by rewrite <- Hs.
    + split; [|done]. intros _. by destruct (HN eq_refl).
  - intros ratio predictions threshold ->. rewrite find_vocab_matches_omap.
    change (Vocabulary._load_vocabulary strip_unicode None) with (@nil string).
    induction predictions as [|p l IH]; [done|]. csimpl. exact IH.
Qed.
